(* ===== verification/_CoqProject ===== *)
-Q . S2P
Prelude.v
GoRuntime.v
Strconv.v
NetAddr.v
HostIP.v
Copy.v
TunnelState.v
TunnelInv.v
TunnelLive.v
TunnelProps.v
Main.v
Process.v
