(* ===== verification/Prelude.v ===== *)
(** * A verification development of the tunnelling tool (src/main.go)

    The program exposes a local TCP service on an OS-chosen public port.
    Its parts, all in src/main.go:

    - [TunnelServer] (lines 15-27): the tunnel object, with the local
      port, the public port, a [sync.WaitGroup] counting the relay
      workers and a [stopChan] closed to request shutdown.
    - [Start] (lines 29-65): finds a non-loopback IPv4 address for the
      banner, binds a listener on ":0", parses the port back out of the
      listener's address and spawns the accept loop.
    - [acceptConnections] (lines 66-84): the accept loop; a [select]
      with a [default] branch polls [stopChan] before each blocking
      [Accept]; every accepted connection does [wg.Add(1)] and spawns a
      relay worker.
    - [handleConnection] (lines 86-113): the relay worker; it registers
      [defer wg.Done()] and [defer publicConn.Close()], dials the local
      service, registers [defer localConn.Close()], starts two [io.Copy]
      goroutines that report on a channel of capacity 2, and returns as
      soon as one of them reports.
    - [Stop] (lines 115-119): [close(stopChan)] then [wg.Wait()].
    - [main] (lines 121-144): the port argument (default 3000), [Start],
      the signal wait and [Stop].

    Files of the development, in dependency order:

    - [Prelude] (this file): the [tunnel_scope] notations (the [let?]
      early return of Go's [if err != nil]), the [tunnel] hint
      database, the tactics and the generic lemmas on lists, sums and
      32-bit integers that the components share.
    - [GoRuntime]: the parts of the Go runtime the program relies on.
      Module [WaitGroup] follows sync/waitgroup.go: the state word's
      int32 counter and waiter count plus the semaphore; [add] with the
      "negative WaitGroup counter" and "misuse" panics and the release
      of the waiters when the counter reaches zero; [done]; [Wait] in
      its two halves, [wait_register] (return at once on a zero
      counter, otherwise sleep) and [wait_wake] (consume a semaphore
      token; panic "WaitGroup is reused" if the state is no longer
      zero).  Channel [close] with the "close of closed channel" panic
      and buffered channels (Module [Chan]), plus the error values the
      program sees.
    - [Strconv]: [strconv.Atoi] (its fast path for 1-18 bytes and the
      general [ParseInt]/[ParseUint] with syntax and range errors and
      clamping) and [strconv.Itoa], after the Go library's source.
    - [NetAddr]: [net.SplitHostPort], [net.JoinHostPort] and the [String]
      method of [*net.TCPAddr], which [Start] uses to read the public
      port back (line 52).
    - [HostIP]: the banner loop of [Start] (lines 36-44) with [net.IP]'s
      [To4], [IsLoopback], [Equal] and dotted [String].
    - [Copy]: [io.Copy] (the copy loop of [io.copyBuffer]) over the
      [Reader]/[Writer] interfaces, stated as type classes, with the TCP
      stream instances [InStream] and [Sink].
    - [TunnelState]: the whole concurrent system as an executable step
      function [exec] over a global [State]: the [TunnelServer] record
      exactly as the struct (lines 15-20), the accept-loop goroutine's
      program counter, every relay worker ([Worker]: its program
      counter, defer stack, [errChan] and two copy goroutines), the
      [Stop] caller, the kernel's queue of pending connections, the
      local service and the log lines the code prints.  One [action] is
      one statement of one goroutine, or a move of the environment:
      [acceptConnections_step] models lines 66-84,
      [handleConnection_step] and [run_deferred] lines 86-113,
      [copy_send] lines 103 and 108, [Stop_close], [Stop_wait] and
      [Stop_wake] lines 115-119.  [reachable] is the rule-induction
      closure of [exec] from [started].
    - [TunnelInv]: the invariant [inv] of reachable states, its
      preservation by every action, and the properties that read off
      it directly (the panics, the deferred calls' order, the WaitGroup's
      bounds, the workers' shapes).
    - [TunnelLive]: progress of the relay workers, by well-founded
      induction on [pending_work]: they terminate, and [Stop] returns.
    - [TunnelProps]: the spec's abstract tunnel (spec.md, section 3:
      [liveConnectionCount], [shutdownRequested], the lifecycle and the
      RelayPairs) as a transition system [spec_step], the abstraction
      [abs] of a program state, the refinement of [exec] into
      [spec_step], and the shutdown properties stated against [abs].
    - [Main]: [Start] over the results of [net.InterfaceAddrs] and
      [net.Listen], composed from the components above and ending in
      [TunnelState.started] together with the three banner lines
      ([banner], lines 59-61); [main]'s choice of the local port and
      its fatal exit.
    - [Process]: the whole process after [Start] (lines 138-144):
      [sigChan] as a buffered channel of capacity 1 that
      [signal.Notify] fills without blocking ([signal_notify]),
      [main]'s program counter ([main_pc]: the receive on [sigChan],
      the single call of [Stop] in its close and wait halves, the
      return from [main]), and [proc_exec], an interleaving of the
      tunnel's goroutines, signal arrivals and [main]'s steps; once
      [main] has returned, the process has exited and nothing runs.

    What the theorems show:

    - TunnelInv: the invariant [inv] holds in every reachable state
      (rule induction over [reachable], one preservation lemma per
      step).  From it: the only panics are a second [Stop], the
      WaitGroup reuse during [Stop] and the int32 overflow at [2^31]
      workers; a worker that ran [Done] has closed its connections;
      the WaitGroup's state stays in bounds (counter in [0, 2^31), at
      most one waiter, at most one token); every worker has a shape
      [handleConnection] produces.
    - TunnelProps: [exec] refines the spec's abstract machine (every
      step of the program is a [spec_step] of [abs] or leaves it
      unchanged); hence the spec's counting invariant holds of the
      program ([liveConnectionCount] is the number of running relays),
      when [Stop] returns every relay has finished and closed its
      connections, and after [stopChan] is closed at most one more
      relay is created.  [errChan] never blocks a sender; the socket
      closes only when the loop exits; a refused dial finishes its relay
      in four steps.  Schedules evaluated by [vm_compute] exhibit
      [Stop] returning while [Accept] still accepts (and the relay it
      then creates) and the second [Stop] (the reuse panic is shown on
      the whole process, in [Process]).
    - TunnelLive: from every reachable state without a panic, the
      workers and copy goroutines alone run every [handleConnection] to
      its exit, and from every state where [Stop] waits they bring the
      counter to zero and [Stop] returns.
    - Copy: [io_Copy] refines [copy_spec] (what is delivered, counted and
      reported), hence relays every byte in order up to [EOF], stops at
      a failing receiver with exactly the bytes it took, and reports
      misbehaving writers.
    - Strconv, NetAddr: [Atoi] equals [ParseInt] (the fast path is an
      optimisation); [Atoi] inverts [Itoa] on [int]; on a numeral out
      of the [int64] range it returns [math.MaxInt64] or
      [math.MinInt64] with a range error ([clamp_int64]); [SplitHostPort]
      inverts [JoinHostPort].
    - HostIP, Main: the banner loop implements its one-line contract and
      never shows a loopback address; [Start]'s result on every outcome
      of its environment calls, banner included; the "Public Endpoint" line splits back into the
      chosen address and the listener's port.
    - Process: the invariant [proc_inv] of every reachable process
      (rule induction): [stopChan] is never closed twice through
      [main], at most one signal is buffered, and when [Stop] has
      returned at most one relay can still appear.  After a signal,
      [main] returns in three of its own steps whenever the workers
      run to completion.  Schedules evaluated by [vm_compute] show
      [main] exiting while a relay is still running (the process ends
      and the connection is cut) and a connection accepted during
      [Stop]'s wake-up crashing the process.

    Bounds and fuel.  The WaitGroup counter is kept at its int32 width
    ([wrap32]) because overflow matters: [Add] panics at [2^31].  The
    copy loop runs on fuel, one round per [Read]; any fuel above
    [stream_measure] (bytes plus chunks of the stream) is enough, since
    every [Read] of a 32 KiB buffer consumes a chunk or at least one
    byte.  [le_digits] runs on fuel 20, enough for every [uint64].  The
    state machine needs no fuel: [exec] is one step, and [run] follows
    a finite schedule; its termination arguments are measures
    ([wmeasure], [pending_work]) that every worker step decreases.

    Not modelled: the log writer itself (the banner is a list of
    strings and the other lines are the model's [log_line]s), IPv6
    text formatting (the program prints IPv4 forms only), the
    [ReadFrom]/[WriteTo] splice paths of [*net.TCPConn] (they move the
    same bytes), the window between [Start] and [signal.Notify] (a
    signal there takes the default action and kills the process before
    [Process] begins), signals other than SIGINT and SIGTERM (not
    subscribed, they keep their default action), and the bytes moved by each copy goroutine inside [TunnelState] (when a
    copy returns is an action of the environment; what it returns is
    the subject of [Copy]). *)

From stdpp Require Export base list relations.
From Stdlib Require Export ZArith Lia.

Declare Scope tunnel_scope.
Delimit Scope tunnel_scope with tunnel.
Open Scope tunnel_scope.

(** Go's [if err != nil { return err }] idiom over [sum E A]: an error
    value is [inl], a result [inr]. *)
Notation "'let?' x ':=' c 'in' k" :=
  (match c with inl e => inl e | inr x => k end)
  (at level 100, x name, c at level 100, k at level 200) : tunnel_scope.

Create HintDb tunnel.
Create Rewrite HintDb tunnel_counts.

(** Inversion that cleans up after itself. *)
Ltac invc H := inversion H; subst; clear H.

(** Split every [if]/[match] on a decidable test in hypotheses and goal. *)
Ltac split_ifs :=
  repeat match goal with
  | H : context [if ?b then _ else _] |- _ => destruct b eqn:?
  | |- context [if ?b then _ else _] => destruct b eqn:?
  end.

(** ** Counting list elements that satisfy a boolean test *)

Definition count_if {A} (p : A -> bool) (l : list A) : nat :=
  length (filter (fun x => p x = true) l).

Lemma count_if_app {A} (p : A -> bool) (l1 l2 : list A) :
  count_if p (l1 ++ l2) = count_if p l1 + count_if p l2.
Proof. unfold count_if. by rewrite filter_app, length_app. Qed.

Lemma count_if_cons {A} (p : A -> bool) (x : A) (l : list A) :
  count_if p (x :: l) = (if p x then 1 else 0) + count_if p l.
Proof. unfold count_if. rewrite filter_cons. destruct (p x); simpl; done. Qed.

(** Updating one element changes the count by the difference of the
    two tests. *)
Lemma count_if_insert {A} (p : A -> bool) (l : list A) (i : nat) (x y : A) :
  l !! i = Some x ->
  count_if p (<[i:=y]> l) + (if p x then 1 else 0)
  = count_if p l + (if p y then 1 else 0).
Proof.
  revert i. induction l as [|z l IH]; intros [|i] Hi; simpl in *; try done.
  - invc Hi. rewrite !count_if_cons. lia.
  - rewrite !count_if_cons. specialize (IH i Hi). lia.
Qed.

Lemma count_if_lookup {A} (p : A -> bool) (l : list A) (i : nat) (x : A) :
  l !! i = Some x -> p x = true -> 1 <= count_if p l.
Proof.
  revert i. induction l as [|z l IH]; intros [|i] Hi Hp; simpl in *; try done;
    rewrite count_if_cons.
  - invc Hi. rewrite Hp. lia.
  - specialize (IH i Hi Hp). lia.
Qed.

Lemma count_if_le_length {A} (p : A -> bool) (l : list A) :
  count_if p l <= length l.
Proof. unfold count_if. apply length_filter. Qed.

Lemma count_if_zero {A} (p : A -> bool) (l : list A) :
  count_if p l = 0 <-> Forall (fun x => p x = false) l.
Proof.
  induction l as [|x l IH]; [split; constructor; done|].
  rewrite count_if_cons, Forall_cons. destruct (p x); split; intros H.
  - lia.
  - by destruct H.
  - split; [done|]. apply IH. lia.
  - apply IH, H.
Qed.

Lemma count_if_pos {A} (p : A -> bool) (l : list A) :
  count_if p l <> 0 -> exists i x, l !! i = Some x /\ p x = true.
Proof.
  induction l as [|x l IH]; [done|]. rewrite count_if_cons.
  destruct (p x) eqn:Hp; intros H.
  - by exists 0, x.
  - destruct (IH H) as (i & y & ? & ?). by exists (S i), y.
Qed.

(** Replacing one element changes a sum by the difference of the two. *)
Lemma sum_list_with_insert {A} (f : A -> nat) (l : list A) (i : nat) (x y : A) :
  l !! i = Some x -> sum_list_with f (<[i:=y]> l) + f x = sum_list_with f l + f y.
Proof.
  revert i. induction l as [|z l IH]; intros [|i] Hi; simpl in *; try done.
  - invc Hi. lia.
  - specialize (IH i Hi). lia.
Qed.

#[export] Hint Rewrite @count_if_app @count_if_cons : tunnel_counts.

(** ** Signed 32-bit integers *)

Section Int32.
Local Open Scope Z_scope.

(** Two's-complement wrap-around of a Z to 32 bits, as Go's [int32(x)]. *)
Definition wrap32 (z : Z) : Z := ((z + 2^31) mod 2^32) - 2^31.

Definition in_int32 (z : Z) : Prop := -2^31 <= z < 2^31.

Lemma wrap32_id (z : Z) : in_int32 z -> wrap32 z = z.
Proof.
  unfold wrap32, in_int32. intros H.
  rewrite Z.mod_small by lia. lia.
Qed.

Lemma wrap32_range (z : Z) : in_int32 (wrap32 z).
Proof.
  unfold wrap32, in_int32.
  pose proof (Z.mod_pos_bound (z + 2^31) (2^32)). lia.
Qed.

(** The first value past [int32]'s maximum wraps to its minimum. *)
Lemma wrap32_max_succ : wrap32 (2^31 - 1 + 1) = - 2^31.
Proof. reflexivity. Qed.

End Int32.

#[export] Hint Resolve wrap32_range : tunnel.
