(* ===== verification/GoRuntime.v ===== *)
(** * The parts of the Go runtime and library the tunnel relies on

    Modelled from the documented semantics of the Go library (the code is
    not part of the repository): the [error] values the program sees,
    [sync.WaitGroup] (an int32 counter, [Add], [Done], [Wait] and the
    "negative WaitGroup counter" panic), [close] on a channel (which
    panics on a closed channel) and buffered channels such as the relay
    worker's [errChan] ([make(chan error, 2)]).  A panic is a value of
    [go_panic] returned in the left of a [sum]. *)

From S2P Require Import Prelude.

(** ** Error values *)

(** The [error] values that reach the program: [io.EOF], the copy loop's
    [io.ErrShortWrite] and [errInvalidWrite], [net.ErrClosed] ("use of
    closed network connection"), a refused dial, a reset connection and
    any other error, by an opaque code. *)
Inductive goerror :=
| EOF
| ErrShortWrite
| ErrInvalidWrite
| ErrClosed
| ErrConnRefused
| ErrConnReset
| ErrOther (code : nat).

#[export] Instance goerror_eq_dec : EqDecision goerror.
Proof. solve_decision. Defined.

(** The run-time panics the program can raise. *)
Inductive go_panic :=
| PanicNegativeWaitGroup   (** "sync: negative WaitGroup counter" *)
| PanicWaitGroupMisuse     (** "sync: WaitGroup misuse: Add called concurrently with Wait" *)
| PanicWaitGroupReused     (** "sync: WaitGroup is reused before previous Wait has returned" *)
| PanicCloseClosed.        (** "close of closed channel" *)

#[export] Instance go_panic_eq_dec : EqDecision go_panic.
Proof. solve_decision. Defined.

(** ** sync.WaitGroup *)

Module WaitGroup.

(** The state of a [sync.WaitGroup] (sync/waitgroup.go): one 64-bit
    atomic word with the counter in its high 32 bits, read back as an
    [int32], and the number of waiters in its low 32 bits; and the
    semaphore the waiters sleep on, as its count of tokens. *)
Record t := mk { counter : Z; waiters : nat; sema : nat }.

Definition zero : t := mk 0 0 0.

(** [wg.state.Load() == 0]. *)
Definition state_zero (wg : t) : bool := (counter wg =? 0)%Z && (waiters wg =? 0)%nat.

(** [wg.Add(delta)]: [state.Add(uint64(delta) << 32)] wraps the counter
    at 32 bits; a negative counter panics; an [Add] that raises the
    counter from zero while waiters are registered panics; the [Add]
    that brings the counter to zero with waiters registered resets the
    word to zero and releases one token per waiter. *)
Definition add (delta : Z) (wg : t) : go_panic + t :=
  let v := wrap32 (counter wg + delta) in
  let w := waiters wg in
  if (v <? 0)%Z then inl PanicNegativeWaitGroup
  else if negb (w =? 0)%nat && (0 <? delta)%Z && (v =? delta)%Z
  then inl PanicWaitGroupMisuse
  else if (0 <? v)%Z || (w =? 0)%nat then inr (mk v w (sema wg))
  else inr (mk 0 0 (sema wg + w)).

(** [wg.Done()] is [wg.Add(-1)]. *)
Definition done (wg : t) : go_panic + t := add (-1) wg.

(** The loop of [wg.Wait()]: with the counter at zero it returns at once
    ([None]); otherwise it registers as a waiter (the compare-and-swap
    of [state] to [state+1]) and goes to sleep on the semaphore. *)
Definition wait_register (wg : t) : option t :=
  if (counter wg =? 0)%Z then None
  else Some (mk (counter wg) (S (waiters wg)) (sema wg)).

(** A sleeping waiter: it blocks ([None]) until the semaphore has a
    token, takes it, and panics when the state word is not zero any more
    ("WaitGroup is reused before previous Wait has returned"). *)
Definition wait_wake (wg : t) : option (go_panic + t) :=
  match sema wg with
  | O => None
  | S n =>
      let wg' := mk (counter wg) (waiters wg) n in
      Some (if state_zero wg' then inr wg' else inl PanicWaitGroupReused)
  end.

Lemma add_ok (delta : Z) (wg : t) :
  (0 <= counter wg + delta < 2^31)%Z -> (delta <= 0)%Z \/ waiters wg = 0 \/ (0 < counter wg)%Z ->
  (0 < counter wg + delta)%Z \/ waiters wg = 0 ->
  add delta wg = inr (mk (counter wg + delta) (waiters wg) (sema wg)).
Proof.
  intros H Hm Hz. unfold add. rewrite wrap32_id by (unfold in_int32; lia).
  destruct (Z.ltb_spec (counter wg + delta) 0); [lia|].
  destruct (Nat.eqb_spec (waiters wg) 0) as [Hw|Hw]; simpl.
  - rewrite orb_true_r. done.
  - destruct (Z.ltb_spec 0 delta); destruct (Z.eqb_spec (counter wg + delta) delta); simpl;
      try lia; destruct (Z.ltb_spec 0 (counter wg + delta)); simpl; try done; lia.
Qed.

(** [Done] on a positive counter that does not release a waiter. *)
Lemma done_ok (wg : t) :
  (0 < counter wg < 2^31)%Z -> (1 < counter wg)%Z \/ waiters wg = 0 ->
  done wg = inr (mk (counter wg - 1) (waiters wg) (sema wg)).
Proof. intros H Hw. unfold done. rewrite add_ok by lia. by replace (counter wg + -1)%Z with (counter wg - 1)%Z by lia. Qed.

(** The [Done] that brings the counter to zero with waiters registered
    clears the word and gives each waiter a token. *)
Lemma done_release (wg : t) :
  counter wg = 1%Z -> waiters wg <> 0 ->
  done wg = inr (mk 0 0 (sema wg + waiters wg)).
Proof.
  intros Hc Hw. unfold done, add. rewrite Hc. simpl.
  destruct (Nat.eqb_spec (waiters wg) 0); [done | reflexivity].
Qed.

Lemma done_zero_panics : done zero = inl PanicNegativeWaitGroup.
Proof. reflexivity. Qed.

(** The 2^31-th outstanding [Add(1)] wraps the counter negative. *)
Lemma add_overflow_panics (wg : t) :
  counter wg = (2^31 - 1)%Z -> add 1 wg = inl PanicNegativeWaitGroup.
Proof. intros H. unfold add. rewrite H. reflexivity. Qed.

(** [Add] and [Done] raise only the WaitGroup's own panics. *)
Lemma add_panic (delta : Z) (wg : t) (p : go_panic) :
  add delta wg = inl p -> p = PanicNegativeWaitGroup \/ p = PanicWaitGroupMisuse.
Proof. unfold add. intros Hadd. repeat case_match; invc Hadd; auto. Qed.

(** [Add(1)] on a counter in range, with no waiter registered on a zero
    counter, either increments it or, at the int32 maximum, panics. *)
Lemma add_one_cases (wg : t) :
  (0 <= counter wg < 2^31)%Z -> waiters wg = 0 \/ (0 < counter wg)%Z ->
  (counter wg < 2^31 - 1)%Z /\ add 1 wg = inr (mk (counter wg + 1) (waiters wg) (sema wg)) \/
  counter wg = (2^31 - 1)%Z /\ add 1 wg = inl PanicNegativeWaitGroup.
Proof.
  intros H Hw. destruct (Z.eq_dec (counter wg) (2^31 - 1)) as [E|E].
  - right. split; [done|]. by apply add_overflow_panics.
  - left. split; [lia|]. apply add_ok; lia.
Qed.

End WaitGroup.

(** ** Channels *)

Module Chan.

(** [close(ch)]: the closed flag goes from false to true; closing a
    closed channel panics. *)
Definition close (closed : bool) : go_panic + bool :=
  if closed then inl PanicCloseClosed else inr true.

(** A buffered channel [make(chan A, cap)] that is never closed. *)
Record buffered (A : Type) := mkbuf { cap : nat; buf : list A }.
Arguments mkbuf {A} _ _.
Arguments cap {A} _.
Arguments buf {A} _.

Definition make {A} (capacity : nat) : buffered A := mkbuf capacity [].

(** [ch <- x]: enqueue when there is room; [None] means the sender
    blocks. *)
Definition send {A} (x : A) (ch : buffered A) : option (buffered A) :=
  if decide (length (buf ch) < cap ch)
  then Some (mkbuf (cap ch) (buf ch ++ [x])) else None.

(** [<-ch]: dequeue the oldest value; [None] means the receiver blocks. *)
Definition recv {A} (ch : buffered A) : option (A * buffered A) :=
  match buf ch with
  | [] => None
  | x :: rest => Some (x, mkbuf (cap ch) rest)
  end.

Lemma send_room {A} (x : A) (ch : buffered A) :
  length (buf ch) < cap ch -> send x ch = Some (mkbuf (cap ch) (buf ch ++ [x])).
Proof. intros H. unfold send. by rewrite decide_True. Qed.

Lemma send_full {A} (x : A) (ch : buffered A) :
  cap ch <= length (buf ch) -> send x ch = None.
Proof. intros H. unfold send. rewrite decide_False; [done | lia]. Qed.

End Chan.
