(* ===== verification/Strconv.v ===== *)
(** * strconv: [Atoi] and decimal formatting

    The program parses integers twice with [strconv.Atoi]: the port
    argument of [main] (src/main.go line 125) and the port of the
    listener's address in [Start] (line 57).  The decimal form of a port
    is produced by [strconv.Itoa] inside [net.TCPAddr.String].  These are
    Go library functions; they are modelled after their source in the Go
    standard library on 64-bit platforms: [Atoi]'s fast path for strings
    of 1 to 18 bytes, and [ParseInt]/[ParseUint] with their syntax and
    range errors and the clamped values returned on overflow. *)

From S2P Require Import Prelude.
From Stdlib Require Import String Ascii.

(** The [Err] field of a [*strconv.NumError]. *)
Inductive num_error := ErrSyntax | ErrRange.

#[export] Instance num_error_eq_dec : EqDecision num_error.
Proof. solve_decision. Defined.

Section Strconv.
Local Open Scope Z_scope.

(** [ch -= '0'; if ch > 9 { ... }]: a byte is a digit when it lies in
    ['0'..'9']. *)
Definition digit (c : ascii) : option Z :=
  let d := Z.of_nat (nat_of_ascii c) - 48 in
  if (0 <=? d) && (d <=? 9) then Some d else None.

(** [n = n*10 + int(ch)] over the remaining bytes, failing at the first
    byte that is not a digit. *)
Fixpoint digits_from (s : string) (n : Z) : option Z :=
  match s with
  | EmptyString => Some n
  | String c rest =>
      match digit c with
      | None => None
      | Some d => digits_from rest (n * 10 + d)
      end
  end.

Definition max_uint64 : Z := 2^64 - 1.

(** [cutoff = maxUint64/10 + 1] of [ParseUint] for base 10. *)
Definition uint64_cutoff : Z := max_uint64 / 10 + 1.

(** The loop of [ParseUint(s, 10, 64)]: a non-digit is a syntax error
    with value 0; an overflow of [n*10] or of [n+d] is a range error with
    value [maxUint64], reported as soon as it happens. *)
Fixpoint parse_uint_loop (s : string) (n : Z) : Z * option num_error :=
  match s with
  | EmptyString => (n, None)
  | String c rest =>
      match digit c with
      | None => (0, Some ErrSyntax)
      | Some d =>
          if uint64_cutoff <=? n then (max_uint64, Some ErrRange)
          else
            let n1 := n * 10 + d in
            if max_uint64 <? n1 then (max_uint64, Some ErrRange)
            else parse_uint_loop rest n1
      end
  end.

Definition ParseUint (s : string) : Z * option num_error :=
  match s with
  | EmptyString => (0, Some ErrSyntax)
  | _ => parse_uint_loop s 0
  end.

(** The optional sign of [ParseInt] and of [Atoi]'s fast path. *)
Definition split_sign (s : string) : bool * bool * string :=
  match s with
  | String c rest =>
      if Ascii.eqb c "+"%char then (false, true, rest)
      else if Ascii.eqb c "-"%char then (true, true, rest)
      else (false, false, s)
  | EmptyString => (false, false, s)
  end.

(** [ParseInt(s, 10, 64)]: the sign, then [ParseUint] of the rest; a
    magnitude beyond [int64] is clamped and reported as a range error. *)
Definition ParseInt (s : string) : Z * option num_error :=
  match s with
  | EmptyString => (0, Some ErrSyntax)
  | _ =>
      let '(neg, _, body) := split_sign s in
      match ParseUint body with
      | (_, Some ErrSyntax) => (0, Some ErrSyntax)
      | (un, _) =>
          if negb neg && (2^63 <=? un) then (2^63 - 1, Some ErrRange)
          else if neg && (2^63 <? un) then (- 2^63, Some ErrRange)
          else (if neg then - un else un, None)
      end
  end.

(** [Atoi]'s fast path for strings of 1 to 18 bytes, which cannot
    overflow: a sign must be followed by at least one byte, and every
    byte must be a digit. *)
Definition atoi_fast (s : string) : Z * option num_error :=
  let '(neg, signed, body) := split_sign s in
  if signed && (String.length body =? 0)%nat then (0, Some ErrSyntax)
  else
    match digits_from body 0 with
    | None => (0, Some ErrSyntax)
    | Some n => (if neg then - n else n, None)
    end.

(** [strconv.Atoi] on a 64-bit platform. *)
Definition Atoi (s : string) : Z * option num_error :=
  if (0 <? String.length s)%nat && (String.length s <? 19)%nat
  then atoi_fast s else ParseInt s.

(** The decimal digits of a natural number, least significant first;
    twenty are enough for every [uint64]. *)
Fixpoint le_digits (fuel : nat) (n : Z) : list Z :=
  match fuel with
  | O => []
  | S f => if n <? 10 then [n] else n mod 10 :: le_digits f (n / 10)
  end.

Definition digit_char (d : Z) : ascii := ascii_of_nat (Z.to_nat (48 + d)).

Definition utoa (n : Z) : string :=
  string_of_list_ascii (map digit_char (rev (le_digits 20 n))).

(** [strconv.Itoa]: the digits of the magnitude, after a minus sign for
    a negative number. *)
Definition Itoa (n : Z) : string :=
  if n <? 0 then String "-" (utoa (- n)) else utoa n.

End Strconv.

Definition in_int64 (z : Z) : Prop := (- 2^63 <= z < 2^63)%Z.

(** ** Lemmas on digits *)

Section DigitLemmas.
Local Open Scope Z_scope.

Lemma digit_range (c : ascii) (d : Z) : digit c = Some d -> 0 <= d <= 9.
Proof.
  unfold digit. destruct (0 <=? _) eqn:E1, (_ <=? 9) eqn:E2; simpl; intros H; invc H.
  apply Z.leb_le in E1, E2. lia.
Qed.

Lemma digit_char_digit (d : Z) : 0 <= d <= 9 -> digit (digit_char d) = Some d.
Proof.
  intros Hd. unfold digit, digit_char.
  rewrite nat_ascii_embedding by lia. rewrite Z2Nat.id by lia.
  replace (48 + d - 48) with d by lia.
  destruct (Z.leb_spec 0 d), (Z.leb_spec d 9); simpl; try lia; done.
Qed.

Lemma pow10_succ (n : nat) : 10 ^ Z.of_nat (S n) = 10 * 10 ^ Z.of_nat n.
Proof. rewrite Nat2Z.inj_succ, Z.pow_succ_r by lia. lia. Qed.

Lemma pow10_pos (n : nat) : 1 <= 10 ^ Z.of_nat n.
Proof.
  induction n as [|n IH]; [simpl; lia|]. rewrite pow10_succ. lia.
Qed.

(** The value read from [s] after [n] lies in [n*10^|s|, (n+1)*10^|s|). *)
Lemma digits_from_bound (s : string) (n v : Z) :
  0 <= n -> digits_from s n = Some v ->
  n * 10 ^ Z.of_nat (String.length s) <= v < (n + 1) * 10 ^ Z.of_nat (String.length s).
Proof.
  revert n. induction s as [|c s IH]; intros n Hn H; simpl in H.
  - invc H. simpl. lia.
  - destruct (digit c) as [d|] eqn:Hc; [|done].
    pose proof (digit_range _ _ Hc). pose proof (pow10_pos (String.length s)).
    assert (Hn' : 0 <= n * 10 + d) by lia. specialize (IH _ Hn' H).
    cbn [String.length]. rewrite pow10_succ.
    set (P := 10 ^ Z.of_nat (String.length s)) in *.
    assert (0 <= d * P /\ 0 <= (9 - d) * P) by (split; apply Z.mul_nonneg_nonneg; lia).
    nia.
Qed.

(** While the magnitude cannot reach [2^64], [ParseUint]'s loop never
    reports a range error and reads the digits as [digits_from] does. *)
Lemma parse_uint_loop_small (s : string) (n : Z) :
  0 <= n -> (n + 1) * 10 ^ Z.of_nat (String.length s) <= 2^64 ->
  parse_uint_loop s n =
  match digits_from s n with Some v => (v, None) | None => (0, Some ErrSyntax) end.
Proof.
  revert n. induction s as [|c s IH]; intros n Hn Hb; simpl; [done|].
  destruct (digit c) as [d|] eqn:Hc; [|done].
  pose proof (digit_range _ _ Hc). pose proof (pow10_pos (String.length s)).
  cbn [String.length] in Hb. rewrite pow10_succ in Hb.
  set (P := 10 ^ Z.of_nat (String.length s)) in *.
  unfold uint64_cutoff, max_uint64.
  destruct (Z.leb_spec ((2^64 - 1) / 10 + 1) n) as [Hc1|Hc1].
  { exfalso. assert (10 * (n + 1) <= 2^64) by nia.
    assert ((2^64 - 1) / 10 = 1844674407370955161) by reflexivity. lia. }
  destruct (Z.ltb_spec (2^64 - 1) (n * 10 + d)); [nia|].
  apply IH; nia.
Qed.

End DigitLemmas.

Lemma split_sign_cases (s body : string) (neg signed : bool) :
  split_sign s = (neg, signed, body) ->
  (signed = false /\ neg = false /\ body = s) \/
  (signed = true /\ exists c, s = String c body).
Proof.
  destruct s as [|c r]; simpl; intros H; [invc H; by left|].
  destruct (Ascii.eqb c "+"%char), (Ascii.eqb c "-"%char); invc H;
    first [by left | right; split; [done | by eexists]].
Qed.

Lemma pow10_le (m n : nat) : (m <= n)%nat -> (10 ^ Z.of_nat m <= 10 ^ Z.of_nat n)%Z.
Proof. intros H. apply Z.pow_le_mono_r; lia. Qed.

(** Reading a short digit string with [ParseUint] never overflows. *)
Lemma ParseUint_short (body : string) :
  (String.length body <= 19)%nat -> body <> EmptyString ->
  ParseUint body =
  match digits_from body 0 with Some v => (v, None) | None => (0%Z, Some ErrSyntax) end.
Proof.
  intros Hl Hne. unfold ParseUint. destruct body as [|c r]; [done|].
  apply parse_uint_loop_small; [lia|].
  pose proof (pow10_le _ _ Hl). simpl in *. lia.
Qed.

(** [Atoi] and [ParseInt] agree. *)
Lemma Atoi_ParseInt (s : string) : Atoi s = ParseInt s.
Proof.
  unfold Atoi.
  destruct (Nat.ltb_spec 0 (String.length s)), (Nat.ltb_spec (String.length s) 19);
    simpl; try done.
  unfold atoi_fast, ParseInt.
  destruct s as [|c r]; [simpl in *; lia|].
  destruct (split_sign (String c r)) as [[neg signed] body] eqn:Hs.
  pose proof (split_sign_cases _ _ _ _ Hs) as Hcase.
  assert (Hlen : (String.length body <= 18)%nat).
  { destruct Hcase as [[_ [_ ->]]|[_ [c' Heq]]]; [lia|]. rewrite Heq in *. simpl in *. lia. }
  destruct body as [|c' r'].
  - destruct Hcase as [[_ [_ Habs]]|[-> _]]; [done|]. done.
  - rewrite ParseUint_short by (simpl in *; lia || done).
    replace (signed && (String.length (String c' r') =? 0)%nat) with false
      by (destruct signed; done).
    destruct (digits_from (String c' r') 0) as [v|] eqn:Hv; [|done].
    pose proof (digits_from_bound _ 0 v ltac:(lia) Hv) as Hb.
    pose proof (pow10_le _ _ Hlen) as Hp. change (10 ^ Z.of_nat 18)%Z with (10 ^ 18)%Z in Hp.
    destruct neg; simpl.
    + destruct (Z.ltb_spec (2^63) v); [lia | done].
    + destruct (Z.leb_spec (2^63) v); [lia | done].
Qed.

(** ** Decimal formatting *)

Section Formatting.
Local Open Scope Z_scope.

(** The value of a little-endian digit list. *)
Definition le_value (l : list Z) : Z := foldr (fun d acc => acc * 10 + d) 0 l.

Lemma le_digits_range (f : nat) (m : Z) :
  0 <= m -> Forall (fun d => 0 <= d <= 9) (le_digits f m).
Proof.
  revert m. induction f as [|f IH]; intros m Hm; simpl; [constructor|].
  destruct (Z.ltb_spec m 10); constructor; try lia.
  - constructor.
  - pose proof (Z.mod_pos_bound m 10). lia.
  - apply IH. apply Z.div_pos; lia.
Qed.

Lemma le_digits_value (f : nat) (m : Z) :
  (1 <= f)%nat -> 0 <= m < 10 ^ Z.of_nat f -> le_value (le_digits f m) = m.
Proof.
  revert m. induction f as [|f IH]; intros m Hf Hm; [lia|]. cbn [le_digits].
  destruct (Z.ltb_spec m 10); [cbn; lia|].
  rewrite pow10_succ in Hm.
  destruct f as [|f']; [simpl in Hm; lia|].
  change (le_value (m mod 10 :: le_digits (S f') (m / 10)))
    with (le_value (le_digits (S f') (m / 10)) * 10 + m mod 10).
  rewrite IH; [| lia | split; [apply Z.div_pos; lia | apply Z.div_lt_upper_bound; lia]].
  pose proof (Z.div_mod m 10). lia.
Qed.

Lemma le_digits_length (f k : nat) (m : Z) :
  (1 <= k)%nat -> 0 <= m < 10 ^ Z.of_nat k -> (List.length (le_digits f m) <= k)%nat.
Proof.
  revert m k. induction f as [|f IH]; intros m k Hk Hm; simpl; [lia|].
  destruct (Z.ltb_spec m 10); simpl; [lia|].
  destruct k as [|k]; [lia|]. rewrite pow10_succ in Hm.
  destruct k as [|k']; [simpl in Hm; lia|].
  assert (List.length (le_digits f (m / 10)) <= S k')%nat; [|lia].
  apply IH; [lia|]. split; [apply Z.div_pos; lia | apply Z.div_lt_upper_bound; lia].
Qed.

Lemma digits_from_chars (l : list Z) (n : Z) :
  Forall (fun d => 0 <= d <= 9) l ->
  digits_from (string_of_list_ascii (map digit_char l)) n =
  Some (fold_left (fun acc d => acc * 10 + d) l n).
Proof.
  revert n. induction l as [|d l IH]; intros n Hl; [done|].
  invc Hl. simpl. rewrite digit_char_digit by done. by apply IH.
Qed.

Lemma length_string_of_list_ascii (l : list ascii) :
  String.length (string_of_list_ascii l) = List.length l.
Proof. induction l; simpl; congruence. Qed.

Lemma utoa_digits (m : Z) :
  0 <= m < 10 ^ 20 -> digits_from (utoa m) 0 = Some m.
Proof.
  intros Hm. unfold utoa. rewrite digits_from_chars.
  - f_equal.
    transitivity (foldr (fun d acc => acc * 10 + d) 0 (rev (rev (le_digits 20 m)))).
    + by rewrite fold_left_rev_right.
    + rewrite rev_involutive. apply le_digits_value; [lia | exact Hm].
  - apply Forall_rev, le_digits_range. lia.
Qed.

Lemma utoa_length (m : Z) :
  0 <= m < 10 ^ 19 -> (String.length (utoa m) <= 19)%nat.
Proof.
  intros Hm. unfold utoa. rewrite length_string_of_list_ascii, length_map, length_rev.
  apply le_digits_length; [lia | exact Hm].
Qed.

(** A digit string read by [ParseUint] gives back its value. *)
Lemma ParseUint_utoa (m : Z) : 0 <= m < 10 ^ 19 -> ParseUint (utoa m) = (m, None).
Proof.
  intros Hm. pose proof (utoa_digits m ltac:(lia)) as Hd.
  rewrite ParseUint_short; [by rewrite Hd | by apply utoa_length |].
  intros He. rewrite He in Hd. simpl in Hd. invc Hd.
  (* utoa 0 is "0" *)
  by vm_compute in He.
Qed.

Lemma split_sign_utoa (m : Z) :
  0 <= m < 10 ^ 20 -> split_sign (utoa m) = (false, false, utoa m).
Proof.
  intros Hm. pose proof (utoa_digits m Hm) as Hd.
  destruct (utoa m) as [|c r] eqn:Hu; [done|]. simpl in Hd |- *.
  destruct (digit c) as [d|] eqn:Hc; [|done].
  destruct (Ascii.eqb_spec c "+"%char) as [->|]; [done|].
  destruct (Ascii.eqb_spec c "-"%char) as [->|]; done.
Qed.

End Formatting.

(** [Atoi] inverts [Itoa] on [int]. *)
Lemma Atoi_Itoa_int (n : Z) : in_int64 n -> Atoi (Itoa n) = (n, None).
Proof.
  intros Hn. unfold in_int64 in Hn. rewrite Atoi_ParseInt. unfold Itoa.
  destruct (Z.ltb_spec n 0).
  - unfold ParseInt. simpl.
    rewrite ParseUint_utoa by lia. simpl.
    destruct (Z.ltb_spec (2^63) (- n)); [lia|]. f_equal. lia.
  - unfold ParseInt. rewrite split_sign_utoa by lia.
    destruct (utoa n) eqn:Hu.
    + pose proof (utoa_digits n ltac:(lia)) as Hd. rewrite Hu in Hd. simpl in Hd.
      invc Hd. by vm_compute in Hu.
    + rewrite <- Hu, ParseUint_utoa by lia. simpl.
      destruct (Z.leb_spec (2^63) n); [lia | done].
Qed.

(** ** Properties of strconv *)

(** C28: [Atoi]'s fast path (1 to 18 bytes, decimal digits after an
    optional sign) is an optimisation of [ParseInt]: on every input,
    [Atoi] returns what [ParseInt(s, 10, 0)] returns, errors and the
    clamped value on overflow included. *)
Theorem Atoi_eq_ParseInt (s : string) : Atoi s = ParseInt s.
Proof. exact (Atoi_ParseInt s). Qed.

(** C29: [Atoi] reads back what [Itoa] prints, for every [int], the
    extremes [-2^63] and [2^63-1] included. *)
Theorem Atoi_Itoa (n : Z) : in_int64 n -> Atoi (Itoa n) = (n, None).
Proof. exact (Atoi_Itoa_int n). Qed.

Lemma Atoi_Itoa_witness :
  in_int64 (-(2^63))%Z /\ Atoi (Itoa (-(2^63))%Z) = ((-(2^63))%Z, None).
Proof.
  assert (H : in_int64 (-(2^63))%Z) by (unfold in_int64; lia).
  split; [exact H | exact (Atoi_Itoa _ H)].
Defined.

(** ** Overflow *)

(** The result [ParseInt(s, 10, 64)] promises for an exact value [z]:
    [z] itself when it is an [int64], otherwise [math.MaxInt64] or
    [math.MinInt64] with a range error. *)
Definition clamp_int64 (z : Z) : Z * option num_error :=
  if (2^63 - 1 <? z)%Z then (2^63 - 1, Some ErrRange)%Z
  else if (z <? - 2^63)%Z then (- 2^63, Some ErrRange)%Z
  else (z, None).

Lemma digits_from_lower (s : string) (n v : Z) :
  (0 <= n)%Z -> digits_from s n = Some v -> (n <= v)%Z.
Proof.
  intros Hn Hv. pose proof (digits_from_bound _ _ _ Hn Hv).
  pose proof (pow10_pos (String.length s)). nia.
Qed.

(** On a string of digits, [ParseUint]'s loop returns the exact value
    when it fits in a [uint64] and saturates with a range error
    otherwise, at whichever digit the overflow shows. *)
Lemma parse_uint_loop_digits (s : string) (n v : Z) :
  (0 <= n <= max_uint64)%Z -> digits_from s n = Some v ->
  parse_uint_loop s n =
  if (v <=? max_uint64)%Z then (v, None) else (max_uint64, Some ErrRange).
Proof.
  revert n. induction s as [|c s IH]; intros n Hn Hv; simpl in Hv |- *.
  { invc Hv. destruct (Z.leb_spec v max_uint64); [done | lia]. }
  destruct (digit c) as [d|] eqn:Hc; [|done].
  pose proof (digit_range _ _ Hc).
  pose proof (digits_from_lower s (n * 10 + d) v ltac:(lia) Hv).
  assert (uint64_cutoff * 10 > max_uint64)%Z by reflexivity.
  destruct (Z.leb_spec uint64_cutoff n).
  { destruct (Z.leb_spec v max_uint64); [lia | done]. }
  destruct (Z.ltb_spec max_uint64 (n * 10 + d)).
  { destruct (Z.leb_spec v max_uint64); [lia | done]. }
  apply IH; [lia | done].
Qed.

(** C30: on a decimal numeral, with or without a minus sign, [Atoi]
    returns the numeral's exact value when it is an [int64]; beyond,
    it returns [math.MaxInt64] or [math.MinInt64] with a range error
    (past [2^64] as well, where [ParseUint] has already saturated). *)
Theorem Atoi_clamps (neg : bool) (body : string) (v : Z) :
  body <> EmptyString -> digits_from body 0 = Some v ->
  Atoi ((if neg then "-" else "") ++ body) = clamp_int64 (if neg then - v else v)%Z.
Proof.
  intros Hne Hv. rewrite Atoi_ParseInt.
  destruct body as [|c r]; [done|].
  pose proof (digits_from_lower _ 0 v ltac:(lia) Hv).
  assert (Hsplit : split_sign ((if neg then "-" else "") ++ String c r)
                   = (neg, neg, String c r)).
  { destruct neg; [done|]. simpl in Hv |- *.
    destruct (digit c) eqn:Hd; [|done].
    destruct (Ascii.eqb c "+"%char) eqn:Ep;
      [apply Ascii.eqb_eq in Ep; subst; vm_compute in Hd; discriminate|].
    destruct (Ascii.eqb c "-"%char) eqn:Em;
      [apply Ascii.eqb_eq in Em; subst; vm_compute in Hd; discriminate|].
    done. }
  assert (Hu : ParseUint (String c r) =
          if (v <=? max_uint64)%Z then (v, None) else (max_uint64, Some ErrRange)).
  { apply parse_uint_loop_digits; [unfold max_uint64; lia | done]. }
  unfold ParseInt, clamp_int64.
  destruct ((if neg then "-" else "") ++ String c r)%string as [|c0 r0] eqn:Es;
    [destruct neg; discriminate|].
  rewrite Hsplit, Hu.
  destruct (Z.leb_spec v max_uint64); unfold max_uint64 in *; destruct neg; simpl;
    repeat match goal with |- context [(?a <=? ?b)%Z] => destruct (Z.leb_spec a b) end;
    repeat match goal with |- context [(?a <? ?b)%Z] => destruct (Z.ltb_spec a b) end;
    simpl; try lia; done.
Qed.

Lemma Atoi_clamps_witness :
  digits_from "99999999999999999999" 0 = Some 99999999999999999999%Z /\
  Atoi ("-" ++ "99999999999999999999") = clamp_int64 (Z.opp 99999999999999999999).
Proof.
  split; [vm_compute; reflexivity|].
  apply (Atoi_clamps true); [discriminate | vm_compute; reflexivity].
Defined.
