(* ===== verification/NetAddr.v ===== *)
(** * net: host/port strings

    [Start] recovers the OS-assigned port from the listener's address
    string (src/main.go lines 52-57): [publicListener.Addr().String()]
    is [net.JoinHostPort(ip, strconv.Itoa(port))] (the [String] method of
    [*net.TCPAddr]), and [net.SplitHostPort] takes it apart again.  Both
    are Go library functions, modelled after their source: the last
    colon separates the port, a leading ['['] requires the matching
    [']'] right before that colon, and stray brackets are errors. *)

From S2P Require Import Prelude Strconv.
From Stdlib Require Import String Ascii.

(** The [*net.AddrError] messages [SplitHostPort] can return. *)
Inductive addr_error :=
| MissingPort            (** "missing port in address" *)
| TooManyColons          (** "too many colons in address" *)
| MissingRBracket        (** "missing ']' in address" *)
| UnexpectedLBracket     (** "unexpected '[' in address" *)
| UnexpectedRBracket.    (** "unexpected ']' in address" *)

(** [bytealg.IndexByteString]: the first position of a byte. *)
Fixpoint index_byte (c : ascii) (s : string) : option nat :=
  match s with
  | EmptyString => None
  | String x r => if Ascii.eqb x c then Some 0 else option_map S (index_byte c r)
  end.

(** [bytealg.LastIndexByteString]: the last position of a byte. *)
Fixpoint last_index_byte (c : ascii) (s : string) : option nat :=
  match s with
  | EmptyString => None
  | String x r =>
      match last_index_byte c r with
      | Some i => Some (S i)
      | None => if Ascii.eqb x c then Some 0 else None
      end
  end.

Definition has_byte (c : ascii) (s : string) : bool :=
  if index_byte c s is Some _ then true else false.

(** [s[from:]]. *)
Definition suffix_from (from : nat) (s : string) : string :=
  substring from (String.length s - from) s.

(** [net.SplitHostPort]. *)
Definition SplitHostPort (hp : string) : addr_error + (string * string) :=
  match last_index_byte ":" hp with
  | None => inl MissingPort
  | Some i =>
      let bracket := match hp with String c _ => Ascii.eqb c "[" | _ => false end in
      let head :=
        if bracket then
            match index_byte "]" hp with
            | None => inl MissingRBracket
            | Some e =>
                if (e + 1 =? String.length hp)%nat then inl MissingPort
                else if (e + 1 =? i)%nat then inr (substring 1 (e - 1) hp, 1, e + 1)
                else if String.get (e + 1) hp is Some ":"%char then inl TooManyColons
                else inl MissingPort
            end
        else
            let host := substring 0 i hp in
            if has_byte ":" host then inl TooManyColons else inr (host, 0, 0)
        in
      match head with
      | inl err => inl err
      | inr (host, j, k) =>
          if has_byte "[" (suffix_from j hp) then inl UnexpectedLBracket
          else if has_byte "]" (suffix_from k hp) then inl UnexpectedRBracket
          else inr (host, suffix_from (i + 1) hp)
      end
  end.

(** [net.JoinHostPort]: a host with a colon is taken for an IPv6
    literal and bracketed. *)
Definition JoinHostPort (host port : string) : string :=
  if has_byte ":" host
  then String "[" (host ++ String "]" (String ":" port))
  else host ++ String ":" port.

(** The [String] method of [*net.TCPAddr], for an address without a zone. *)
Definition TCPAddr_String (ip : string) (port : Z) : string :=
  JoinHostPort ip (Itoa port).

(** ** Lemmas on byte search and substrings *)

Lemma index_byte_app (c : ascii) (a b : string) :
  index_byte c (a ++ b) =
  match index_byte c a with
  | Some i => Some i
  | None => option_map (Nat.add (String.length a)) (index_byte c b)
  end.
Proof.
  induction a as [|x a IH]; simpl.
  - by destruct (index_byte c b).
  - destruct (Ascii.eqb x c); [done|]. rewrite IH.
    destruct (index_byte c a), (index_byte c b); done.
Qed.

Lemma has_byte_app (c : ascii) (a b : string) :
  has_byte c (a ++ b) = has_byte c a || has_byte c b.
Proof.
  unfold has_byte. rewrite index_byte_app.
  destruct (index_byte c a), (index_byte c b); done.
Qed.

Lemma has_byte_cons (c x : ascii) (s : string) :
  has_byte c (String x s) = Ascii.eqb x c || has_byte c s.
Proof. unfold has_byte. simpl. destruct (Ascii.eqb x c), (index_byte c s); done. Qed.

Lemma last_index_byte_none (c : ascii) (s : string) :
  has_byte c s = false -> last_index_byte c s = None.
Proof.
  induction s as [|x s IH]; [done|]. rewrite has_byte_cons.
  intros H. apply orb_false_iff in H as [H1 H2]. simpl. by rewrite IH, H1.
Qed.

Lemma index_byte_none (c : ascii) (s : string) :
  has_byte c s = false -> index_byte c s = None.
Proof. unfold has_byte. by destruct (index_byte c s). Qed.

Lemma last_index_byte_app (c : ascii) (a b : string) :
  last_index_byte c (a ++ b) =
  match last_index_byte c b with
  | Some i => Some (String.length a + i)%nat
  | None => last_index_byte c a
  end.
Proof.
  induction a as [|x a IH]; simpl.
  - by destruct (last_index_byte c b).
  - rewrite IH. destruct (last_index_byte c b); done.
Qed.

Lemma substring_prefix (a b : string) : substring 0 (String.length a) (a ++ b) = a.
Proof. induction a as [|x a IH]; simpl; [by destruct b | by rewrite IH]. Qed.

Lemma suffix_from_cons (n : nat) (x : ascii) (s : string) :
  suffix_from (S n) (String x s) = suffix_from n s.
Proof. done. Qed.

Lemma suffix_from_zero (s : string) : suffix_from 0 s = s.
Proof.
  unfold suffix_from. rewrite Nat.sub_0_r.
  induction s as [|x s IH]; simpl; [done | by rewrite IH].
Qed.

Lemma suffix_from_app (a b : string) : suffix_from (String.length a) (a ++ b) = b.
Proof.
  induction a as [|x a IH]; [apply suffix_from_zero|]. simpl.
  by rewrite suffix_from_cons.
Qed.

Lemma string_app_assoc (a b c : string) : ((a ++ b) ++ c = a ++ (b ++ c))%string.
Proof. induction a as [|x a IH]; simpl; [done | by rewrite IH]. Qed.

Lemma string_length_app (a b : string) :
  String.length (a ++ b) = (String.length a + String.length b)%nat.
Proof. induction a as [|x a IH]; simpl; [done | by rewrite IH]. Qed.

(** A string of digits holds no other byte. *)
Lemma digits_from_no_byte (c : ascii) (s : string) (n v : Z) :
  digit c = None -> digits_from s n = Some v -> has_byte c s = false.
Proof.
  revert n. induction s as [|x s IH]; intros n Hc H; [done|].
  simpl in H. rewrite has_byte_cons.
  destruct (digit x) as [d|] eqn:Hx; [|done].
  destruct (Ascii.eqb_spec x c) as [->|]; [congruence|]. simpl. eauto.
Qed.

(** [Itoa] prints digits and at most a leading minus sign. *)
Lemma Itoa_no_byte (c : ascii) (n : Z) :
  in_int64 n -> digit c = None -> c <> "-"%char -> has_byte c (Itoa n) = false.
Proof.
  intros Hn Hc Hm. unfold in_int64 in Hn. unfold Itoa.
  destruct (Z.ltb_spec n 0).
  - rewrite has_byte_cons. destruct (Ascii.eqb_spec "-"%char c); [congruence|].
    simpl. eapply digits_from_no_byte; [exact Hc | apply utoa_digits; lia].
  - eapply digits_from_no_byte; [exact Hc | apply utoa_digits; lia].
Qed.

Lemma get_app_length (a : string) (x : ascii) (b : string) :
  String.get (String.length a) (a ++ String x b) = Some x.
Proof. induction a as [|y a IH]; simpl; done. Qed.


Lemma suffix_from_app_add (a b : string) (n : nat) :
  suffix_from (String.length a + n) (a ++ b) = suffix_from n b.
Proof. induction a as [|x a IH]; simpl; [done | by rewrite suffix_from_cons]. Qed.
(** [SplitHostPort] undoes [JoinHostPort]. *)
Lemma split_join_host_port (host port : string) :
  has_byte "[" host = false -> has_byte "]" host = false ->
  has_byte ":" port = false -> has_byte "[" port = false -> has_byte "]" port = false ->
  SplitHostPort (JoinHostPort host port) = inr (host, port).
Proof.
  intros Hl Hr Pc Pl Pr. unfold JoinHostPort, SplitHostPort.
  destruct (has_byte ":" host) eqn:Hc.
  - (* bracketed IPv6 literal *)
    cbn [last_index_byte]. rewrite last_index_byte_app. simpl.
    rewrite (last_index_byte_none _ _ Pc). simpl.
    rewrite index_byte_app, (index_byte_none _ _ Hr). simpl.
    rewrite string_length_app. simpl. rewrite ?Nat.add_0_r, ?Nat.sub_0_r.
    repeat match goal with |- context [(?a =? ?b)%nat] =>
      destruct (Nat.eqb_spec a b); [try lia | try lia] end.
    rewrite substring_prefix.
    rewrite suffix_from_cons, suffix_from_zero, has_byte_app, Hl. simpl.
    rewrite !has_byte_cons, Pl. simpl.
    rewrite !suffix_from_cons, !suffix_from_app_add. simpl.
    rewrite suffix_from_cons, suffix_from_zero, has_byte_cons, Pr. simpl.
    rewrite <- Nat.add_assoc, suffix_from_app_add. change (1 + 1)%nat with 2%nat.
    by rewrite !suffix_from_cons, suffix_from_zero.
  - (* host without a colon *)
    rewrite last_index_byte_app. simpl. rewrite (last_index_byte_none _ _ Pc). simpl.
    rewrite Nat.add_0_r.
    assert (Hb : match (host ++ String ":" port)%string with
                 | String c _ => Ascii.eqb c "[" | EmptyString => false end = false).
    { destruct host as [|x h]; [done|]. simpl. rewrite has_byte_cons in Hl.
      by apply orb_false_iff in Hl as [Hl _]. }
    rewrite Hb, substring_prefix, Hc, suffix_from_zero, !has_byte_app, Hl, Hr.
    rewrite !has_byte_cons, Pl, Pr. simpl.
    by rewrite suffix_from_app_add, suffix_from_cons, suffix_from_zero.
Qed.

(** The address string of a TCP listener splits back into its host and
    the decimal form of its port. *)
Lemma SplitHostPort_TCPAddr_String (ip : string) (port : Z) :
  has_byte "[" ip = false -> has_byte "]" ip = false -> in_int64 port ->
  SplitHostPort (TCPAddr_String ip port) = inr (ip, Itoa port).
Proof.
  intros Hl Hr Hp. unfold TCPAddr_String.
  apply split_join_host_port; try done; apply Itoa_no_byte; done.
Qed.

(** ** Properties of the address strings *)

(** C31: [SplitHostPort] undoes [JoinHostPort] when the host holds no
    bracket and the port holds no colon or bracket, on both branches of
    [JoinHostPort]: a host with a colon (an IPv6 literal, bracketed) and
    one without. *)
Theorem SplitHostPort_JoinHostPort (host port : string) :
  has_byte "[" host = false -> has_byte "]" host = false ->
  has_byte ":" port = false -> has_byte "[" port = false -> has_byte "]" port = false ->
  SplitHostPort (JoinHostPort host port) = inr (host, port).
Proof. exact (split_join_host_port host port). Qed.

Lemma SplitHostPort_JoinHostPort_witness :
  (has_byte "[" "::" = false /\ has_byte "]" "::" = false /\ has_byte ":" "40000" = false /\
   has_byte "[" "40000" = false /\ has_byte "]" "40000" = false) /\
  SplitHostPort (JoinHostPort "::" "40000") = inr ("::"%string, "40000"%string).
Proof.
  split; [split_and!; reflexivity |].
  exact (SplitHostPort_JoinHostPort "::" "40000" eq_refl eq_refl eq_refl eq_refl eq_refl).
Defined.
