(* ===== verification/HostIP.v ===== *)
(** * The banner address: the interface loop of [Start]

    [Start] (src/main.go lines 36-44) walks the addresses returned by
    [net.InterfaceAddrs] and keeps the first [*net.IPNet] whose IP is not
    a loopback address and has an IPv4 form, printed in dotted decimal;
    the result stays empty when there is none.  [net.IP]'s [To4],
    [IsLoopback], [Equal] and [String] are modelled after the Go library,
    an IP being its list of bytes (4 or 16 of them).  The printed
    address contains no ':' (nor any character other than digits, '.'
    and the '-' of a negative byte), which is what lets [Main] split the
    banner's endpoint back at its last colon. *)

From S2P Require Import Prelude Strconv NetAddr.
From Stdlib Require Import String Ascii.

(** The [net.Addr] values [InterfaceAddrs] returns: a [*net.IPNet]
    (the type assertion of line 38 succeeds) or any other address type. *)
Inductive Addr :=
| IPNet (ip mask : list Z)
| OtherAddr (network : string).

(** [v4InV6Prefix]: the first 12 bytes of an IPv4-mapped IPv6 address. *)
Definition v4InV6Prefix : list Z := [0; 0; 0; 0; 0; 0; 0; 0; 0; 0; 255; 255]%Z.

(** [net.IPv6loopback], [::1]. *)
Definition IPv6loopback : list Z := [0; 0; 0; 0; 0; 0; 0; 0; 0; 0; 0; 0; 0; 0; 0; 1]%Z.

Definition bytes_eqb (a b : list Z) : bool := bool_decide (a = b).

(** [ip.To4()]: a 4-byte IP, or the last 4 bytes of an IPv4-mapped
    16-byte IP; [None] for [nil]. *)
Definition To4 (ip : list Z) : option (list Z) :=
  if (List.length ip =? 4)%nat then Some ip
  else if (List.length ip =? 16)%nat && bytes_eqb (take 12 ip) v4InV6Prefix
  then Some (drop 12 ip) else None.

(** [ip.Equal(x)]. *)
Definition IP_Equal (ip x : list Z) : bool :=
  if (List.length ip =? List.length x)%nat then bytes_eqb ip x
  else if (List.length ip =? 4)%nat && (List.length x =? 16)%nat
  then bytes_eqb (take 12 x) v4InV6Prefix && bytes_eqb ip (drop 12 x)
  else if (List.length ip =? 16)%nat && (List.length x =? 4)%nat
  then bytes_eqb (take 12 ip) v4InV6Prefix && bytes_eqb (drop 12 ip) x
  else false.

(** [ip.IsLoopback()]: [127.0.0.0/8] for IPv4 forms, [::1] otherwise. *)
Definition IsLoopback (ip : list Z) : bool :=
  match To4 ip with
  | Some ip4 => match ip4 with b :: _ => (b =? 127)%Z | [] => false end
  | None => IP_Equal ip IPv6loopback
  end.

(** The dotted-decimal form [ip.String()] gives an IP with an IPv4 form,
    the only case the program prints. *)
Fixpoint dotted (bytes : list Z) : string :=
  match bytes with
  | [] => EmptyString
  | [b] => Itoa b
  | b :: rest => (Itoa b ++ String "."%char (dotted rest))%string
  end.

(** The test of lines 38-39. *)
Definition eligible (a : Addr) : bool :=
  match a with
  | IPNet ip _ => negb (IsLoopback ip) && bool_decide (is_Some (To4 ip))
  | OtherAddr _ => false
  end.

(** The loop of lines 36-44: [hostIP] is set by the first eligible
    address, and the loop breaks. *)
Fixpoint host_ip (addrs : list Addr) : string :=
  match addrs with
  | [] => EmptyString
  | IPNet ip _ :: rest =>
      if negb (IsLoopback ip) then
        match To4 ip with
        | Some ip4 => dotted ip4
        | None => host_ip rest
        end
      else host_ip rest
  | OtherAddr _ :: rest => host_ip rest
  end.

(** The loop's contract: the dotted IPv4 form of the first eligible
    address, or the empty string. *)
Definition host_ip_spec (addrs : list Addr) : string :=
  match List.find eligible addrs with
  | Some (IPNet ip _) => default EmptyString (dotted <$> To4 ip)
  | _ => EmptyString
  end.

(** Addresses whose IPs are lists of bytes, as [net.IP] is a [[]byte]. *)
Definition ip_bytes_ok (addrs : list Addr) : Prop :=
  Forall (fun a => match a with
                   | IPNet ip _ => Forall (fun b => (0 <= b < 256)%Z) ip
                   | OtherAddr _ => True
                   end) addrs.

(** C32: the loop of lines 36-44, with its type assertion, its two
    tests and its [break], implements [host_ip_spec]: the dotted form of
    the first eligible address, or the empty string. *)
Theorem host_ip_refines_spec (addrs : list Addr) : host_ip addrs = host_ip_spec addrs.
Proof.
  unfold host_ip_spec. induction addrs as [|a addrs IH]; [done|].
  destruct a as [ip mask|net]; simpl; [|done].
  destruct (IsLoopback ip); simpl; [done|].
  destruct (To4 ip) as [ip4|] eqn:H4; simpl.
  - by rewrite H4.
  - exact IH.
Qed.

(** C33: the banner never shows a loopback address: a non-empty result
    is the IPv4 form of a listed [*net.IPNet] that is not a loopback
    address. *)
Theorem host_ip_not_loopback (addrs : list Addr) :
  host_ip addrs <> EmptyString ->
  exists ip mask ip4, In (IPNet ip mask) addrs /\ IsLoopback ip = false /\
    To4 ip = Some ip4 /\ host_ip addrs = dotted ip4.
Proof.
  induction addrs as [|a addrs IH]; simpl; [done|].
  destruct a as [ip mask|net].
  - destruct (IsLoopback ip) eqn:Hl; simpl.
    + intros H. destruct (IH H) as (ip' & m' & ip4 & Hin & ?). exists ip', m', ip4. split; [by right | done].
    + destruct (To4 ip) as [ip4|] eqn:H4.
      * intros _. exists ip, mask, ip4. split; [by left | done].
      * intros H. destruct (IH H) as (ip' & m' & ip4' & Hin & ?). exists ip', m', ip4'. split; [by right | done].
  - intros H. destruct (IH H) as (ip' & m' & ip4 & Hin & ?). exists ip', m', ip4. split; [by right | done].
Qed.

Lemma host_ip_not_loopback_witness :
  let addrs := [IPNet [127; 0; 0; 1]%Z [255; 0; 0; 0]%Z; OtherAddr "unix";
                IPNet [10; 0; 0; 7]%Z [255; 0; 0; 0]%Z] in
  host_ip addrs <> EmptyString /\
  exists ip mask ip4, In (IPNet ip mask) addrs /\ IsLoopback ip = false /\
    To4 ip = Some ip4 /\ host_ip addrs = dotted ip4.
Proof.
  intros addrs.
  assert (H : host_ip addrs <> EmptyString) by (vm_compute; discriminate).
  split; [exact H | exact (host_ip_not_loopback addrs H)].
Defined.

(** ** The printed form holds no separator of a host:port string *)

Lemma To4_bytes (ip ip4 : list Z) :
  Forall (fun b => (0 <= b < 256)%Z) ip -> To4 ip = Some ip4 ->
  Forall (fun b => (0 <= b < 256)%Z) ip4.
Proof.
  intros H H4. unfold To4 in H4.
  destruct (_ =? 4)%nat; [by invc H4|].
  destruct (_ && _); invc H4. by apply Forall_drop.
Qed.

Lemma dotted_no_byte (c : ascii) (bytes : list Z) :
  Forall (fun b => (0 <= b < 256)%Z) bytes -> digit c = None -> c <> "-"%char -> c <> "."%char ->
  has_byte c (dotted bytes) = false.
Proof.
  intros Hb Hc Hm Hd. induction Hb as [|b rest Hb Hrest IH]; [done|].
  assert (Hi : has_byte c (Itoa b) = false)
    by (apply Itoa_no_byte; [unfold in_int64; lia | done | done]).
  destruct rest as [|b' rest]; [exact Hi|].
  change (dotted (b :: b' :: rest)) with (Itoa b ++ String "."%char (dotted (b' :: rest)))%string.
  rewrite has_byte_app, has_byte_cons, Hi, IH.
  match goal with |- context [Ascii.eqb ?x c] => destruct (Ascii.eqb_spec x c) end;
    subst; done.
Qed.

(** The banner's host IP: no byte that is not a digit, a dot or a minus
    sign, so no colon and no bracket. *)
Lemma host_ip_no_byte (c : ascii) (addrs : list Addr) :
  ip_bytes_ok addrs -> digit c = None -> c <> "-"%char -> c <> "."%char ->
  has_byte c (host_ip addrs) = false.
Proof.
  intros Hok Hc Hm Hd. induction Hok as [|a addrs Ha Hok IH]; [done|].
  destruct a as [ip mask|net]; simpl; [|exact IH].
  destruct (IsLoopback ip); simpl; [exact IH|].
  destruct (To4 ip) as [ip4|] eqn:H4; [|exact IH].
  apply dotted_no_byte; [by eapply To4_bytes | done | done | done].
Qed.
