(* ===== verification/Copy.v ===== *)
(** * io.Copy: the byte relay of a worker

    Each relay worker runs [io.Copy(localConn, publicConn)] and
    [io.Copy(publicConn, localConn)] (src/main.go lines 101-109).  The
    copy loop ([io.copyBuffer] of the Go library, with its 32 KiB buffer)
    is modelled over the [io.Reader] and [io.Writer] interfaces, stated
    as type classes; it is executable, with fuel.  [InStream] (what a
    peer sends: chunks of bytes, then possibly an error such as [EOF], or
    nothing more while the connection stays open) and [Sink] (what the
    other end receives, possibly failing after some bytes) are the
    instances for a TCP connection.  The refinement theorem relates the
    loop to [copy_spec], which says in one line what [io.Copy] delivers
    and reports.

    [*net.TCPConn] also offers [ReadFrom]/[WriteTo], which [io.Copy]
    prefers (splice on Linux); they move the same bytes in the same order
    and are not modelled separately. *)

From S2P Require Import Prelude GoRuntime.

Abbreviation byte := Byte.byte.

(** ** The interfaces *)

(** [io.Reader]: [Read] into a buffer of [n] bytes returns at most [n]
    bytes and possibly an error; [None] means the call blocks (no data
    and no end of stream yet). *)
Class Reader (R : Type) := read : R -> nat -> option (list byte * option goerror * R).

(** [io.Writer]: [Write] returns the count written and possibly an
    error; a misbehaving writer may return a count out of range. *)
Class Writer (W : Type) := write : W -> list byte -> Z * option goerror * W.

(** The result of [io.Copy]: it returned [(written, err)], or it is
    blocked in [Read] after writing [written] bytes, or the fuel ran
    out. *)
Inductive copy_result (R W : Type) :=
| CopyDone (written : Z) (err : option goerror) (src : R) (dst : W)
| CopyBlocked (written : Z) (src : R) (dst : W)
| CopyOutOfFuel.
Arguments CopyDone {R W}.
Arguments CopyBlocked {R W}.
Arguments CopyOutOfFuel {R W}.

(** [size := 32 * 1024] in [io.copyBuffer]. *)
Definition copy_buf_size : nat := 32 * 1024.

Section CopyLoop.
Context {R W : Type} `{Reader R} `{Writer W}.

(** After the write: [if er != nil { if er != EOF { err = er }; break }]. *)
Definition copy_after_read (er : option goerror) (k : R -> W -> Z -> copy_result R W)
    (src : R) (dst : W) (written : Z) : copy_result R W :=
  match er with
  | Some e => CopyDone written (if decide (e = EOF) then None else Some e) src dst
  | None => k src dst written
  end.

(** The loop of [io.copyBuffer], one [Read] per round of fuel. *)
Fixpoint copy_loop (fuel : nat) (src : R) (dst : W) (written : Z) : copy_result R W :=
  match fuel with
  | O => CopyOutOfFuel
  | S fuel' =>
      match read src copy_buf_size with
      | None => CopyBlocked written src dst
      | Some (buf, er, src') =>
          let nr := Z.of_nat (length buf) in
          if (0 <? nr)%Z then
            let '(nw0, ew0, dst') := write dst buf in
            (* [if nw < 0 || nr < nw { nw = 0; if ew == nil { ew = errInvalidWrite } }] *)
            let '(nw, ew) :=
              if (nw0 <? 0)%Z || (nr <? nw0)%Z
              then (0%Z, match ew0 with None => Some ErrInvalidWrite | _ => ew0 end)
              else (nw0, ew0) in
            let written' := (written + nw)%Z in
            match ew with
            | Some e => CopyDone written' (Some e) src' dst'
            | None =>
                if negb (nr =? nw)%Z then CopyDone written' (Some ErrShortWrite) src' dst'
                else copy_after_read er (copy_loop fuel') src' dst' written'
            end
          else copy_after_read er (copy_loop fuel') src' dst written
      end
  end.

(** [io.Copy(dst, src)]. *)
Definition io_Copy (fuel : nat) (dst : W) (src : R) : copy_result R W :=
  copy_loop fuel src dst 0.

End CopyLoop.

(** ** TCP streams *)

(** What a peer sends on a connection: chunks, each possibly followed by
    the error its [Read] reports ([EOF] when the peer closed). *)
Record InStream := mkInStream { pending : list (list byte * option goerror) }.

(** [Read] returns the next chunk, cut to the buffer size; with nothing
    pending it blocks. *)
#[export] Instance InStream_Reader : Reader InStream := fun s n =>
  match pending s with
  | [] => None
  | (d, e) :: rest =>
      if decide (length d <= n) then Some (d, e, mkInStream rest)
      else Some (take n d, None, mkInStream ((drop n d, e) :: rest))
  end.

(** The receiving end: the bytes it got, and possibly a failure after
    [k] more bytes with error [e] (the peer reset the connection). *)
Record Sink := mkSink { received : list byte; room : option (nat * goerror) }.

#[export] Instance Sink_Writer : Writer Sink := fun w buf =>
  match room w with
  | None => (Z.of_nat (length buf), None, mkSink (received w ++ buf) None)
  | Some (k, e) =>
      if decide (length buf <= k)
      then (Z.of_nat (length buf), None, mkSink (received w ++ buf) (Some (k - length buf, e)))
      else (Z.of_nat k, Some e, mkSink (received w ++ take k buf) (Some (0, e)))
  end.

(** ** The reference specification *)

(** The bytes a stream delivers before its first error, and that error
    ([None] when the stream stays open). *)
Fixpoint stream_bytes (l : list (list byte * option goerror)) : list byte :=
  match l with
  | [] => []
  | (d, None) :: rest => d ++ stream_bytes rest
  | (d, Some _) :: _ => d
  end.

Fixpoint stream_end (l : list (list byte * option goerror)) : option goerror :=
  match l with
  | [] => None
  | (_, None) :: rest => stream_end rest
  | (_, Some e) :: _ => Some e
  end.

(** What [io.Copy] promises, seen from outside: the bytes written and
    the error returned ([Some None] for a nil error, [None] when it is
    still blocked in [Read]), and what the sink holds. *)
Definition copy_spec (src : InStream) (dst : Sink) : Z * option (option goerror) * list byte :=
  let bs := stream_bytes (pending src) in
  match room dst with
  | Some (k, e) =>
      if decide (k < length bs)
      then (Z.of_nat k, Some (Some e), received dst ++ take k bs)
      else (Z.of_nat (length bs),
            option_map (fun er => if decide (er = EOF) then None else Some er)
              (stream_end (pending src)),
            received dst ++ bs)
  | None =>
      (Z.of_nat (length bs),
       option_map (fun er => if decide (er = EOF) then None else Some er)
         (stream_end (pending src)),
       received dst ++ bs)
  end.

(** The same view of a run of the loop. *)
Definition copy_view (r : copy_result InStream Sink) : option (Z * option (option goerror) * list byte) :=
  match r with
  | CopyDone n err _ dst => Some (n, Some err, received dst)
  | CopyBlocked n _ dst => Some (n, None, received dst)
  | CopyOutOfFuel => None
  end.

(** Fuel that suffices: one round per byte and per chunk. *)
Definition stream_measure (s : InStream) : nat :=
  sum_list_with (fun c => length c.1 + 1) (pending s).

(** Adding the bytes of earlier rounds to a result of [copy_spec]. *)
Definition add_written (n : Z) (r : Z * option (option goerror) * list byte) :
    Z * option (option goerror) * list byte :=
  ((n + r.1.1)%Z, r.1.2, r.2).

(** ** Lemmas on streams and sinks *)

Definition err_of_read (er : goerror) : option goerror :=
  if decide (er = EOF) then None else Some er.

(** What the sink holds after accepting all of [c]. *)
Definition sink_after (dst : Sink) (c : list byte) : Sink :=
  mkSink (received dst ++ c)
    (match room dst with None => None | Some (k, e) => Some (k - length c, e) end).

Definition sink_fits (dst : Sink) (c : list byte) : Prop :=
  match room dst with None => True | Some (k, _) => length c <= k end.

Lemma sink_after_nil (dst : Sink) : sink_after dst [] = dst.
Proof.
  destruct dst as [rcv [[k e]|]]; unfold sink_after; simpl; rewrite app_nil_r;
    [by rewrite Nat.sub_0_r | done].
Qed.

Lemma sink_write_ok (dst : Sink) (c : list byte) :
  sink_fits dst c -> write dst c = (Z.of_nat (length c), None, sink_after dst c).
Proof.
  unfold sink_fits, sink_after, write, Sink_Writer.
  destruct (room dst) as [[k e]|]; intros H; [by rewrite decide_True | done].
Qed.

Lemma sink_write_fail (dst : Sink) (c : list byte) (k : nat) (e : goerror) :
  room dst = Some (k, e) -> k < length c ->
  write dst c = (Z.of_nat k, Some e, mkSink (received dst ++ take k c) (Some (0, e))).
Proof.
  intros Hr Hk. unfold write, Sink_Writer. rewrite Hr. by rewrite decide_False by lia.
Qed.

Lemma read_blocks (src : InStream) (n : nat) :
  read src n = None -> pending src = [].
Proof.
  unfold read, InStream_Reader. destruct (pending src) as [|[d e] rest]; [done|].
  by case_decide.
Qed.

(** One [Read] on a stream, with a buffer of at least one byte: either
    the stream goes on and the chunk is a prefix of what it delivers, or
    the read ends it. *)
Lemma read_cases (src src' : InStream) (n : nat) (c : list byte) (er : option goerror) :
  0 < n -> read src n = Some (c, er, src') ->
  (er = None /\ stream_bytes (pending src) = c ++ stream_bytes (pending src') /\
   stream_end (pending src) = stream_end (pending src') /\
   stream_measure src' < stream_measure src) \/
  (exists x, er = Some x /\ stream_bytes (pending src) = c /\ stream_end (pending src) = Some x).
Proof.
  intros Hn. unfold read, InStream_Reader, stream_measure.
  destruct src as [[|[d e] rest]]; simpl; [done|].
  case_decide as Hd; intros H; injection H as <- <- <-.
  - destruct e as [x|]; [right; by exists x | left; simpl; split_and!; try done; lia].
  - left. simpl. rewrite length_drop. split_and!; try done.
    + destruct e; simpl; [by rewrite take_drop | by rewrite app_assoc, take_drop].
    + lia.
Qed.

(** ** The specification, one round at a time *)

Lemma add_written_0 (r : Z * option (option goerror) * list byte) : add_written 0 r = r.
Proof. by destruct r as [[n e] l]. Qed.

Lemma spec_empty (src : InStream) (dst : Sink) :
  pending src = [] -> copy_spec src dst = (0%Z, None, received dst).
Proof.
  intros Hp. unfold copy_spec. rewrite Hp. simpl. rewrite app_nil_r.
  by destruct (room dst) as [[k e]|].
Qed.

Lemma spec_continue (src src' : InStream) (dst : Sink) (c : list byte) :
  stream_bytes (pending src) = c ++ stream_bytes (pending src') ->
  stream_end (pending src) = stream_end (pending src') ->
  sink_fits dst c ->
  copy_spec src dst = add_written (Z.of_nat (length c)) (copy_spec src' (sink_after dst c)).
Proof.
  intros Hb He Hfit. unfold copy_spec, sink_after, sink_fits, add_written in *.
  rewrite Hb, He. simpl. rewrite length_app.
  destruct (room dst) as [[k e]|]; simpl.
  - case_decide; case_decide; try lia; simpl.
    + rewrite take_app, take_ge by lia. rewrite app_assoc. f_equal. f_equal. lia.
    + rewrite app_assoc. f_equal. f_equal. lia.
  - rewrite app_assoc. f_equal. f_equal. lia.
Qed.

Lemma spec_stop (src : InStream) (dst : Sink) (c : list byte) (x : goerror) :
  stream_bytes (pending src) = c -> stream_end (pending src) = Some x ->
  sink_fits dst c ->
  copy_spec src dst = (Z.of_nat (length c), Some (err_of_read x), received dst ++ c).
Proof.
  intros Hb He Hfit. unfold copy_spec, sink_fits in *. rewrite Hb, He.
  destruct (room dst) as [[k e]|]; [rewrite decide_False by lia|]; done.
Qed.

Lemma spec_fail (src : InStream) (dst : Sink) (c t : list byte) (k : nat) (e : goerror) :
  stream_bytes (pending src) = c ++ t -> room dst = Some (k, e) -> k < length c ->
  copy_spec src dst = (Z.of_nat k, Some (Some e), received dst ++ take k c).
Proof.
  intros Hb Hr Hk. unfold copy_spec. rewrite Hb, Hr, length_app.
  rewrite decide_True by lia. by rewrite take_app_le by lia.
Qed.

Lemma nat_ltb_checks (n : nat) :
  ((Z.of_nat n <? 0)%Z || (Z.of_nat n <? Z.of_nat n)%Z) = false /\ (Z.of_nat n =? Z.of_nat n)%Z = true.
Proof. rewrite Z.ltb_irrefl, Z.eqb_refl, (proj2 (Z.ltb_ge _ _)) by lia. done. Qed.

(** The body of the loop after a [Read] of a non-empty chunk [c]: the
    write either takes all of [c] or fails part-way. *)
Lemma copy_write_fits (fuel : nat) (src' : InStream) (dst : Sink) (c : list byte)
    (er : option goerror) (w : Z) :
  sink_fits dst c ->
  (let '(nw0, ew0, dst') := write dst c in
   match (if (nw0 <? 0)%Z || (Z.of_nat (length c) <? nw0)%Z
          then (0%Z, match ew0 with Some _ => ew0 | None => Some ErrInvalidWrite end)
          else (nw0, ew0)) with
   | (nw, Some e) => CopyDone (w + nw) (Some e) src' dst'
   | (nw, None) =>
       if negb (Z.of_nat (length c) =? nw)%Z
       then CopyDone (w + nw) (Some ErrShortWrite) src' dst'
       else copy_after_read er (copy_loop fuel) src' dst' (w + nw)
   end) = copy_after_read er (copy_loop fuel) src' (sink_after dst c) (w + Z.of_nat (length c)).
Proof.
  intros Hfit. rewrite sink_write_ok by done.
  destruct (nat_ltb_checks (length c)) as [-> ->]. done.
Qed.

Lemma copy_write_fails (fuel : nat) (src' : InStream) (dst : Sink) (c : list byte)
    (er : option goerror) (w : Z) (k : nat) (e : goerror) :
  room dst = Some (k, e) -> k < length c ->
  (let '(nw0, ew0, dst') := write dst c in
   match (if (nw0 <? 0)%Z || (Z.of_nat (length c) <? nw0)%Z
          then (0%Z, match ew0 with Some _ => ew0 | None => Some ErrInvalidWrite end)
          else (nw0, ew0)) with
   | (nw, Some e) => CopyDone (w + nw) (Some e) src' dst'
   | (nw, None) =>
       if negb (Z.of_nat (length c) =? nw)%Z
       then CopyDone (w + nw) (Some ErrShortWrite) src' dst'
       else copy_after_read er (copy_loop fuel) src' dst' (w + nw)
   end) = CopyDone (w + Z.of_nat k) (Some e) src' (mkSink (received dst ++ take k c) (Some (0, e))).
Proof.
  intros Hr Hk. rewrite (sink_write_fail dst c k e Hr Hk).
  rewrite (proj2 (Z.ltb_ge _ _)), (proj2 (Z.ltb_ge (Z.of_nat (length c)) _)) by lia. done.
Qed.

Lemma sink_fits_dec (dst : Sink) (c : list byte) :
  sink_fits dst c \/ exists k e, room dst = Some (k, e) /\ k < length c.
Proof.
  unfold sink_fits. destruct (room dst) as [[k e]|]; [|by left].
  destruct (decide (length c <= k)); [by left | right; exists k, e; split; [done | lia]].
Qed.

Lemma copy_loop_spec (fuel : nat) (src : InStream) (dst : Sink) (w : Z) :
  stream_measure src < fuel ->
  copy_view (copy_loop fuel src dst w) = Some (add_written w (copy_spec src dst)).
Proof.
  revert src dst w. induction fuel as [|fuel IH]; intros src dst w Hf; [lia|].
  cbn [copy_loop]. destruct (read src copy_buf_size) as [[[c er] src']|] eqn:Hr.
  2: { rewrite spec_empty by (eapply read_blocks; exact Hr). unfold add_written; simpl.
       by rewrite Z.add_0_r. }
  destruct (read_cases src src' copy_buf_size c er ltac:(unfold copy_buf_size; lia) Hr)
    as [(-> & Hb & He & Hm) | (x & -> & Hb & He)];
    destruct (Z.ltb_spec 0 (Z.of_nat (length c))) as [Hpos|Hz].
  - destruct (sink_fits_dec dst c) as [Hfit | (k & e & Hroom & Hk)].
    + rewrite copy_write_fits by done. simpl. rewrite IH by lia.
      rewrite (spec_continue src src' dst c) by done.
      unfold add_written. simpl. by rewrite Z.add_assoc.
    + rewrite (copy_write_fails _ _ _ _ _ _ k e) by done.
      rewrite (spec_fail src dst c (stream_bytes (pending src')) k e) by done. done.
  - destruct c; [|simpl in Hz; lia]. simpl. rewrite IH by lia.
    rewrite (spec_continue src src' dst []) by (done || by unfold sink_fits; destruct (room dst) as [[]|]; simpl; lia).
    rewrite sink_after_nil. change (Z.of_nat (length [])) with 0%Z. by rewrite add_written_0.
  - destruct (sink_fits_dec dst c) as [Hfit | (k & e & Hroom & Hk)].
    + rewrite copy_write_fits by done. rewrite (spec_stop src dst c x) by done. done.
    + rewrite (copy_write_fails _ _ _ _ _ _ k e) by done.
      rewrite (spec_fail src dst c [] k e) by (rewrite ?app_nil_r; done). done.
  - destruct c; [|simpl in Hz; lia]. simpl.
    rewrite (spec_stop src dst [] x) by (done || by unfold sink_fits; destruct (room dst) as [[]|]; simpl; lia).
    unfold add_written. simpl. by rewrite Z.add_0_r, app_nil_r.
Qed.

Lemma copy_view_done (r : copy_result InStream Sink) (n : Z) (e : option goerror) (l : list byte) :
  copy_view r = Some (n, Some e, l) ->
  exists src dst, r = CopyDone n e src dst /\ received dst = l.
Proof. destruct r; simpl; intros H; invc H; eauto. Qed.

(** ** What [io.Copy] does *)

Lemma io_Copy_view (fuel : nat) (dst : Sink) (src : InStream) :
  stream_measure src < fuel -> copy_view (io_Copy fuel dst src) = Some (copy_spec src dst).
Proof. intros Hf. unfold io_Copy. rewrite copy_loop_spec by done. by rewrite add_written_0. Qed.

(** C21: [io.Copy] refines [copy_spec]: given fuel above the stream's
    measure, the loop returns (or blocks in [Read]) having written
    exactly the bytes the stream delivers before its first error, cut at
    the point where the writer fails, and reports the writer's error, or
    the reader's error unless it is [EOF]. *)
Theorem io_Copy_refines (fuel : nat) (dst : Sink) (src : InStream) :
  stream_measure src < fuel -> copy_view (io_Copy fuel dst src) = Some (copy_spec src dst).
Proof. exact (io_Copy_view fuel dst src). Qed.

(** C22: a peer that sends its bytes and closes ([EOF]) has all of them
    relayed, in order, and [io.Copy] returns their count with a nil
    error. *)
Theorem io_Copy_relays_all (fuel : nat) (src : InStream) (rcv : list byte) :
  stream_measure src < fuel -> stream_end (pending src) = Some EOF ->
  match io_Copy fuel (mkSink rcv None) src with
  | CopyDone n err _ dst =>
      n = Z.of_nat (length (stream_bytes (pending src))) /\ err = None /\
      received dst = rcv ++ stream_bytes (pending src)
  | _ => False
  end.
Proof.
  intros Hf He. pose proof (io_Copy_view fuel (mkSink rcv None) src Hf) as H.
  unfold copy_spec in H. rewrite He in H. simpl in H.
  apply copy_view_done in H as (s & d & -> & Hd). done.
Qed.

(** C23: when the receiving end fails after [k] bytes (a reset), [io.Copy]
    returns that error with [k] bytes written, and the receiver got
    exactly the first [k] bytes. *)
Theorem io_Copy_write_error (fuel : nat) (src : InStream) (rcv : list byte) (k : nat) (e : goerror) :
  stream_measure src < fuel -> k < length (stream_bytes (pending src)) ->
  match io_Copy fuel (mkSink rcv (Some (k, e))) src with
  | CopyDone n err _ dst =>
      n = Z.of_nat k /\ err = Some e /\ received dst = rcv ++ take k (stream_bytes (pending src))
  | _ => False
  end.
Proof.
  intros Hf Hk. pose proof (io_Copy_view fuel (mkSink rcv (Some (k, e))) src Hf) as H.
  unfold copy_spec in H. simpl in H. rewrite decide_True in H by done.
  apply copy_view_done in H as (s & d & -> & Hd). done.
Qed.

Section Misbehaving.
Context {R W : Type} `{Reader R} `{Writer W}.

(** C24: for any reader and writer, a [Write] that returns no error but
    a count other than the chunk's length stops [io.Copy]: a count out of
    range counts as nothing written and gives [errInvalidWrite]; a short
    count is added and gives [ErrShortWrite]. *)
Theorem copy_bad_count (fuel : nat) (src src' : R) (dst dst' : W) (w nw : Z)
    (c : list byte) (er : option goerror) :
  read src copy_buf_size = Some (c, er, src') -> c <> [] ->
  write dst c = (nw, None, dst') -> nw <> Z.of_nat (length c) ->
  copy_loop (S fuel) src dst w =
  if (nw <? 0)%Z || (Z.of_nat (length c) <? nw)%Z
  then CopyDone w (Some ErrInvalidWrite) src' dst'
  else CopyDone (w + nw) (Some ErrShortWrite) src' dst'.
Proof.
  intros Hr Hc Hw Hn. cbn [copy_loop]. rewrite Hr.
  rewrite (proj2 (Z.ltb_lt 0 _)) by (destruct c; [done | simpl; lia]).
  rewrite Hw. destruct ((nw <? 0)%Z || (Z.of_nat (length c) <? nw)%Z).
  - by rewrite Z.add_0_r.
  - rewrite (proj2 (Z.eqb_neq _ _)) by lia. done.
Qed.

End Misbehaving.

(** ** Witnesses *)

(** A peer sending "hello" and closing. *)
Definition hello : InStream :=
  mkInStream [([Byte.x68; Byte.x65; Byte.x6c; Byte.x6c; Byte.x6f], Some EOF)].

Lemma io_Copy_refines_witness :
  stream_measure hello < 10 /\
  copy_view (io_Copy 10 (mkSink [] None) hello) = Some (copy_spec hello (mkSink [] None)).
Proof.
  assert (H : stream_measure hello < 10) by (vm_compute; lia).
  split; [exact H | exact (io_Copy_refines 10 (mkSink [] None) hello H)].
Defined.

Lemma io_Copy_relays_all_witness :
  stream_measure hello < 10 /\ stream_end (pending hello) = Some EOF /\
  match io_Copy 10 (mkSink [] None) hello with
  | CopyDone n err _ dst =>
      n = Z.of_nat (length (stream_bytes (pending hello))) /\ err = None /\
      received dst = [] ++ stream_bytes (pending hello)
  | _ => False
  end.
Proof.
  assert (H1 : stream_measure hello < 10) by (vm_compute; lia).
  assert (H2 : stream_end (pending hello) = Some EOF) by reflexivity.
  split; [exact H1 | split; [exact H2 | exact (io_Copy_relays_all 10 hello [] H1 H2)]].
Defined.

Lemma io_Copy_write_error_witness :
  stream_measure hello < 10 /\ 2 < length (stream_bytes (pending hello)) /\
  match io_Copy 10 (mkSink [] (Some (2, ErrConnReset))) hello with
  | CopyDone n err _ dst =>
      n = Z.of_nat 2 /\ err = Some ErrConnReset /\
      received dst = [] ++ take 2 (stream_bytes (pending hello))
  | _ => False
  end.
Proof.
  assert (H1 : stream_measure hello < 10) by (vm_compute; lia).
  assert (H2 : 2 < length (stream_bytes (pending hello))) by (vm_compute; lia).
  split; [exact H1 | split; [exact H2 | exact (io_Copy_write_error 10 hello [] 2 ErrConnReset H1 H2)]].
Defined.

(** A writer that claims one byte more than it was given. *)
Definition overcounting_writer : Writer Sink := fun w buf =>
  ((Z.of_nat (length buf) + 1)%Z, None, w).

Lemma copy_bad_count_witness :
  let c := [Byte.x68; Byte.x65; Byte.x6c; Byte.x6c; Byte.x6f] in
  read hello copy_buf_size = Some (c, Some EOF, mkInStream []) /\ c <> [] /\
  @write _ overcounting_writer (mkSink [] None) c = (6%Z, None, mkSink [] None) /\
  6%Z <> Z.of_nat (length c) /\
  @copy_loop _ _ _ overcounting_writer 1 hello (mkSink [] None) 0 =
  if (6 <? 0)%Z || (Z.of_nat (length c) <? 6)%Z
  then CopyDone 0%Z (Some ErrInvalidWrite) (mkInStream []) (mkSink [] None)
  else CopyDone (0 + 6)%Z (Some ErrShortWrite) (mkInStream []) (mkSink [] None).
Proof.
  intros c.
  assert (H1 : read hello copy_buf_size = Some (c, Some EOF, mkInStream [])) by reflexivity.
  assert (H2 : c <> []) by discriminate.
  assert (H3 : @write _ overcounting_writer (mkSink [] None) c = (6%Z, None, mkSink [] None))
    by reflexivity.
  assert (H4 : 6%Z <> Z.of_nat (length c)) by (simpl; lia).
  split_and!; [exact H1 | exact H2 | exact H3 | exact H4 |
    exact (@copy_bad_count _ _ _ overcounting_writer 0 hello (mkInStream []) (mkSink [] None)
             (mkSink [] None) 0 6 c (Some EOF) H1 H2 H3 H4)].
Defined.
