(* ===== verification/TunnelState.v ===== *)
(** * The tunnel server: its state and the statements of its goroutines

    [TunnelServer] and [NewTunnelServer] are the struct and constructor
    of src/main.go (lines 15-27).  The running program is a global
    [State]: the [TunnelServer], the public listener, the program counter
    of each goroutine (the accept loop, every relay worker with its
    defer stack, its [errChan] and its two [io.Copy] goroutines, the
    caller of [Stop]), what the environment provides (connections queued
    on the listener, whether the local service accepts dials), a panic if
    one happened, and the lines the program logged.

    One function per statement group: [acceptConnections_step] (lines
    66-84), [handleConnection_step] and [run_deferred] (lines 86-113),
    [copy_send] (lines 103 and 108), [Stop_close], [Stop_wait] and
    [Stop_wake] (lines 115-118).  Each returns [None] when its goroutine
    is blocked.  [exec] runs one statement of one goroutine, or one move
    of the environment; [reachable] collects the states a started tunnel
    can reach. *)

From S2P Require Import Prelude GoRuntime.

(** ** The TunnelServer struct *)

(** [type TunnelServer struct] (lines 15-20); [stopChan] is a [chan
    struct{}] that is only ever closed, so its state is whether it is
    closed. *)
Record TunnelServer := mkTunnelServer {
  localPort : Z;
  publicPort : Z;
  connections : WaitGroup.t;
  stopChan : bool
}.

(** [NewTunnelServer(localPort)] (lines 22-27): the other fields keep
    their zero values, [stopChan] is a fresh open channel. *)
Definition NewTunnelServer (lport : Z) : TunnelServer :=
  mkTunnelServer lport 0 WaitGroup.zero false.

Definition ts_with_publicPort (p : Z) (ts : TunnelServer) : TunnelServer :=
  mkTunnelServer (localPort ts) p (connections ts) (stopChan ts).

Definition ts_with_wg (wg : WaitGroup.t) (ts : TunnelServer) : TunnelServer :=
  mkTunnelServer (localPort ts) (publicPort ts) wg (stopChan ts).

Definition ts_with_stopChan (closed : bool) (ts : TunnelServer) : TunnelServer :=
  mkTunnelServer (localPort ts) (publicPort ts) (connections ts) closed.

(** ** Goroutines *)

(** The two [io.Copy] goroutines of a worker (lines 101-104 and 106-109). *)
Inductive direction := PublicToLocal | LocalToPublic.

Inductive copy_pc :=
| CopyNotStarted                       (** the worker has not dialled yet *)
| CopyRunning                          (** inside [io.Copy] *)
| CopySending (err : option goerror)   (** at [errChan <- err] *)
| CopyExited.

(** The calls a worker defers (lines 87, 88 and 96). *)
Inductive deferred := DeferDone | DeferClosePublic | DeferCloseLocal.

#[export] Instance deferred_eq_dec : EqDecision deferred.
Proof. solve_decision. Defined.

(** The worker's [localConn]: not dialled, open, or closed. *)
Inductive local_conn := NoLocal | LocalOpen | LocalClosed.

Inductive worker_pc :=
| WDial      (** line 91: [net.Dial] *)
| WRecv      (** line 112: [<-errChan] *)
| WReturn    (** returning: the deferred calls run, top of the stack first *)
| WExited.

(** One [handleConnection] goroutine: where it is, its defer stack, its
    [errChan], its two copy goroutines and its two connections. *)
Record Worker := mkWorker {
  w_pc : worker_pc;
  w_defers : list deferred;                           (** top first *)
  w_errChan : option (Chan.buffered (option goerror)); (** line 99 *)
  w_copyIn : copy_pc;                                  (** public to local *)
  w_copyOut : copy_pc;                                 (** local to public *)
  w_publicClosed : bool;                               (** [publicConn] closed *)
  w_local : local_conn
}.

(** The accept loop (lines 67-83). *)
Inductive loop_pc :=
| LoopSelect          (** line 68: [select] on [stopChan] with [default] *)
| LoopAccept          (** line 74: in [Accept] *)
| LoopAdd             (** lines 80-81: [Add(1)] and [go handleConnection] *)
| LoopExited.

(** The caller of [Stop] (lines 115-118): before the call or after it
    returned, at [Wait]'s check of the counter, or asleep in [Wait]. *)
Inductive stop_pc := StopIdle | StopWaitLoop | StopSleeping | StopReturned.

(** The lines the program logs: [Accept]'s error (line 76), the failed
    dial (line 93) and "Tunnel stopped" (line 118). *)
Inductive log_line :=
| LogAcceptError (e : goerror)
| LogDialFailed (e : goerror)
| LogStopped.

#[export] Instance log_line_eq_dec : EqDecision log_line.
Proof. solve_decision. Defined.

Record State := mkState {
  ts : TunnelServer;
  listenerOpen : bool;     (** [publicListener] not yet closed *)
  backlog : nat;           (** connections queued on it, not yet accepted *)
  loop : loop_pc;
  workers : list Worker;   (** in spawn order *)
  stopper : stop_pc;
  localUp : bool;          (** whether the local service accepts dials *)
  panicked : option go_panic;
  logs : list log_line     (** newest first *)
}.

(** Functional updates of the global state, one per field. *)
Definition with_ts (t : TunnelServer) (s : State) : State :=
  mkState t (listenerOpen s) (backlog s) (loop s) (workers s) (stopper s)
    (localUp s) (panicked s) (logs s).

Definition with_wg (wg : WaitGroup.t) (s : State) : State :=
  with_ts (ts_with_wg wg (ts s)) s.

Definition with_listener (lopen : bool) (bl : nat) (s : State) : State :=
  mkState (ts s) lopen bl (loop s) (workers s) (stopper s) (localUp s)
    (panicked s) (logs s).

Definition with_loop (l : loop_pc) (s : State) : State :=
  mkState (ts s) (listenerOpen s) (backlog s) l (workers s) (stopper s)
    (localUp s) (panicked s) (logs s).

Definition with_workers (ws : list Worker) (s : State) : State :=
  mkState (ts s) (listenerOpen s) (backlog s) (loop s) ws (stopper s)
    (localUp s) (panicked s) (logs s).

Definition with_stopper (sp : stop_pc) (s : State) : State :=
  mkState (ts s) (listenerOpen s) (backlog s) (loop s) (workers s) sp
    (localUp s) (panicked s) (logs s).

Definition with_localUp (up : bool) (s : State) : State :=
  mkState (ts s) (listenerOpen s) (backlog s) (loop s) (workers s)
    (stopper s) up (panicked s) (logs s).

Definition with_panic (p : go_panic) (s : State) : State :=
  mkState (ts s) (listenerOpen s) (backlog s) (loop s) (workers s)
    (stopper s) (localUp s) (Some p) (logs s).

Definition log (l : log_line) (s : State) : State :=
  mkState (ts s) (listenerOpen s) (backlog s) (loop s) (workers s)
    (stopper s) (localUp s) (panicked s) (l :: logs s).

Definition set_worker (i : nat) (w : Worker) (s : State) : State :=
  with_workers (<[i:=w]> (workers s)) s.

(** Functional updates of one worker. *)
Definition w_with_pc (pc : worker_pc) (w : Worker) : Worker :=
  mkWorker pc (w_defers w) (w_errChan w) (w_copyIn w) (w_copyOut w)
    (w_publicClosed w) (w_local w).

Definition w_with_chan (ch : option (Chan.buffered (option goerror)))
    (w : Worker) : Worker :=
  mkWorker (w_pc w) (w_defers w) ch (w_copyIn w) (w_copyOut w)
    (w_publicClosed w) (w_local w).

Definition copy_of (d : direction) (w : Worker) : copy_pc :=
  match d with PublicToLocal => w_copyIn w | LocalToPublic => w_copyOut w end.

Definition w_with_copy (d : direction) (c : copy_pc) (w : Worker) : Worker :=
  match d with
  | PublicToLocal =>
      mkWorker (w_pc w) (w_defers w) (w_errChan w) c (w_copyOut w)
        (w_publicClosed w) (w_local w)
  | LocalToPublic =>
      mkWorker (w_pc w) (w_defers w) (w_errChan w) (w_copyIn w) c
        (w_publicClosed w) (w_local w)
  end.

(** ** The environment: the listener and the local service *)

(** [publicListener.Accept()] (line 74): a queued connection, an error
    on a closed listener ([net.ErrClosed]), or [None]: the call blocks
    until a peer connects. *)
Definition Accept (s : State) : option (goerror + State) :=
  if listenerOpen s then
    match backlog s with
    | O => None
    | S n => Some (inr (with_listener true n s))
    end
  else Some (inl ErrClosed).

(** [net.Dial("tcp", "localhost:<localPort>")] (line 91): it connects
    when the local service is up and is refused otherwise. *)
Definition Dial (s : State) : goerror + unit :=
  if localUp s then inr tt else inl ErrConnRefused.

(** ** NewTunnelServer and Start *)

(** [go ts.handleConnection(publicConn)]: the new goroutine's first two
    statements, [defer ts.connections.Done()] and [defer
    publicConn.Close()] (lines 87-88), only push the defer stack, so they
    are folded into the spawn. *)
Definition spawn_worker : Worker :=
  mkWorker WDial [DeferClosePublic; DeferDone] None CopyNotStarted
    CopyNotStarted false NoLocal.

(** The program once [Start] has returned (line 64): the server made by
    [NewTunnelServer] with the public port set (line 57), the listener
    bound, and the accept loop started at its [select] (line 63). *)
Definition started (lport pport : Z) (up : bool) : State :=
  mkState (ts_with_publicPort pport (NewTunnelServer lport)) true 0 LoopSelect []
    StopIdle up None [].

(** ** The accept loop: [acceptConnections], lines 66-84 *)

(** One statement of the loop.  At the [select], a closed [stopChan]
    wins over [default] (line 69): the listener is closed, which drops
    the queued connections, and the loop returns (lines 70-71).  In
    [Accept] (line 74), an error is logged and the loop goes round
    (lines 75-78).  Then [Add(1)] and the spawn (lines 80-81). *)
Definition acceptConnections_step (s : State) : option State :=
  match loop s with
  | LoopSelect =>
      if stopChan (ts s)
      then Some (with_loop LoopExited (with_listener false 0 s))
      else Some (with_loop LoopAccept s)
  | LoopAccept =>
      r ← Accept s;
      match r with
      | inl err => Some (log (LogAcceptError err) (with_loop LoopSelect s))
      | inr s' => Some (with_loop LoopAdd s')
      end
  | LoopAdd =>
      match WaitGroup.add 1 (connections (ts s)) with
      | inl p => Some (with_panic p s)
      | inr wg =>
          Some (with_loop LoopSelect
                  (with_workers (workers s ++ [spawn_worker]) (with_wg wg s)))
      end
  | LoopExited => None
  end.

(** [Accept] returning a transient error [err] while the listener is
    open (resource exhaustion and the like): logged, and the loop goes
    round (lines 74-78). *)
Definition acceptConnections_error (err : goerror) (s : State) : option State :=
  match loop s with
  | LoopAccept => Some (log (LogAcceptError err) (with_loop LoopSelect s))
  | _ => None
  end.

(** ** The relay worker: [handleConnection], lines 86-113 *)

(** Running one deferred call: [ts.connections.Done()] (line 87),
    [publicConn.Close()] (line 88) or [localConn.Close()] (line 96). *)
Definition run_deferred (i : nat) (d : deferred) (rest : list deferred)
    (w : Worker) (s : State) : State :=
  let w' := fun pub loc =>
    mkWorker WReturn rest (w_errChan w) (w_copyIn w) (w_copyOut w) pub loc in
  match d with
  | DeferDone =>
      match WaitGroup.done (connections (ts s)) with
      | inl p => with_panic p s
      | inr wg => set_worker i (w' (w_publicClosed w) (w_local w)) (with_wg wg s)
      end
  | DeferClosePublic => set_worker i (w' true (w_local w)) s
  | DeferCloseLocal => set_worker i (w' (w_publicClosed w) LocalClosed) s
  end.

(** One statement of worker [i].  A successful dial (line 91) pushes
    [defer localConn.Close()] (line 96), makes [errChan] with capacity 2
    (line 99) and starts both copy goroutines (lines 101-109); these
    statements touch only the worker's own variables and run as one
    step.  A failed dial is logged and the worker returns (lines 92-95).
    Line 112 receives one value from [errChan]; then the deferred calls
    run, top of the stack first, and the goroutine exits. *)
Definition handleConnection_step (i : nat) (s : State) : option State :=
  w ← workers s !! i;
  match w_pc w with
  | WDial =>
      match Dial s with
      | inr _ =>
          Some (set_worker i
            (mkWorker WRecv (DeferCloseLocal :: w_defers w) (Some (Chan.make 2))
               CopyRunning CopyRunning (w_publicClosed w) LocalOpen) s)
      | inl err => Some (log (LogDialFailed err) (set_worker i (w_with_pc WReturn w) s))
      end
  | WRecv =>
      ch ← w_errChan w;
      '(_, ch') ← Chan.recv ch;
      Some (set_worker i (w_with_pc WReturn (w_with_chan (Some ch') w)) s)
  | WReturn =>
      match w_defers w with
      | [] => Some (set_worker i (w_with_pc WExited w) s)
      | d :: rest => Some (run_deferred i d rest w s)
      end
  | WExited => None
  end.

(** [io.Copy] of direction [d] of worker [i] returns [err] (line 102 or
    107).  When it returns, and with what, depends on the peers and is
    the environment's choice here; [Copy] models the copy itself. *)
Definition copy_return (i : nat) (d : direction) (err : option goerror)
    (s : State) : option State :=
  w ← workers s !! i;
  match copy_of d w with
  | CopyRunning => Some (set_worker i (w_with_copy d (CopySending err) w) s)
  | _ => None
  end.

(** [errChan <- err] (line 103 or 108); blocks when the channel is full. *)
Definition copy_send (i : nat) (d : direction) (s : State) : option State :=
  w ← workers s !! i;
  match copy_of d w with
  | CopySending err =>
      ch ← w_errChan w;
      ch' ← Chan.send err ch;
      Some (set_worker i (w_with_chan (Some ch') (w_with_copy d CopyExited w)) s)
  | _ => None
  end.

(** ** Stop, lines 115-119 *)

(** [close(ts.stopChan)] (line 116).  [main] calls [Stop] once (line
    143); a caller that calls it again after it returned closes a closed
    channel and panics. *)
Definition Stop_close (s : State) : option State :=
  match stopper s with
  | StopIdle | StopReturned =>
      match Chan.close (stopChan (ts s)) with
      | inl p => Some (with_panic p s)
      | inr closed => Some (with_stopper StopWaitLoop (with_ts (ts_with_stopChan closed (ts s)) s))
      end
  | _ => None
  end.

(** [ts.connections.Wait()] (line 117), its check: with the counter at
    zero it returns and "Tunnel stopped" is logged (line 118); otherwise
    the caller registers as a waiter and sleeps. *)
Definition Stop_wait (s : State) : option State :=
  match stopper s with
  | StopWaitLoop =>
      match WaitGroup.wait_register (connections (ts s)) with
      | None => Some (log LogStopped (with_stopper StopReturned s))
      | Some wg => Some (with_stopper StopSleeping (with_wg wg s))
      end
  | _ => None
  end.

(** The sleeping caller of [Wait] wakes once the last [Done] released it;
    it panics if the WaitGroup was reused in between, and otherwise
    returns and logs "Tunnel stopped". *)
Definition Stop_wake (s : State) : option State :=
  match stopper s with
  | StopSleeping =>
      r ← WaitGroup.wait_wake (connections (ts s));
      match r with
      | inl p => Some (with_panic p s)
      | inr wg => Some (log LogStopped (with_stopper StopReturned (with_wg wg s)))
      end
  | _ => None
  end.

(** ** The environment's moves *)

(** A public peer connects: the kernel queues the connection while the
    listener is open, and refuses it once the listener is closed. *)
Definition peer_connects (s : State) : State :=
  if listenerOpen s then with_listener true (S (backlog s)) s else s.

(** ** One step of the whole system *)

Inductive action :=
| ALoop                                        (** the accept loop *)
| AAcceptError (err : goerror)                 (** [Accept] fails *)
| AWorker (i : nat)                            (** worker [i] *)
| ACopyReturn (i : nat) (d : direction) (err : option goerror)
| ACopySend (i : nat) (d : direction)
| AStopClose                                   (** the caller enters [Stop] *)
| AStopWait                                    (** ... checks in [Wait] *)
| AStopWake                                    (** ... wakes in [Wait] *)
| APeerConnects
| ALocalService (up : bool).                   (** the local service goes up or down *)

(** A panic ends the process: no goroutine steps afterwards. *)
Definition exec (a : action) (s : State) : option State :=
  match panicked s with
  | Some _ => None
  | None =>
      match a with
      | ALoop => acceptConnections_step s
      | AAcceptError err => acceptConnections_error err s
      | AWorker i => handleConnection_step i s
      | ACopyReturn i d err => copy_return i d err s
      | ACopySend i d => copy_send i d s
      | AStopClose => Stop_close s
      | AStopWait => Stop_wait s
      | AStopWake => Stop_wake s
      | APeerConnects => Some (peer_connects s)
      | ALocalService up => Some (with_localUp up s)
      end
  end.

(** The statements of the workers and of their copy goroutines. *)
Definition worker_step_action (a : action) : bool :=
  match a with AWorker _ | ACopyReturn _ _ _ | ACopySend _ _ => true | _ => false end.

(** The step relation, and a schedule: the actions in order, failing on
    a blocked one. *)
Definition step (s s' : State) : Prop := exists a, exec a s = Some s'.

Fixpoint run (acts : list action) (s : State) : option State :=
  match acts with
  | [] => Some s
  | a :: rest => s' ← exec a s; run rest s'
  end.

Inductive reachable : State -> Prop :=
| reach_start lport pport up : reachable (started lport pport up)
| reach_step a s s' : reachable s -> exec a s = Some s' -> reachable s'.

(** ** Lemmas on schedules *)

Lemma run_cons_Some a acts s s1 : exec a s = Some s1 -> run (a :: acts) s = run acts s1.
Proof. intros H. cbn [run]. by rewrite H. Qed.

Lemma run_app acts1 acts2 s :
  run (acts1 ++ acts2) s = s1 ← run acts1 s; run acts2 s1.
Proof.
  revert s. induction acts1 as [|a acts1 IH]; intros s; [done|]. simpl.
  destruct (exec a s); simpl; [apply IH | done].
Qed.

Lemma run_rtc acts s s' : run acts s = Some s' -> rtc step s s'.
Proof.
  revert s. induction acts as [|a acts IH]; simpl; intros s Hrun.
  - invc Hrun. apply rtc_refl.
  - destruct (exec a s) as [s1|] eqn:E; [|done].
    eapply rtc_l; [by exists a | by apply IH].
Qed.

Lemma reachable_rtc s s' : reachable s -> rtc step s s' -> reachable s'.
Proof. intros Hs Hr. induction Hr as [|x y z [a Ha] _ IH]; [done|]. apply IH. by eapply reach_step. Qed.

Lemma run_reachable acts s s' :
  reachable s -> run acts s = Some s' -> reachable s'.
Proof. intros Hs Hrun. eapply reachable_rtc; [exact Hs | by eapply run_rtc]. Qed.

(** ** Frame lemmas: what a step leaves alone *)

Lemma run_deferred_frame i d rest w s :
  let s' := run_deferred i d rest w s in
  length (workers s') = length (workers s) /\ loop s' = loop s /\
  stopper s' = stopper s /\ stopChan (ts s') = stopChan (ts s).
Proof.
  unfold run_deferred. destruct d; [destruct (WaitGroup.done _)|..]; simpl;
    rewrite ?length_insert; done.
Qed.

(** A statement of a worker or of a copy goroutine touches neither the
    accept loop, nor [Stop], nor [stopChan], nor the number of workers. *)
Lemma worker_frame a s s' :
  worker_step_action a = true -> exec a s = Some s' ->
  length (workers s') = length (workers s) /\ loop s' = loop s /\
  stopper s' = stopper s /\ stopChan (ts s') = stopChan (ts s).
Proof.
  intros Ha Hs. unfold exec in Hs. destruct (panicked s); [done|].
  destruct a; try done; simpl in Hs.
  - unfold handleConnection_step in Hs.
    destruct (workers s !! i) as [w|]; [|done]. simpl in Hs.
    destruct (w_pc w); [unfold Dial in Hs; destruct (localUp s)| | |];
      try (destruct (w_errChan w) as [ch|]; [|done]; simpl in Hs;
           destruct (Chan.recv ch) as [[]|]; [|done]; simpl in Hs);
      try (destruct (w_defers w) as [|d rest]);
      simplify_eq; try apply run_deferred_frame; simpl; rewrite ?length_insert; done.
  - unfold copy_return in Hs. destruct (workers s !! i); [|done]. simpl in Hs.
    destruct (copy_of d _); simplify_eq; simpl; rewrite ?length_insert; done.
  - unfold copy_send in Hs. destruct (workers s !! i); [|done]. simpl in Hs.
    destruct (copy_of d _); try done. destruct (w_errChan _) as [ch|]; [|done]. simpl in Hs.
    destruct (Chan.send _ ch); [|done]. simpl in Hs. simplify_eq. simpl.
    rewrite length_insert; done.
Qed.

Ltac simpl_state := cbn [log with_loop with_listener with_workers with_wg with_ts
  with_stopper with_panic with_localUp set_worker ts_with_wg ts_with_stopChan
  ts_with_publicPort logs workers ts connections loop listenerOpen stopChan stopper
  backlog panicked localUp localPort publicPort WaitGroup.counter WaitGroup.waiters
  WaitGroup.sema].

(** ** Schedules from a started tunnel *)

(** A tunnel on local port 3000 with public port 40000 and the local
    service up, and the state a schedule of actions leads it to. *)
Definition demo_start : State := started 3000 40000 true.

Definition demo_after (acts : list action) : State :=
  default demo_start (run acts demo_start).

Lemma demo_after_reachable (acts : list action) :
  is_Some (run acts demo_start) -> reachable (demo_after acts).
Proof.
  intros [s Hs]. unfold demo_after. rewrite Hs.
  eapply run_reachable; [apply reach_start | exact Hs].
Qed.

(** A connection accepted and relayed until one copy reports, while the
    second connection's worker is still dialling. *)
Definition sched_relay : list action :=
  [ALoop; APeerConnects; ALoop; ALoop; AWorker 0;
   ACopyReturn 0 PublicToLocal None; ACopySend 0 PublicToLocal;
   ALoop; APeerConnects; ALoop; ALoop].
