(* ===== verification/TunnelInv.v ===== *)
(** * The invariant of the running tunnel

    [inv] holds in every reachable state ([inv_reachable], by rule
    induction on [reachable] with one preservation lemma per step).  It
    says that every worker has one of the shapes its code allows
    ([worker_ok]); that the WaitGroup's counter is the number of workers
    whose deferred [Done] has not run, and below [2^31]; that its waiters
    and semaphore match where the caller of [Stop] is ([wg_ok]); how the
    listener, [stopChan] and the accept loop relate; and which panics can
    have happened.  The last section states what follows directly from
    it: the possible panics, the order of the deferred calls, the bounds
    of the WaitGroup's state and the shapes of the workers. *)

From S2P Require Import Prelude GoRuntime TunnelState.

(** ** Definitions *)

Definition is_done_defer (d : deferred) : bool :=
  match d with DeferDone => true | _ => false end.

(** Whether the worker's deferred [ts.connections.Done()] has run: it is
    returning and [DeferDone] has left its defer stack. *)
Definition done_ran (w : Worker) : bool :=
  match w_pc w with
  | WReturn | WExited => negb (existsb is_done_defer (w_defers w))
  | _ => false
  end.

Definition is_live (w : Worker) : bool := negb (done_ran w).

Definition live_count (ws : list Worker) : nat := count_if is_live ws.

Definition sent (c : copy_pc) : nat :=
  match c with CopyExited => 1 | _ => 0 end.

Definition full_defers_dialled : list deferred :=
  [DeferCloseLocal; DeferClosePublic; DeferDone].

Definition full_defers_undialled : list deferred :=
  [DeferClosePublic; DeferDone].

(** [errChan] of a worker that has dialled, of which [r] values have been
    received: capacity 2, and every value sent is buffered or received. *)
Inductive chan_ok (r : nat) :
    option (Chan.buffered (option goerror)) -> copy_pc -> copy_pc -> Prop :=
| chan_ok_intro ch ci co :
    Chan.cap ch = 2 -> ci <> CopyNotStarted -> co <> CopyNotStarted ->
    length (Chan.buf ch) + r = sent ci + sent co ->
    chan_ok r (Some ch) ci co.

(** The shapes a worker goes through.  [k] counts the deferred calls
    already run; each one's effect is visible exactly when it has run. *)
Inductive worker_ok : Worker -> Prop :=
| wok_dial : worker_ok spawn_worker
| wok_undialled pc k :
    k <= 2 -> (pc = WReturn \/ (pc = WExited /\ k = 2)) ->
    worker_ok (mkWorker pc (drop k full_defers_undialled) None CopyNotStarted
                 CopyNotStarted (1 <=? k) NoLocal)
| wok_recv ch ci co :
    chan_ok 0 ch ci co ->
    worker_ok (mkWorker WRecv full_defers_dialled ch ci co false LocalOpen)
| wok_dialled pc k ch ci co :
    k <= 3 -> (pc = WReturn \/ (pc = WExited /\ k = 3)) -> chan_ok 1 ch ci co ->
    worker_ok (mkWorker pc (drop k full_defers_dialled) ch ci co (2 <=? k)
                 (if 1 <=? k then LocalClosed else LocalOpen)).

(** The WaitGroup's waiters and semaphore: no waiter unless the caller of
    [Stop] sleeps in [Wait]; a sleeping caller is either registered on a
    positive counter, or released by the [Done] that reached zero. *)
Definition wg_ok (sp : stop_pc) (wg : WaitGroup.t) : Prop :=
  match sp with
  | StopSleeping =>
      (WaitGroup.waiters wg = 1 /\ WaitGroup.sema wg = 0 /\ (0 < WaitGroup.counter wg)%Z) \/
      (WaitGroup.waiters wg = 0 /\ WaitGroup.sema wg = 1)
  | _ => WaitGroup.waiters wg = 0 /\ WaitGroup.sema wg = 0
  end.

Record inv (s : State) : Prop := {
  inv_workers : Forall worker_ok (workers s);
  inv_wg : WaitGroup.counter (connections (ts s)) = Z.of_nat (live_count (workers s));
  inv_wg_range : (Z.of_nat (live_count (workers s)) < 2^31)%Z;
  inv_waiters : wg_ok (stopper s) (connections (ts s));
  inv_listener : listenerOpen s = false <-> loop s = LoopExited;
  inv_exit_stop : loop s = LoopExited -> stopChan (ts s) = true;
  inv_stopper : stopChan (ts s) = false <-> stopper s = StopIdle;
  inv_backlog : listenerOpen s = false -> backlog s = 0;
  inv_panic : panicked s = None \/ panicked s = Some PanicCloseClosed \/
    panicked s = Some PanicWaitGroupReused \/
    (panicked s = Some PanicNegativeWaitGroup /\
     Z.of_nat (live_count (workers s)) = (2^31 - 1)%Z)
}.

(** ** Lemmas on workers and counts *)

Lemma sent_le (c : copy_pc) : sent c <= 1.
Proof. destruct c; simpl; lia. Qed.

Lemma live_count_app (ws1 ws2 : list Worker) :
  live_count (ws1 ++ ws2) = live_count ws1 + live_count ws2.
Proof. apply count_if_app. Qed.

Lemma live_count_insert (ws : list Worker) (i : nat) (w w' : Worker) :
  ws !! i = Some w ->
  live_count (<[i:=w']> ws) + (if is_live w then 1 else 0)
  = live_count ws + (if is_live w' then 1 else 0).
Proof. apply count_if_insert. Qed.

Lemma live_count_spawn ws : live_count (ws ++ [spawn_worker]) = S (live_count ws).
Proof. rewrite live_count_app. change (live_count [spawn_worker]) with 1. lia. Qed.

Lemma worker_ok_done_closed (w : Worker) :
  worker_ok w -> done_ran w = true ->
  w_publicClosed w = true /\ w_local w <> LocalOpen.
Proof.
  intros Hok Hd. inversion Hok as [ | pc k Hk Hpc | ch ci co Hch | pc k ch ci co Hk Hpc Hch];
    subst; try discriminate.
  - destruct Hpc as [->|[-> ->]]; [|done].
    destruct k as [|[|[|k]]]; simpl in *; done.
  - destruct Hpc as [->|[-> ->]]; [|done].
    destruct k as [|[|[|[|k]]]]; simpl in *; done.
Qed.

Lemma inv_started (lport pport : Z) (up : bool) : inv (started lport pport up).
Proof. constructor; simpl; try done; try lia. by left. Qed.

(** ** Updates that keep the invariant *)

Section Preservation.
Context (s : State) (Hinv : inv s).

Lemma inv_log (l : log_line) : inv (log l s).
Proof. destruct Hinv. by constructor. Qed.

(** Replacing worker [i] by a well-formed worker as live as it. *)
Lemma inv_set_worker (i : nat) (w w' : Worker) :
  workers s !! i = Some w -> worker_ok w' -> is_live w' = is_live w ->
  inv (set_worker i w' s).
Proof.
  intros Hw Hok Hl. destruct Hinv.
  pose proof (live_count_insert (workers s) i w w' Hw) as Hc.
  rewrite Hl in Hc.
  assert (live_count (<[i:=w']> (workers s)) = live_count (workers s)) as Hc'
    by lia.
  constructor; simpl; rewrite ?Hc'; try done.
  by apply Forall_insert.
Qed.

(** Worker [i] runs its deferred [wg.Done()], which leaves the WaitGroup
    at [wg]. *)
Lemma inv_set_worker_done (i : nat) (w w' : Worker) (wg : WaitGroup.t) :
  panicked s = None -> workers s !! i = Some w -> worker_ok w' ->
  is_live w = true -> is_live w' = false ->
  WaitGroup.counter wg = (WaitGroup.counter (connections (ts s)) - 1)%Z ->
  wg_ok (stopper s) wg ->
  inv (set_worker i w' (with_wg wg s)).
Proof.
  intros Hnp Hw Hok Hl Hl' Hwg Hwo. destruct Hinv.
  pose proof (live_count_insert (workers s) i w w' Hw) as Hc.
  rewrite Hl, Hl' in Hc.
  constructor; simpl; try done; try lia.
  - by apply Forall_insert.
  - by left.
Qed.

End Preservation.

(** ** Preservation by every step *)

Lemma worker_ok_lookup s i w : inv s -> workers s !! i = Some w -> worker_ok w.
Proof. intros Hinv Hw. eapply Forall_lookup_1; [apply Hinv | exact Hw]. Qed.

Lemma live_pos s i w : inv s -> workers s !! i = Some w -> is_live w = true ->
  (0 < WaitGroup.counter (connections (ts s)) < 2^31)%Z.
Proof.
  intros Hinv Hw Hl. pose proof (count_if_lookup _ _ _ _ Hw Hl).
  rewrite (inv_wg _ Hinv). pose proof (inv_wg_range _ Hinv). unfold live_count in *. lia.
Qed.

(** [Add(1)] of the accept loop never meets a waiter on a zero counter. *)
Lemma wg_ok_add_guard sp wg :
  wg_ok sp wg -> WaitGroup.waiters wg = 0 \/ (0 < WaitGroup.counter wg)%Z.
Proof. destruct sp; simpl; intuition. Qed.

(** The listener clause when the loop moves between two running states. *)
Ltac loop_iff Hl := rewrite ?Hl; split; intros; discriminate.

(** Closing the clauses of [inv] after a step, from the destructed
    invariant of the state before it. *)
Ltac inv_solve Hl Hwg :=
  first [ done
        | (intros; discriminate)
        | (by left)
        | (match goal with H : loop _ = _ |- _ => rewrite H; first [done | intros; discriminate] end)
        | loop_iff Hl
        | (apply Forall_app; split; [done | constructor; [apply wok_dial | constructor]])
        | (rewrite live_count_spawn, ?Hwg; lia)
        | (right; right; right; split; [done | rewrite ?live_count_spawn; lia])
        | (match goal with |- wg_ok ?sp _ =>
             destruct sp; simpl in *; intuition lia end)
        | lia ].

Lemma inv_acceptConnections s s' :
  inv s -> panicked s = None -> acceptConnections_step s = Some s' -> inv s'.
Proof.
  intros Hinv Hnp Hstep. unfold acceptConnections_step in Hstep.
  destruct Hinv as [Hw Hwg Hr Hwo Hl He Hst Hbl Hp].
  destruct (loop s) eqn:Hloop.
  - destruct (stopChan (ts s)) eqn:Hsc; invc Hstep; constructor; simpl;
      rewrite ?Hsc; inv_solve Hl Hwg.
  - unfold Accept in Hstep. destruct (listenerOpen s) eqn:Hlo.
    + destruct (backlog s) as [|n]; invc Hstep. constructor; simpl; inv_solve Hl Hwg.
    + pose proof (proj1 Hl eq_refl). congruence.
  - destruct (WaitGroup.add_one_cases (connections (ts s))) as [[Hlt Hadd]|[Heq Hadd]];
      [rewrite Hwg; lia | by eapply wg_ok_add_guard | |]; rewrite Hadd in Hstep; invc Hstep;
      constructor; simpl; inv_solve Hl Hwg.
  - done.
Qed.

Lemma inv_accept_error s err s' :
  inv s -> acceptConnections_error err s = Some s' -> inv s'.
Proof.
  intros Hinv Hstep. unfold acceptConnections_error in Hstep.
  destruct Hinv as [Hw Hwg Hr Hwo Hl He Hst Hbl Hp].
  destruct (loop s) eqn:Hloop; invc Hstep.
  constructor; simpl; inv_solve Hl Hwg.
Qed.

(** The deferred [Done] of a live worker: it decrements the counter and
    leaves waiters and semaphore as [wg_ok] wants them, releasing the
    sleeping caller of [Wait] when it reaches zero. *)
Lemma inv_done_step s i w :
  inv s -> workers s !! i = Some w -> is_live w = true ->
  exists wg, WaitGroup.done (connections (ts s)) = inr wg /\
    WaitGroup.counter wg = (WaitGroup.counter (connections (ts s)) - 1)%Z /\
    wg_ok (stopper s) wg.
Proof.
  intros Hinv Hw Hl. pose proof (live_pos _ _ _ Hinv Hw Hl) as Hpos.
  pose proof (inv_waiters _ Hinv) as Hwo.
  destruct (decide (WaitGroup.counter (connections (ts s)) = 1%Z /\
                    WaitGroup.waiters (connections (ts s)) <> 0)) as [[Hc Hn]|Hno].
  - eexists. split; [by apply WaitGroup.done_release|]. simpl. split; [lia|].
    destruct (stopper s); simpl in *; lia.
  - eexists. split; [apply WaitGroup.done_ok; [lia|]|]; [lia|]. simpl. split; [done|].
    destruct (stopper s); simpl in *; lia.
Qed.

Lemma inv_handleConnection s i s' :
  inv s -> panicked s = None -> handleConnection_step i s = Some s' -> inv s'.
Proof.
  intros Hinv Hnp Hstep. unfold handleConnection_step in Hstep.
  destruct (workers s !! i) as [w|] eqn:Hw; [|done]. simpl in Hstep.
  pose proof (worker_ok_lookup _ _ _ Hinv Hw) as Hok.
  inversion Hok as [ | pc k Hk Hpc | ch ci co Hch | pc k ch ci co Hk Hpc Hch]; subst; simpl in Hstep.
  - unfold Dial in Hstep. destruct (localUp s); invc Hstep.
    + eapply inv_set_worker; [done | exact Hw | | done].
      constructor. by constructor.
    + apply inv_log. eapply inv_set_worker; [done | exact Hw | | done].
      by apply (wok_undialled WReturn 0); [lia | left].
  - destruct Hpc as [->|[-> ->]]; [|done].
    destruct k as [|[|[|k]]]; [| | | lia]; simpl in Hstep.
    + invc Hstep. eapply inv_set_worker; [done | exact Hw | | done].
      by apply (wok_undialled WReturn 1); [lia | left].
    + destruct (inv_done_step _ _ _ Hinv Hw eq_refl) as (wg & Hd & Hc & Hwo).
      rewrite Hd in Hstep. invc Hstep.
      eapply inv_set_worker_done; [done | done | exact Hw | | done | done | done | done].
      by apply (wok_undialled WReturn 2); [lia | left].
    + invc Hstep. eapply inv_set_worker; [done | exact Hw | | done].
      by apply (wok_undialled WExited 2); [lia | right].
  - invc Hch. unfold Chan.recv in Hstep.
    destruct ch0 as [cap [|x rest]]; simpl in *; [done|]. invc Hstep.
    eapply inv_set_worker; [done | exact Hw | | done].
    apply (wok_dialled WReturn 0); [lia | by left |].
    constructor; simpl in *; try done. lia.
  - destruct Hpc as [->|[-> ->]]; [|done].
    destruct k as [|[|[|[|k]]]]; [| | | | lia]; simpl in Hstep.
    + invc Hstep. eapply inv_set_worker; [done | exact Hw | | done].
      by apply (wok_dialled WReturn 1); [lia | left |].
    + invc Hstep. eapply inv_set_worker; [done | exact Hw | | done].
      by apply (wok_dialled WReturn 2); [lia | left |].
    + destruct (inv_done_step _ _ _ Hinv Hw eq_refl) as (wg & Hd & Hc & Hwo).
      rewrite Hd in Hstep. invc Hstep.
      eapply inv_set_worker_done; [done | done | exact Hw | | done | done | done | done].
      by apply (wok_dialled WReturn 3); [lia | left |].
    + invc Hstep. eapply inv_set_worker; [done | exact Hw | | done].
      by apply (wok_dialled WExited 3); [lia | right |].
Qed.

Lemma worker_ok_copy_return w d err :
  worker_ok w -> copy_of d w = CopyRunning -> worker_ok (w_with_copy d (CopySending err) w).
Proof.
  intros Hok Hc. inversion Hok as [ | pc k Hk Hpc | ch ci co Hch | pc k ch ci co Hk Hpc Hch];
    subst; destruct d; simpl in *; try discriminate; subst;
    invc Hch; [apply wok_recv | apply wok_recv | apply wok_dialled | apply wok_dialled];
    try done; constructor; done.
Qed.

Lemma inv_copy_return s i d err s' :
  inv s -> copy_return i d err s = Some s' -> inv s'.
Proof.
  intros Hinv Hstep. unfold copy_return in Hstep.
  destruct (workers s !! i) as [w|] eqn:Hw; [|done]. simpl in Hstep.
  destruct (copy_of d w) eqn:Hc; invc Hstep.
  eapply inv_set_worker; [done | exact Hw | | by destruct d].
  apply worker_ok_copy_return; [eapply worker_ok_lookup|]; eauto.
Qed.

Lemma inv_copy_send s i d s' :
  inv s -> copy_send i d s = Some s' -> inv s'.
Proof.
  intros Hinv Hstep. unfold copy_send in Hstep.
  destruct (workers s !! i) as [w|] eqn:Hw; [|done]. simpl in Hstep.
  pose proof (worker_ok_lookup _ _ _ Hinv Hw) as Hok.
  destruct (copy_of d w) eqn:Hc; try done.
  inversion Hok as [ | pc k Hk Hpc | ch ci co Hch | pc k ch ci co Hk Hpc Hch];
    subst; destruct d; simpl in *; try discriminate; subst; invc Hch; simpl in Hstep;
    (destruct (Chan.send err ch0) as [c'|] eqn:Hs; [|done]); simpl in Hstep; invc Hstep;
    unfold Chan.send in Hs; (destruct (decide _) as [Hroom|]; [|done]); invc Hs;
    (eapply inv_set_worker; [done | exact Hw | | done]);
    [apply wok_recv | apply wok_recv | apply wok_dialled | apply wok_dialled]; try done;
    constructor; simpl in *; try done; rewrite length_app; simpl; lia.
Qed.

Lemma inv_Stop_close s s' :
  inv s -> Stop_close s = Some s' -> inv s'.
Proof.
  intros Hinv Hstep. unfold Stop_close, Chan.close in Hstep.
  destruct Hinv as [Hw Hwg Hr Hwo Hl He Hst Hbl Hp].
  destruct (stopper s) eqn:Hsp; try done;
    destruct (stopChan (ts s)) eqn:Hsc; invc Hstep; constructor; simpl;
    rewrite ?Hsp, ?Hsc; try done; try (by right; left);
    try (split; intros; discriminate); try (intros; discriminate);
    first [pose proof (proj2 Hst eq_refl) | pose proof (proj1 Hst eq_refl)]; congruence.
Qed.

Lemma inv_Stop_wait s s' :
  inv s -> Stop_wait s = Some s' -> inv s'.
Proof.
  intros Hinv Hstep. unfold Stop_wait, WaitGroup.wait_register in Hstep.
  destruct Hinv as [Hw Hwg Hr Hwo Hl He Hst Hbl Hp].
  destruct (stopper s) eqn:Hsp; try done. simpl in Hwo.
  destruct (Z.eqb_spec (WaitGroup.counter (connections (ts s))) 0); invc Hstep;
    constructor; simpl; rewrite ?Hsp; try done; try (rewrite Hst; split; intros; discriminate).
  left. split_and!; [lia | lia | lia].
Qed.

Lemma inv_Stop_wake s s' :
  inv s -> Stop_wake s = Some s' -> inv s'.
Proof.
  intros Hinv Hstep. unfold Stop_wake, WaitGroup.wait_wake in Hstep.
  destruct Hinv as [Hw Hwg Hr Hwo Hl He Hst Hbl Hp].
  destruct (stopper s) eqn:Hsp; try done. simpl in Hwo.
  destruct Hwo as [(Hwt & Hsm & Hc)|(Hwt & Hsm)]; rewrite Hsm in Hstep; [done|].
  simpl in Hstep. unfold WaitGroup.state_zero in Hstep. simpl in Hstep. rewrite Hwt in Hstep.
  destruct (Z.eqb_spec (WaitGroup.counter (connections (ts s))) 0); simpl in Hstep; invc Hstep;
    constructor; simpl; rewrite ?Hsp; try done;
    try first [rewrite Hst; split; intros; discriminate | by right; right; left | by right].
Qed.

Lemma inv_peer_connects s : inv s -> inv (peer_connects s).
Proof.
  intros Hinv. unfold peer_connects.
  destruct (listenerOpen s) eqn:Hlo; [|done].
  destruct Hinv as [Hw Hwg Hr Hwo Hl He Hst Hbl Hp].
  constructor; simpl; try done.
  rewrite <- Hl, Hlo. done.
Qed.

Lemma inv_localUp s up : inv s -> inv (with_localUp up s).
Proof. intros []. by constructor. Qed.

#[export] Hint Resolve inv_acceptConnections inv_accept_error inv_handleConnection
  inv_copy_return inv_copy_send inv_Stop_close inv_Stop_wait inv_Stop_wake
  inv_peer_connects inv_localUp inv_log : tunnel.

Lemma inv_exec a s s' : inv s -> exec a s = Some s' -> inv s'.
Proof.
  intros Hinv Hstep. unfold exec in Hstep.
  destruct (panicked s) eqn:Hnp; [done|].
  destruct a; simpl in Hstep; try (invc Hstep); eauto with tunnel.
Qed.

Lemma inv_reachable s : reachable s -> inv s.
Proof. induction 1; [apply inv_started | by eapply inv_exec]. Qed.

(** A worker whose next deferred call is [wg.Done()] has no other one
    left: it was deferred first (line 87), so it runs last. *)
Lemma worker_ok_done_last w rest :
  worker_ok w -> w_defers w = DeferDone :: rest -> rest = [].
Proof.
  intros Hok Hd. inversion Hok as [ | pc k Hk Hpc | ch ci co Hch | pc k ch ci co Hk Hpc Hch];
    subst; simpl in Hd; try discriminate;
    [destruct k as [|[|[|k]]] | destruct k as [|[|[|[|k]]]]]; simpl in Hd; congruence.
Qed.

(** ** Properties of every reachable state *)

(** C9: the only panics are a second [Stop], the reuse of the WaitGroup
    while [Wait] is being released, and the [2^31]-th simultaneous
    connection, whose [wg.Add(1)] overflows the int32 counter;
    [wg.Done()] never drives the counter negative, and [Add] never meets
    a waiter on a zero counter. *)
Theorem only_panics (s : State) (p : go_panic) :
  reachable s -> panicked s = Some p ->
  p = PanicCloseClosed \/ p = PanicWaitGroupReused \/
  (p = PanicNegativeWaitGroup /\ Z.of_nat (live_count (workers s)) = (2^31 - 1)%Z).
Proof.
  intros Hr Hp. destruct (inv_panic _ (inv_reachable _ Hr)) as [H|[H|[H|[H Hl]]]];
    rewrite Hp in H; invc H; auto.
Qed.

Lemma only_panics_witness :
  let s := demo_after [AStopClose; AStopWait; AStopClose] in
  (reachable s /\ panicked s = Some PanicCloseClosed) /\
  (PanicCloseClosed = PanicCloseClosed \/ PanicCloseClosed = PanicWaitGroupReused \/
   (PanicCloseClosed = PanicNegativeWaitGroup /\
    Z.of_nat (live_count (workers s)) = (2^31 - 1)%Z)).
Proof.
  intros s.
  assert (Hr : reachable s) by (apply demo_after_reachable; vm_compute; eauto).
  split; [split; [exact Hr | reflexivity] |].
  exact (only_panics s PanicCloseClosed Hr eq_refl).
Defined.

(** C10: a worker's deferred calls run in reverse order of registration,
    so by the time its [wg.Done()] has run it has closed its public
    connection and, if it dialled, its local connection. *)
Theorem Done_after_closes (s : State) (i : nat) (w : Worker) :
  reachable s -> workers s !! i = Some w -> done_ran w = true ->
  w_publicClosed w = true /\ w_local w <> LocalOpen.
Proof.
  intros Hr Hw Hd.
  exact (worker_ok_done_closed w (worker_ok_lookup _ _ _ (inv_reachable _ Hr) Hw) Hd).
Qed.

Lemma Done_after_closes_witness :
  let s := demo_after (sched_relay ++ [AWorker 0; AWorker 0; AWorker 0; AWorker 0]) in
  let w := mkWorker WReturn [] (Some (Chan.mkbuf 2 [])) CopyExited CopyRunning
             true LocalClosed in
  (reachable s /\ workers s !! 0 = Some w /\ done_ran w = true) /\
  (w_publicClosed w = true /\ w_local w <> LocalOpen).
Proof.
  intros s w.
  assert (Hr : reachable s) by (apply demo_after_reachable; vm_compute; eauto).
  assert (Hw : workers s !! 0 = Some w) by (vm_compute; reflexivity).
  split; [split; [exact Hr | split; [exact Hw | reflexivity]] |].
  exact (Done_after_closes s 0 w Hr Hw eq_refl).
Defined.

(** C14: the WaitGroup's state word stays in range in every reachable
    state: the counter is a non-negative [int32] below [2^31], at most
    one waiter (the caller of [Stop]) is registered and the semaphore
    holds at most one token; a waiter or a token exists only while
    the caller of [Stop] sleeps in [Wait] ([wg_ok]). *)
Theorem wg_state_bounds (s : State) :
  reachable s ->
  (0 <= WaitGroup.counter (connections (ts s)) < 2^31)%Z /\
  WaitGroup.waiters (connections (ts s)) <= 1 /\ WaitGroup.sema (connections (ts s)) <= 1 /\
  wg_ok (stopper s) (connections (ts s)).
Proof.
  intros Hr. pose proof (inv_reachable _ Hr) as Hinv.
  pose proof (inv_wg _ Hinv). pose proof (inv_wg_range _ Hinv).
  pose proof (inv_waiters _ Hinv) as Hwo.
  split; [lia|]. split_and!; [..|done]; destruct (stopper s); simpl in Hwo; lia.
Qed.

Lemma wg_state_bounds_witness :
  let s := demo_after (sched_relay ++ [AStopClose; AStopWait]) in
  reachable s /\
  ((0 <= WaitGroup.counter (connections (ts s)) < 2^31)%Z /\
   WaitGroup.waiters (connections (ts s)) <= 1 /\ WaitGroup.sema (connections (ts s)) <= 1 /\
   wg_ok (stopper s) (connections (ts s))).
Proof.
  intros s.
  assert (Hr : reachable s) by (apply demo_after_reachable; vm_compute; eauto).
  split; [exact Hr | exact (wg_state_bounds s Hr)].
Defined.

(** C15: every relay worker of a reachable state has one of the shapes
    [handleConnection] can produce: its defer stack is a suffix of the
    stack its code builds, its [errChan] exists exactly when it dialled,
    holds capacity 2 and accounts for every value sent, and its
    connections are closed exactly by the deferred calls that have
    run. *)
Theorem workers_well_formed (s : State) :
  reachable s -> Forall worker_ok (workers s).
Proof. intros Hr. apply (inv_workers _ (inv_reachable _ Hr)). Qed.

Lemma workers_well_formed_witness :
  let s := demo_after sched_relay in
  reachable s /\ Forall worker_ok (workers s).
Proof.
  intros s.
  assert (Hr : reachable s) by (apply demo_after_reachable; vm_compute; eauto).
  split; [exact Hr | exact (workers_well_formed s Hr)].
Defined.
