(* ===== verification/TunnelLive.v ===== *)
(** * Progress of the relay workers and the return of Stop

    [pending_work] bounds the steps the live workers still need before
    their deferred [Done]; [worker_progress] gives every live worker an
    action that lowers it without touching [Stop] and without a panic.
    By well-founded induction on [pending_work] the workers alone bring
    the WaitGroup to zero, after which [Stop]'s [Wait] returns
    ([Stop_returns]), and every worker runs to its exit
    ([workers_terminate]).  The tactic [worker_step] runs one
    non-blocking statement of a worker inside a schedule. *)

From S2P Require Import Prelude GoRuntime TunnelState TunnelInv.

(** ** Definitions *)

(** Steps worker [w] still needs before its goroutine exits. *)
Definition wmeasure (w : Worker) : nat :=
  match w_pc w with
  | WDial => 9
  | WRecv =>
      5 + match w_errChan w with
          | Some (Chan.mkbuf _ []) =>
              match w_copyIn w with CopyRunning => 2 | CopySending _ => 1 | _ => 0 end
          | _ => 0
          end
  | WReturn => S (length (w_defers w))
  | WExited => 0
  end.

Definition is_exited (w : Worker) : bool :=
  match w_pc w with WExited => true | _ => false end.

Definition pending_work (s : State) : nat := sum_list_with wmeasure (workers s).

(** The action that brings worker [i] closer to its [wg.Done()]: at the
    receive with nothing buffered, the first copy goroutine returns and
    sends; otherwise the worker itself steps. *)
Definition next_action (i : nat) (w : Worker) : action :=
  match w_pc w, w_errChan w with
  | WRecv, Some (Chan.mkbuf _ []) =>
      match w_copyIn w with
      | CopyRunning => ACopyReturn i PublicToLocal None
      | _ => ACopySend i PublicToLocal
      end
  | _, _ => AWorker i
  end.

(** The actions of the workers, of their copy goroutines returning with a
    nil error, and of [Stop]'s [Wait]: no new connection, no change of
    the local service. *)
Definition worker_action (a : action) : Prop :=
  match a with
  | AWorker _ | ACopyReturn _ _ None | ACopySend _ _ | AStopWait | AStopWake => True
  | _ => False
  end.

(** The statement the caller of [Stop] runs next inside [Wait]: the
    wake-up when it sleeps, the check of the counter otherwise. *)
Definition stop_wait_action (sp : stop_pc) : action :=
  match sp with StopSleeping => AStopWake | _ => AStopWait end.

(** ** Progress *)

Lemma pending_work_set (ws : list Worker) i w w' :
  ws !! i = Some w -> wmeasure w' < wmeasure w ->
  sum_list_with wmeasure (<[i:=w']> ws) < sum_list_with wmeasure ws.
Proof. intros Hw Hlt. pose proof (sum_list_with_insert wmeasure _ _ _ w' Hw). lia. Qed.

Ltac progress_tac Hw :=
  eexists; split; [reflexivity|]; split; [reflexivity|]; split; [simpl_state; done|];
  unfold pending_work; simpl_state; apply (pending_work_set _ _ _ _ Hw);
  unfold wmeasure, Chan.make, w_with_pc, w_with_chan, w_with_copy; simpl; lia.

(** Every worker that has not exited can make progress without a panic
    and without touching [Stop]. *)
Lemma worker_progress s i w :
  inv s -> panicked s = None -> workers s !! i = Some w -> is_exited w = false ->
  exists s', exec (next_action i w) s = Some s' /\ stopper s' = stopper s /\
    panicked s' = None /\ pending_work s' < pending_work s.
Proof.
  intros Hinv Hnp Hw Hx. pose proof (worker_ok_lookup _ _ _ Hinv Hw) as Hok.
  unfold exec. rewrite Hnp.
  inversion Hok as [ | pc k Hk Hpc | ch ci co Hch | pc k ch ci co Hk Hpc Hch]; subst;
    simpl in Hx.
  - cbn. unfold handleConnection_step, Dial. rewrite Hw. simpl.
    destruct (localUp s); progress_tac Hw.
  - destruct Hpc as [->|[-> ->]]; [|done].
    destruct k as [|[|[|k]]]; [| | | lia]; cbn;
      unfold handleConnection_step; rewrite Hw; simpl.
    + progress_tac Hw.
    + destruct (inv_done_step _ _ _ Hinv Hw eq_refl) as (wg & Hd & _).
      rewrite Hd. progress_tac Hw.
    + progress_tac Hw.
  - invc Hch. destruct ch0 as [cap [|x rest]]; simpl in *.
    + destruct ci; try done; simpl in *; try lia.
      * unfold copy_return. rewrite Hw. progress_tac Hw.
      * unfold copy_send. rewrite Hw. simpl. rewrite Chan.send_room by (simpl; lia).
        progress_tac Hw.
    + unfold handleConnection_step. rewrite Hw. progress_tac Hw.
  - destruct Hpc as [->|[-> ->]]; [|done].
    destruct k as [|[|[|[|k]]]]; [| | | | lia]; cbn;
      unfold handleConnection_step; rewrite Hw; simpl.
    + progress_tac Hw.
    + progress_tac Hw.
    + destruct (inv_done_step _ _ _ Hinv Hw eq_refl) as (wg & Hd & _).
      rewrite Hd. progress_tac Hw.
    + progress_tac Hw.
Qed.

Lemma next_action_worker_step i w : worker_step_action (next_action i w) = true.
Proof.
  unfold next_action.
  destruct (w_pc w), (w_errChan w) as [[? []]|]; try done; by destruct (w_copyIn w).
Qed.

Lemma next_action_worker_action i w : worker_action (next_action i w).
Proof.
  unfold next_action.
  destruct (w_pc w), (w_errChan w) as [[? []]|]; try done; by destruct (w_copyIn w).
Qed.

(** An exited worker has run its deferred [Done]. *)
Lemma exited_not_live w : worker_ok w -> is_exited w = true -> is_live w = false.
Proof.
  intros Hok Hx. inversion Hok as [ | pc k Hk Hpc | ch ci co Hch | pc k ch ci co Hk Hpc Hch];
    subst; simpl in Hx; try discriminate;
    destruct Hpc as [->|[-> ->]]; done.
Qed.

Lemma count_exited ws :
  count_if (fun w => negb (is_exited w)) ws = 0 -> Forall (fun w => is_exited w = true) ws.
Proof.
  intros H. apply count_if_zero in H. eapply Forall_impl; [exact H|].
  intros w Hw. cbn beta in Hw. destruct (is_exited w); simpl in Hw; congruence.
Qed.

(** The workers and their copy goroutines alone run every worker to its
    exit, by well-founded induction on [pending_work]. *)
Lemma drive_workers s :
  reachable s -> panicked s = None ->
  exists acts s', Forall worker_action acts /\ run acts s = Some s' /\
    reachable s' /\ panicked s' = None /\ stopper s' = stopper s /\
    length (workers s') = length (workers s) /\
    Forall (fun w => is_exited w = true) (workers s') /\
    Forall (fun a => worker_step_action a = true) acts.
Proof.
  remember (pending_work s) as n eqn:Hn. revert s Hn.
  induction n as [n IH] using lt_wf_ind. intros s -> Hr Hnp.
  pose proof (inv_reachable _ Hr) as Hinv.
  destruct (decide (count_if (fun w => negb (is_exited w)) (workers s) = 0)) as [Hz|Hnz].
  - exists [], s. split_and!; try done. by apply count_exited.
  - destruct (count_if_pos _ _ Hnz) as (i & w & Hw & Hx). apply negb_true_iff in Hx.
    destruct (worker_progress s i w Hinv Hnp Hw Hx) as (s1 & Hs1 & Hst1 & Hnp1 & Hlt).
    destruct (IH _ Hlt s1 eq_refl (reach_step _ _ _ Hr Hs1) Hnp1)
      as (acts & s' & Hacts & Hrun & Hr' & Hnp' & Hst' & Hlen' & Hall & Hws).
    exists (next_action i w :: acts), s'.
    split_and!; try done.
    + constructor; [apply next_action_worker_action | done].
    + by cbn [run]; rewrite Hs1.
    + congruence.
    + rewrite Hlen'. by destruct (worker_frame _ _ _ (next_action_worker_step i w) Hs1).
    + constructor; [apply next_action_worker_step | done].
Qed.

(** With no live worker the caller of [Stop] returns in one step: from
    [Wait]'s check the counter is zero; asleep, it has been released. *)
Lemma Stop_finishes s :
  inv s -> panicked s = None -> live_count (workers s) = 0 ->
  stopper s = StopWaitLoop \/ stopper s = StopSleeping ->
  exists s', exec (stop_wait_action (stopper s)) s = Some s' /\
    stopper s' = StopReturned /\ LogStopped ∈ logs s' /\ panicked s' = None.
Proof.
  intros Hinv Hnp Hz Hst. pose proof (inv_wg _ Hinv) as Hwg. rewrite Hz in Hwg.
  pose proof (inv_waiters _ Hinv) as Hwo.
  destruct Hst as [Hst|Hst]; rewrite Hst in Hwo |- *; simpl in Hwo.
  - eexists. unfold exec. rewrite Hnp. cbn. unfold Stop_wait, WaitGroup.wait_register.
    rewrite Hst, Hwg. simpl. split_and!; [reflexivity | done | by left | done].
  - destruct Hwo as [(_ & _ & Hc)|(Hw0 & Hs1)]; [lia|].
    eexists. unfold exec. rewrite Hnp. cbn. unfold Stop_wake, WaitGroup.wait_wake.
    rewrite Hst, Hs1. simpl. unfold WaitGroup.state_zero. simpl. rewrite Hwg, Hw0. simpl.
    split_and!; [reflexivity | done | by left | done].
Qed.

Lemma stop_wait_action_worker sp : worker_action (stop_wait_action sp).
Proof. by destruct sp. Qed.

(** Once every worker has exited, none is live. *)
Lemma exited_no_live s :
  inv s -> Forall (fun w => is_exited w = true) (workers s) -> live_count (workers s) = 0.
Proof.
  intros Hinv Hall. apply count_if_zero.
  pose proof (List.Forall_and Hall (inv_workers _ Hinv)) as H.
  eapply Forall_impl; [exact H|]. intros w [Hx Hok]. by apply exited_not_live.
Qed.

(** One step of worker [i] that [handleConnection_step] takes without
    blocking, inside a schedule; [Hd] gives the result of its [Done]. *)
Ltac worker_step Hnp Hd :=
  erewrite run_cons_Some;
  [| unfold exec; simpl_state; rewrite Hnp; unfold handleConnection_step; simpl_state;
     rewrite list_lookup_insert_eq by (rewrite ?length_insert; done); simpl;
     simpl_state; rewrite ?Hd; reflexivity].

(** ** Properties *)

(** C4: [Stop] returns: from any reachable state where the caller of
    [Stop] is in [Wait] and nothing has panicked, the relay workers and
    their copy goroutines alone can bring the counter to zero, after
    which [Wait] returns and "Tunnel stopped" is logged.  No new
    connection and no help from the local service is needed. *)
Theorem Stop_returns (s : State) :
  reachable s -> panicked s = None ->
  stopper s = StopWaitLoop \/ stopper s = StopSleeping ->
  exists acts s', Forall worker_action acts /\ run acts s = Some s' /\
    stopper s' = StopReturned /\ LogStopped ∈ logs s'.
Proof.
  intros Hr Hnp Hst.
  destruct (drive_workers s Hr Hnp) as (acts & s1 & Hacts & Hrun & Hr1 & Hnp1 & Hst1 & _ & Hall & _).
  pose proof (inv_reachable _ Hr1) as Hinv1.
  destruct (Stop_finishes s1 Hinv1 Hnp1 (exited_no_live s1 Hinv1 Hall) ltac:(by rewrite Hst1))
    as (s' & Hs' & Hret & Hlog & _).
  exists (acts ++ [stop_wait_action (stopper s1)]), s'. split_and!; try done.
  - apply Forall_app. split; [done | constructor; [apply stop_wait_action_worker | done]].
  - rewrite run_app, Hrun. simpl. by rewrite Hs'.
Qed.

Lemma Stop_returns_witness :
  let s := demo_after (sched_relay ++ [AStopClose; AStopWait]) in
  (reachable s /\ panicked s = None /\
   (stopper s = StopWaitLoop \/ stopper s = StopSleeping)) /\
  exists acts s', Forall worker_action acts /\ run acts s = Some s' /\
    stopper s' = StopReturned /\ LogStopped ∈ logs s'.
Proof.
  intros s.
  assert (Hr : reachable s) by (apply demo_after_reachable; vm_compute; eauto).
  assert (Hp : panicked s = None) by (vm_compute; reflexivity).
  assert (Hst : stopper s = StopWaitLoop \/ stopper s = StopSleeping) by (right; vm_compute; reflexivity).
  split; [split_and!; assumption | exact (Stop_returns s Hr Hp Hst)].
Defined.

(** C13: termination of the relay workers: from any reachable state
    without a panic, the workers and their copy goroutines alone run
    every [handleConnection] goroutine to its end: each one has dialled
    or failed to, received from [errChan] if it dialled, run its three or
    two deferred calls and exited. *)
Theorem workers_terminate (s : State) :
  reachable s -> panicked s = None ->
  exists acts s', Forall worker_action acts /\ run acts s = Some s' /\
    length (workers s') = length (workers s) /\
    Forall (fun w => w_pc w = WExited /\ w_defers w = [] /\ w_publicClosed w = true) (workers s').
Proof.
  intros Hr Hnp.
  destruct (drive_workers s Hr Hnp) as (acts & s' & Hacts & Hrun & Hr' & _ & _ & Hlen & Hall & _).
  exists acts, s'. split_and!; try done.
  pose proof (List.Forall_and Hall (inv_workers _ (inv_reachable _ Hr'))) as H.
  eapply Forall_impl; [exact H|]. intros w [Hx Hok].
  inversion Hok as [ | pc k Hk Hpc | ch ci co Hch | pc k ch ci co Hk Hpc Hch];
    subst; simpl in Hx; try discriminate; destruct Hpc as [->|[-> ->]]; done.
Qed.

Lemma workers_terminate_witness :
  let s := demo_after sched_relay in
  (reachable s /\ panicked s = None) /\
  exists acts s', Forall worker_action acts /\ run acts s = Some s' /\
    length (workers s') = length (workers s) /\
    Forall (fun w => w_pc w = WExited /\ w_defers w = [] /\ w_publicClosed w = true) (workers s').
Proof.
  intros s.
  assert (Hr : reachable s) by (apply demo_after_reachable; vm_compute; eauto).
  assert (Hp : panicked s = None) by (vm_compute; reflexivity).
  split; [split; assumption | exact (workers_terminate s Hr Hp)].
Defined.
