(* ===== verification/TunnelProps.v ===== *)
(** * The tunnel against its specification

    The spec's data model (spec.md, section 3) describes the tunnel as
    an abstract [Tunnel]: the local and public ports,
    [liveConnectionCount], the monotonic [shutdownRequested] flag and a
    lifecycle (listening, draining, stopped), with one RelayPair per
    accepted connection, running or finished.  [spec_step] is the
    abstract machine of sections 3 and 4: an accept creates a running
    relay and counts it, a relay finishes and is uncounted, [Stop]
    requests shutdown and later returns, only once no relay is counted;
    the listener closes its socket once shutdown is requested.  The
    accept race that section 4.1 allows is the [acceptPending] flag: an
    [Accept] that passed the shutdown check may still create one relay.

    [abs] reads the abstract tunnel off a state of [TunnelState]:
    [liveConnectionCount] is the WaitGroup's counter, [shutdownRequested]
    is [stopChan] closed, a relay runs while its worker has not run
    [wg.Done()].  [exec_refines] shows that every step of the program
    is a step of the abstract machine or leaves the abstraction as it
    is; the invariant of the abstract machine ([spec_inv]) then holds in
    every reachable state of the program.  The other theorems are the
    shutdown properties of the code, stated against [abs], with the
    schedules that exhibit the races the spec does not allow. *)

From S2P Require Import Prelude GoRuntime TunnelState TunnelInv TunnelLive.

(** ** The spec's tunnel *)

Inductive relay_status := RelayRunning | RelayFinished.

Inductive lifecycle := Listening | Draining | Stopped.

Record Tunnel := mkTunnel {
  t_localPort : Z;
  t_publicPort : Z;
  liveConnectionCount : Z;
  shutdownRequested : bool;
  socketOpen : bool;            (** the public listening socket *)
  acceptPending : bool;         (** an [Accept] has passed the shutdown check *)
  phase : lifecycle;
  relays : list relay_status    (** one per accepted connection, in order *)
}.

Definition is_running (r : relay_status) : bool :=
  match r with RelayRunning => true | RelayFinished => false end.

(** The tunnel once [Start] has returned. *)
Definition spec_init (lport pport : Z) : Tunnel :=
  mkTunnel lport pport 0 false true false Listening [].

(** The moves of the abstract machine, as updates. *)
Definition begin_accept (t : Tunnel) : Tunnel :=
  mkTunnel (t_localPort t) (t_publicPort t) (liveConnectionCount t) (shutdownRequested t)
    (socketOpen t) true (phase t) (relays t).

Definition abort_accept (t : Tunnel) : Tunnel :=
  mkTunnel (t_localPort t) (t_publicPort t) (liveConnectionCount t) (shutdownRequested t)
    (socketOpen t) false (phase t) (relays t).

Definition create_relay (t : Tunnel) : Tunnel :=
  mkTunnel (t_localPort t) (t_publicPort t) (liveConnectionCount t + 1) (shutdownRequested t)
    (socketOpen t) false (phase t) (relays t ++ [RelayRunning]).

Definition close_socket (t : Tunnel) : Tunnel :=
  mkTunnel (t_localPort t) (t_publicPort t) (liveConnectionCount t) (shutdownRequested t)
    false (acceptPending t) (phase t) (relays t).

Definition finish_relay (i : nat) (t : Tunnel) : Tunnel :=
  mkTunnel (t_localPort t) (t_publicPort t) (liveConnectionCount t - 1) (shutdownRequested t)
    (socketOpen t) (acceptPending t) (phase t) (<[i:=RelayFinished]> (relays t)).

Definition request_shutdown (t : Tunnel) : Tunnel :=
  mkTunnel (t_localPort t) (t_publicPort t) (liveConnectionCount t) true
    (socketOpen t) (acceptPending t) Draining (relays t).

Definition stop_return (t : Tunnel) : Tunnel :=
  mkTunnel (t_localPort t) (t_publicPort t) (liveConnectionCount t) (shutdownRequested t)
    (socketOpen t) (acceptPending t) Stopped (relays t).

(** Sections 3 and 4 of the spec as a transition system. *)
Inductive spec_step : Tunnel -> Tunnel -> Prop :=
| SpecBeginAccept t :
    shutdownRequested t = false -> socketOpen t = true -> acceptPending t = false ->
    spec_step t (begin_accept t)
| SpecAbortAccept t : acceptPending t = true -> spec_step t (abort_accept t)
| SpecCreateRelay t : acceptPending t = true -> spec_step t (create_relay t)
| SpecCloseSocket t :
    shutdownRequested t = true -> socketOpen t = true -> acceptPending t = false ->
    spec_step t (close_socket t)
| SpecFinishRelay t i : relays t !! i = Some RelayRunning -> spec_step t (finish_relay i t)
| SpecRequestShutdown t : phase t = Listening -> spec_step t (request_shutdown t)
| SpecStopReturn t :
    phase t = Draining -> liveConnectionCount t = 0%Z -> spec_step t (stop_return t).

(** A step of the abstract machine, or none. *)
Definition spec_step_or_stay (t t' : Tunnel) : Prop := spec_step t t' \/ t' = t.

Inductive spec_reachable : Tunnel -> Prop :=
| spec_reach_init lport pport : spec_reachable (spec_init lport pport)
| spec_reach_step t t' : spec_reachable t -> spec_step t t' -> spec_reachable t'.

(** The invariants of section 3: the counter is the number of running
    relays, and shutdown is requested exactly when the tunnel has left
    the listening phase. *)
Record spec_inv (t : Tunnel) : Prop := {
  si_count : liveConnectionCount t = Z.of_nat (count_if is_running (relays t));
  si_shutdown : shutdownRequested t = false <-> phase t = Listening
}.

(** The relays that exist, plus the one an accept in flight may add. *)
Definition relay_budget (t : Tunnel) : nat :=
  length (relays t) + (if acceptPending t then 1 else 0).

(** ** The abstraction of a program state *)

Definition relay_of (w : Worker) : relay_status :=
  if is_live w then RelayRunning else RelayFinished.

Definition accept_pending (l : loop_pc) : bool :=
  match l with LoopAccept | LoopAdd => true | LoopSelect | LoopExited => false end.

Definition phase_of (sp : stop_pc) : lifecycle :=
  match sp with
  | StopIdle => Listening
  | StopWaitLoop | StopSleeping => Draining
  | StopReturned => Stopped
  end.

Definition abs (s : State) : Tunnel :=
  mkTunnel (localPort (ts s)) (publicPort (ts s)) (WaitGroup.counter (connections (ts s)))
    (stopChan (ts s)) (listenerOpen s) (accept_pending (loop s)) (phase_of (stopper s))
    (relay_of <$> workers s).

(** ** Schedules *)

(** Shutdown with the accept loop blocked in [Accept]: [Stop] closes
    [stopChan] and returns at once. *)
Definition sched_stop_in_accept : list action := [ALoop; AStopClose; AStopWait].

(** ** The abstract machine *)

Lemma spec_inv_init lport pport : spec_inv (spec_init lport pport).
Proof. by constructor. Qed.

Lemma spec_inv_step t t' : spec_inv t -> spec_step t t' -> spec_inv t'.
Proof.
  intros [Hc Hs] Hstep. destruct Hstep as [t|t|t|t|t i Hi|t Hp|t Hp Hz];
    constructor; simpl; try done.
  - rewrite count_if_app, Hc. change (count_if is_running [RelayRunning]) with 1. lia.
  - pose proof (count_if_insert is_running _ _ _ RelayFinished Hi). simpl in *. lia.
  - rewrite Hs, Hp. split; intros; discriminate.
Qed.

Lemma spec_reachable_inv t : spec_reachable t -> spec_inv t.
Proof. induction 1; [apply spec_inv_init | by eapply spec_inv_step]. Qed.

(** With no relay counted, every relay has finished. *)
Lemma spec_drained t :
  spec_inv t -> liveConnectionCount t = 0%Z -> Forall (fun r => r = RelayFinished) (relays t).
Proof.
  intros [Hc _] Hz. rewrite Hc in Hz.
  assert (H : count_if is_running (relays t) = 0) by lia.
  apply count_if_zero in H. eapply Forall_impl; [exact H|]. by intros [].
Qed.

(** Only [Stop]'s return enters the stopped phase, and it needs a zero
    count. *)
Lemma spec_step_stopped t t' :
  spec_step t t' -> phase t <> Stopped -> phase t' = Stopped -> liveConnectionCount t' = 0%Z.
Proof. intros Hstep Hne Hp. by destruct Hstep; simpl in *; try congruence. Qed.

(** Once shutdown is requested it stays so, and no move raises the
    relay budget: no accept can begin any more. *)
Lemma spec_step_budget t t' :
  shutdownRequested t = true -> spec_step t t' ->
  shutdownRequested t' = true /\ relay_budget t' <= relay_budget t.
Proof.
  intros Hsd Hstep. unfold relay_budget.
  destruct Hstep as [t Hf|t Hp|t Hp|t|t i Hi|t Hp|t Hp Hz]; simpl; split; try congruence;
    rewrite ?Hp, ?length_app, ?length_insert; simpl; lia.
Qed.

Lemma spec_budget_rtc t t' :
  shutdownRequested t = true -> rtc spec_step_or_stay t t' ->
  shutdownRequested t' = true /\ relay_budget t' <= relay_budget t.
Proof.
  intros Hsd Hrtc. induction Hrtc as [|x y z Hxy _ IH]; [done|].
  destruct Hxy as [Hs|Heq]; [|subst; by apply IH].
  destruct (spec_step_budget x y Hsd Hs) as [Hy Hle].
  destruct (IH Hy). split; [done | lia].
Qed.

(** ** Refinement *)

Lemma abs_log (l : log_line) (s : State) : abs (log l s) = abs s.
Proof. reflexivity. Qed.

Lemma relay_of_lookup s i w :
  workers s !! i = Some w -> relays (abs s) !! i = Some (relay_of w).
Proof. intros Hw. simpl. by rewrite list_lookup_fmap, Hw. Qed.

(** Replacing a worker by one exactly as live leaves the abstraction. *)
Lemma abs_set_worker s i w w' :
  workers s !! i = Some w -> is_live w' = is_live w -> abs (set_worker i w' s) = abs s.
Proof.
  intros Hw Hl. unfold abs, set_worker. simpl. rewrite list_fmap_insert.
  replace (relay_of w') with (relay_of w) by (unfold relay_of; by rewrite Hl).
  rewrite list_insert_id; [done|]. by rewrite list_lookup_fmap, Hw.
Qed.

Lemma spec_step_to t t1 t' : spec_step t t1 -> t' = t1 -> spec_step_or_stay t t'.
Proof. intros H ->. by left. Qed.

Lemma listener_open_running s : inv s -> loop s <> LoopExited -> listenerOpen s = true.
Proof. intros Hinv Hl. destruct (listenerOpen s) eqn:E; [done|]. by apply (inv_listener _ Hinv) in E. Qed.

(** Worker [i] changes without changing its liveness. *)
Ltac stay_worker Hw := right; rewrite ?abs_log; eapply abs_set_worker; [exact Hw | reflexivity].

(** Worker [i] runs its deferred [wg.Done()]: its relay finishes. *)
Ltac finish_worker Hinv Hw Hs :=
  destruct (inv_done_step _ _ _ Hinv Hw eq_refl) as (wg & Hd & Hc & _);
  rewrite Hd in Hs; invc Hs; eapply spec_step_to;
  [apply SpecFinishRelay; by rewrite (relay_of_lookup _ _ _ Hw)
  | unfold abs, finish_relay, set_worker; simpl; rewrite list_fmap_insert, Hc; reflexivity].

Section Refinement.
Context (s : State) (Hinv : inv s).

Lemma refine_accept s' :
  acceptConnections_step s = Some s' -> spec_step_or_stay (abs s) (abs s').
Proof.
  intros Hs. unfold acceptConnections_step in Hs.
  pose proof (listener_open_running s Hinv) as Hlo.
  destruct (loop s) eqn:Hl.
  - destruct (stopChan (ts s)) eqn:Hsc; invc Hs; eapply spec_step_to.
    + apply SpecCloseSocket; simpl; rewrite ?Hl; [done | by apply Hlo | done].
    + unfold abs, close_socket; simpl. by rewrite ?Hl.
    + apply SpecBeginAccept; simpl; rewrite ?Hl; [done | by apply Hlo | done].
    + unfold abs, begin_accept; simpl. by rewrite ?Hl.
  - unfold Accept in Hs. destruct (listenerOpen s) eqn:Ho;
      [destruct (backlog s); [done|]|]; simpl in Hs; invc Hs.
    + right. unfold abs; simpl. by rewrite ?Hl, ?Ho.
    + eapply spec_step_to; [apply SpecAbortAccept; simpl; by rewrite Hl|].
      unfold abs, abort_accept; simpl. by rewrite ?Hl.
  - destruct (WaitGroup.add_one_cases (connections (ts s))) as [[Hlt Hadd]|[Heq Hadd]];
      [rewrite (inv_wg _ Hinv); pose proof (inv_wg_range _ Hinv); lia
      | eapply wg_ok_add_guard, (inv_waiters _ Hinv) | |];
      rewrite Hadd in Hs; invc Hs; [|by right].
    eapply spec_step_to; [apply SpecCreateRelay; simpl; by rewrite Hl|].
    unfold abs, create_relay; simpl. by rewrite fmap_app, ?Hl.
  - done.
Qed.

Lemma refine_accept_error err s' :
  acceptConnections_error err s = Some s' -> spec_step_or_stay (abs s) (abs s').
Proof.
  intros Hs. unfold acceptConnections_error in Hs. destruct (loop s) eqn:Hl; invc Hs.
  eapply spec_step_to; [apply SpecAbortAccept; simpl; by rewrite Hl|].
  unfold abs, abort_accept; simpl. by rewrite ?Hl.
Qed.

Lemma refine_worker i s' :
  handleConnection_step i s = Some s' -> spec_step_or_stay (abs s) (abs s').
Proof.
  intros Hs. unfold handleConnection_step in Hs.
  destruct (workers s !! i) as [w|] eqn:Hw; [|done]. simpl in Hs.
  pose proof (worker_ok_lookup _ _ _ Hinv Hw) as Hok.
  inversion Hok as [ | pc k Hk Hpc | ch ci co Hch | pc k ch ci co Hk Hpc Hch]; subst; simpl in Hs.
  - unfold Dial in Hs. destruct (localUp s); invc Hs; stay_worker Hw.
  - destruct Hpc as [->|[-> ->]]; [|done].
    destruct k as [|[|[|k]]]; [| | | lia]; simpl in Hs.
    + invc Hs. stay_worker Hw.
    + finish_worker Hinv Hw Hs.
    + invc Hs. stay_worker Hw.
  - invc Hch. unfold Chan.recv in Hs.
    destruct ch0 as [cap [|x rest]]; simpl in *; [done|]. invc Hs. stay_worker Hw.
  - destruct Hpc as [->|[-> ->]]; [|done].
    destruct k as [|[|[|[|k]]]]; [| | | | lia]; simpl in Hs.
    + invc Hs. stay_worker Hw.
    + invc Hs. stay_worker Hw.
    + finish_worker Hinv Hw Hs.
    + invc Hs. stay_worker Hw.
Qed.

Lemma refine_copy_return i d err s' : copy_return i d err s = Some s' -> abs s' = abs s.
Proof.
  intros Hs. unfold copy_return in Hs.
  destruct (workers s !! i) as [w|] eqn:Hw; [|done]. simpl in Hs.
  destruct (copy_of d w); invc Hs. apply (abs_set_worker _ _ _ _ Hw). by destruct d.
Qed.

Lemma refine_copy_send i d s' : copy_send i d s = Some s' -> abs s' = abs s.
Proof.
  intros Hs. unfold copy_send in Hs.
  destruct (workers s !! i) as [w|] eqn:Hw; [|done]. simpl in Hs.
  destruct (copy_of d w); try done. destruct (w_errChan w) as [ch|]; [|done]. simpl in Hs.
  destruct (Chan.send _ ch); [|done]. simpl in Hs. invc Hs.
  apply (abs_set_worker _ _ _ _ Hw). by destruct d.
Qed.

Lemma refine_stop_close s' :
  Stop_close s = Some s' -> spec_step_or_stay (abs s) (abs s').
Proof.
  intros Hs. unfold Stop_close, Chan.close in Hs.
  destruct (stopper s) eqn:Hsp; try done;
    destruct (stopChan (ts s)) eqn:Hsc; invc Hs; try by right.
  - eapply spec_step_to; [apply SpecRequestShutdown; simpl; by rewrite ?Hsp|].
    unfold abs, request_shutdown; simpl. by rewrite ?Hsp.
  - pose proof (proj1 (inv_stopper _ Hinv) Hsc). congruence.
Qed.

Lemma refine_stop_wait s' :
  Stop_wait s = Some s' -> spec_step_or_stay (abs s) (abs s').
Proof.
  intros Hs. unfold Stop_wait, WaitGroup.wait_register in Hs.
  destruct (stopper s) eqn:Hsp; try done.
  destruct (Z.eqb_spec (WaitGroup.counter (connections (ts s))) 0) as [Hz|Hz]; invc Hs.
  - eapply spec_step_to; [apply SpecStopReturn; simpl; by rewrite ?Hsp|].
    unfold abs, stop_return; simpl. by rewrite ?Hsp.
  - right. unfold abs; simpl. by rewrite ?Hsp.
Qed.

Lemma refine_stop_wake s' :
  Stop_wake s = Some s' -> spec_step_or_stay (abs s) (abs s').
Proof.
  intros Hs. unfold Stop_wake, WaitGroup.wait_wake in Hs.
  destruct (stopper s) eqn:Hsp; try done.
  destruct (WaitGroup.sema _) as [|n]; [done|]. simpl in Hs.
  unfold WaitGroup.state_zero in Hs. simpl in Hs.
  destruct (_ && _) eqn:Hz; simpl in Hs; invc Hs; [|by right].
  apply andb_true_iff in Hz as [Hz _]. apply Z.eqb_eq in Hz.
  eapply spec_step_to; [apply SpecStopReturn; simpl; by rewrite ?Hsp|].
  unfold abs, stop_return; simpl. by rewrite ?Hsp.
Qed.

Lemma refine_peer_connects : abs (peer_connects s) = abs s.
Proof. unfold peer_connects. destruct (listenerOpen s) eqn:Ho; [|done]. unfold abs; simpl. by rewrite Ho. Qed.

(** Every step of the program is a step of the spec's tunnel, or none. *)
Lemma abs_exec a s' : exec a s = Some s' -> spec_step_or_stay (abs s) (abs s').
Proof.
  intros Hs. unfold exec in Hs. destruct (panicked s); [done|].
  destruct a; simpl in Hs.
  - by apply refine_accept.
  - by eapply refine_accept_error.
  - by eapply refine_worker.
  - right. by eapply refine_copy_return.
  - right. by eapply refine_copy_send.
  - by apply refine_stop_close.
  - by apply refine_stop_wait.
  - by apply refine_stop_wake.
  - invc Hs. right. apply refine_peer_connects.
  - invc Hs. by right.
Qed.

End Refinement.

Lemma abs_reachable s : reachable s -> spec_reachable (abs s).
Proof.
  induction 1 as [lport pport up|a s s' Hr IH Hs]; [exact (spec_reach_init lport pport)|].
  destruct (abs_exec s (inv_reachable _ Hr) a s' Hs) as [H|H];
    [by eapply spec_reach_step | by rewrite H].
Qed.

Lemma abs_rtc s s' : reachable s -> rtc step s s' -> rtc spec_step_or_stay (abs s) (abs s').
Proof.
  intros Hr Hrtc. induction Hrtc as [|x y z [a Ha] _ IH]; [done|].
  eapply rtc_l; [exact (abs_exec x (inv_reachable _ Hr) a y Ha) | apply IH; by eapply reach_step].
Qed.

(** Workers whose relay has finished have closed both connections. *)
Lemma finished_closed s :
  inv s -> Forall (fun r => r = RelayFinished) (relays (abs s)) ->
  Forall (fun w => w_publicClosed w = true /\ w_local w <> LocalOpen) (workers s).
Proof.
  intros Hinv H. simpl in H. apply Forall_fmap in H.
  pose proof (List.Forall_and H (inv_workers _ Hinv)) as Hall.
  eapply Forall_impl; [exact Hall|]. intros w [Hr Hok].
  apply worker_ok_done_closed; [done|]. unfold compose, relay_of, is_live in Hr.
  by destruct (done_ran w).
Qed.

(** A copy goroutine at [errChan <- err] finds room in the channel. *)
Lemma copy_send_room s i w d err :
  inv s -> workers s !! i = Some w -> copy_of d w = CopySending err ->
  is_Some (copy_send i d s).
Proof.
  intros Hinv Hw Hc. pose proof (worker_ok_lookup _ _ _ Hinv Hw) as Hok.
  unfold copy_send. rewrite Hw. simpl. rewrite Hc.
  inversion Hok as [ | pc k Hk Hpc | ch ci co Hch | pc k ch ci co Hk Hpc Hch];
    subst; destruct d; simpl in *; try discriminate; subst; invc Hch; simpl;
    (rewrite Chan.send_room; [by eexists |]);
    try pose proof (sent_le ci); try pose proof (sent_le co); simpl in *; lia.
Qed.

(** ** Properties *)

(** C1: the spec's invariant of section 3 holds in every reachable
    state: [liveConnectionCount], the WaitGroup's counter, equals the
    number of RelayPairs still running, the workers whose deferred
    [wg.Done()] has not run.  It is proved on the abstract machine and
    carried over by the refinement. *)
Theorem wg_counts_live_workers (s : State) :
  reachable s ->
  liveConnectionCount (abs s) = Z.of_nat (count_if is_running (relays (abs s))).
Proof. intros Hr. exact (si_count _ (spec_reachable_inv _ (abs_reachable _ Hr))). Qed.

Lemma wg_counts_live_workers_witness :
  let s := demo_after sched_relay in
  reachable s /\
  liveConnectionCount (abs s) = Z.of_nat (count_if is_running (relays (abs s))).
Proof.
  intros s.
  assert (H : reachable s) by (apply demo_after_reachable; vm_compute; eauto).
  split; [exact H | apply (wg_counts_live_workers _ H)].
Defined.

(** C2: the program refines the spec's tunnel: from a reachable state,
    every statement of a goroutine and every move of the environment is
    a step of [spec_step] on the abstraction, or leaves the abstraction
    unchanged. *)
Theorem exec_refines (a : action) (s s' : State) :
  reachable s -> exec a s = Some s' -> spec_step (abs s) (abs s') \/ abs s' = abs s.
Proof. intros Hr Hs. exact (abs_exec s (inv_reachable _ Hr) a s' Hs). Qed.

Lemma exec_refines_witness :
  let s := demo_after [ALoop; APeerConnects; ALoop] in
  let s' := demo_after [ALoop; APeerConnects; ALoop; ALoop] in
  (reachable s /\ exec ALoop s = Some s') /\
  (spec_step (abs s) (abs s') \/ abs s' = abs s).
Proof.
  intros s s'.
  assert (Hr : reachable s) by (apply demo_after_reachable; vm_compute; eauto).
  assert (Hs : exec ALoop s = Some s') by (vm_compute; reflexivity).
  split; [split; assumption | exact (exec_refines ALoop s s' Hr Hs)].
Defined.

(** C3: when [Stop] returns, every RelayPair accepted so far has
    finished, and each worker has closed its public connection and its
    local connection if it dialled one: [Wait] returns only on a zero
    counter, and a zero counter means no relay is running. *)
Theorem Stop_return_drained (a : action) (s s' : State) :
  reachable s -> exec a s = Some s' -> phase (abs s) <> Stopped -> phase (abs s') = Stopped ->
  Forall (fun r => r = RelayFinished) (relays (abs s')) /\
  Forall (fun w => w_publicClosed w = true /\ w_local w <> LocalOpen) (workers s').
Proof.
  intros Hr Hs Hne Hst. pose proof (reach_step _ _ _ Hr Hs) as Hr'.
  assert (Hz : liveConnectionCount (abs s') = 0%Z).
  { destruct (abs_exec s (inv_reachable _ Hr) a s' Hs) as [H|H];
      [by eapply spec_step_stopped | congruence]. }
  pose proof (spec_drained _ (spec_reachable_inv _ (abs_reachable _ Hr')) Hz) as Hd.
  split; [done | by apply finished_closed; [apply inv_reachable|]].
Qed.

Lemma Stop_return_drained_witness :
  let s := demo_after (sched_relay ++ [AWorker 0; AWorker 0; AWorker 0;
             AWorker 0; AWorker 0; AWorker 1; ACopyReturn 1 LocalToPublic (Some EOF);
             ACopySend 1 LocalToPublic; AWorker 1; AWorker 1; AWorker 1;
             AWorker 1; AWorker 1; AStopClose]) in
  let s' := log LogStopped (with_stopper StopReturned s) in
  (reachable s /\ exec AStopWait s = Some s' /\ phase (abs s) <> Stopped /\
   phase (abs s') = Stopped) /\
  Forall (fun r => r = RelayFinished) (relays (abs s')) /\
  Forall (fun w => w_publicClosed w = true /\ w_local w <> LocalOpen) (workers s').
Proof.
  intros s s'.
  assert (Hr : reachable s) by (apply demo_after_reachable; vm_compute; eauto).
  assert (Hw : exec AStopWait s = Some s') by (vm_compute; reflexivity).
  assert (Hne : phase (abs s) <> Stopped) by (vm_compute; discriminate).
  assert (Hret : phase (abs s') = Stopped) by reflexivity.
  split; [split_and!; assumption | exact (Stop_return_drained AStopWait s s' Hr Hw Hne Hret)].
Defined.

(** C5: [errChan] has room for every report: a copy goroutine at
    [errChan <- err] (line 103 or 108) never blocks, so neither copy
    goroutine leaks once the worker has returned; the send is invisible
    to the spec's tunnel. *)
Theorem errChan_send_never_blocks (s : State) (i : nat) (w : Worker)
    (d : direction) (err : option goerror) :
  reachable s -> workers s !! i = Some w -> copy_of d w = CopySending err ->
  exists s', copy_send i d s = Some s' /\ abs s' = abs s.
Proof.
  intros Hr Hw Hc. pose proof (inv_reachable _ Hr) as Hinv.
  destruct (copy_send_room s i w d err Hinv Hw Hc) as [s' Hs].
  exists s'. split; [done | by eapply refine_copy_send].
Qed.

Lemma errChan_send_never_blocks_witness :
  let s := demo_after (sched_relay ++ [ACopyReturn 0 LocalToPublic (Some ErrClosed)]) in
  let w := mkWorker WRecv full_defers_dialled (Some (Chan.mkbuf 2 [None]))
             CopyExited (CopySending (Some ErrClosed)) false LocalOpen in
  (reachable s /\ workers s !! 0 = Some w /\
   copy_of LocalToPublic w = CopySending (Some ErrClosed)) /\
  exists s', copy_send 0 LocalToPublic s = Some s' /\ abs s' = abs s.
Proof.
  intros s w.
  assert (Hr : reachable s) by (apply demo_after_reachable; vm_compute; eauto).
  assert (Hw : workers s !! 0 = Some w) by (vm_compute; reflexivity).
  split; [split; [exact Hr | split; [exact Hw | reflexivity]] |].
  exact (errChan_send_never_blocks s 0 w LocalToPublic (Some ErrClosed) Hr Hw eq_refl).
Defined.

(** C6: once shutdown is requested ([stopChan] closed), at most one more
    relay worker is spawned, whatever the goroutines and the peers do
    next: the accept loop may be inside [Accept] or just past it, and its
    next [select] exits.  This is the race section 4.1 of the spec
    allows. *)
Theorem at_most_one_spawn_after_stop (s1 s : State) :
  reachable s1 -> shutdownRequested (abs s1) = true -> rtc step s1 s ->
  length (workers s) <= S (length (workers s1)).
Proof.
  intros Hr Hsd Hrtc.
  destruct (spec_budget_rtc _ _ Hsd (abs_rtc _ _ Hr Hrtc)) as [_ Hle].
  unfold relay_budget in Hle. simpl in Hle. rewrite !length_fmap in Hle.
  destruct (accept_pending (loop s)), (accept_pending (loop s1)); lia.
Qed.

Lemma at_most_one_spawn_after_stop_witness :
  let s1 := demo_after [ALoop; AStopClose] in
  let s := demo_after (sched_stop_in_accept ++ [APeerConnects; ALoop; ALoop]) in
  (reachable s1 /\ shutdownRequested (abs s1) = true /\ rtc step s1 s) /\
  length (workers s) <= S (length (workers s1)).
Proof.
  intros s1 s.
  assert (Hr : reachable s1) by (apply demo_after_reachable; vm_compute; eauto).
  assert (Hsd : shutdownRequested (abs s1) = true) by reflexivity.
  assert (Hrtc : rtc step s1 s).
  { apply (run_rtc [AStopWait; APeerConnects; ALoop; ALoop]). vm_compute. reflexivity. }
  split; [split_and!; assumption | exact (at_most_one_spawn_after_stop s1 s Hr Hsd Hrtc)].
Defined.

(** C7: the shutdown race the spec does not allow.  [Stop] can return
    while the accept loop is still in [Accept] with the socket open; a
    connection that arrives afterwards is queued rather than refused,
    accepted, counted by [wg.Add(1)] and given a running relay. *)
Theorem spawn_after_Stop_returned :
  exists s1 s2, reachable s1 /\ phase (abs s1) = Stopped /\ socketOpen (abs s1) = true /\
    relays (abs s1) = [] /\ run [APeerConnects; ALoop; ALoop] s1 = Some s2 /\
    relays (abs s2) = [RelayRunning] /\ liveConnectionCount (abs s2) = 1%Z.
Proof.
  exists (demo_after sched_stop_in_accept),
         (demo_after (sched_stop_in_accept ++ [APeerConnects; ALoop; ALoop])).
  split; [apply demo_after_reachable; vm_compute; eauto | vm_compute; split_and!; reflexivity].
Qed.

(** C8: [Stop] is not idempotent: a second call, after the first has
    returned, closes the closed [stopChan] and panics. *)
Theorem Stop_twice_panics (s : State) :
  reachable s -> panicked s = None -> phase (abs s) = Stopped ->
  exec AStopClose s = Some (with_panic PanicCloseClosed s).
Proof.
  intros Hr Hnp Hst. pose proof (inv_reachable _ Hr) as Hinv.
  assert (Hsp : stopper s = StopReturned) by (simpl in Hst; by destruct (stopper s)).
  assert (Hsc : stopChan (ts s) = true).
  { destruct (stopChan (ts s)) eqn:E; [done|]. apply (inv_stopper _ Hinv) in E. congruence. }
  unfold exec, Stop_close, Chan.close. by rewrite Hnp, Hsp, Hsc.
Qed.

Lemma Stop_twice_panics_witness :
  let s := demo_after [AStopClose; AStopWait] in
  (reachable s /\ panicked s = None /\ phase (abs s) = Stopped) /\
  exec AStopClose s = Some (with_panic PanicCloseClosed s).
Proof.
  intros s.
  assert (Hr : reachable s) by (apply demo_after_reachable; vm_compute; eauto).
  split; [split; [exact Hr | split; reflexivity] |].
  exact (Stop_twice_panics s Hr eq_refl eq_refl).
Defined.

(** C11: the public socket is closed only by the accept loop, on its way
    out, after shutdown was requested; then no connection is left
    queued. *)
Theorem listener_closed_only_on_exit (s : State) :
  reachable s -> socketOpen (abs s) = false ->
  shutdownRequested (abs s) = true /\ loop s = LoopExited /\ backlog s = 0.
Proof.
  intros Hr Hl. pose proof (inv_reachable _ Hr) as Hinv. simpl in *.
  pose proof (proj1 (inv_listener _ Hinv) Hl) as He.
  split; [by apply (inv_exit_stop _ Hinv) | split; [done | by apply (inv_backlog _ Hinv)]].
Qed.

Lemma listener_closed_only_on_exit_witness :
  let s := demo_after [AStopClose; ALoop] in
  (reachable s /\ socketOpen (abs s) = false) /\
  (shutdownRequested (abs s) = true /\ loop s = LoopExited /\ backlog s = 0).
Proof.
  intros s.
  assert (Hr : reachable s) by (apply demo_after_reachable; vm_compute; eauto).
  split; [split; [exact Hr | reflexivity] |].
  exact (listener_closed_only_on_exit s Hr eq_refl).
Defined.

(** C12: a worker whose dial is refused (the local service is down,
    lines 91-95) logs the dial error and returns; its deferred calls run
    in reverse order, [publicConn.Close()] and then [wg.Done()]: its
    relay finishes and [liveConnectionCount] goes down by one, as
    section 4.2 of the spec asks; the goroutine then exits, with no
    local connection and no copy goroutine. *)
Theorem dial_failure_returns (s : State) (i : nat) :
  reachable s -> panicked s = None -> workers s !! i = Some spawn_worker -> localUp s = false ->
  exists s', run [AWorker i; AWorker i; AWorker i; AWorker i] s = Some s' /\
    workers s' !! i = Some (mkWorker WExited [] None CopyNotStarted CopyNotStarted true NoLocal) /\
    relays (abs s') !! i = Some RelayFinished /\
    liveConnectionCount (abs s') = (liveConnectionCount (abs s) - 1)%Z /\
    LogDialFailed ErrConnRefused ∈ logs s' /\ panicked s' = None.
Proof.
  intros Hr Hnp Hw Hup. pose proof (inv_reachable _ Hr) as Hinv.
  destruct (inv_done_step _ _ _ Hinv Hw eq_refl) as (wg & Hd & Hc & _).
  pose proof (lookup_lt_Some _ _ _ Hw) as Hi.
  erewrite run_cons_Some;
    [| unfold exec; rewrite Hnp; unfold handleConnection_step, Dial; rewrite Hw; simpl;
       rewrite Hup; reflexivity].
  worker_step Hnp Hd. worker_step Hnp Hd. worker_step Hnp Hd.
  eexists. split; [reflexivity|].
  match goal with |- workers ?s' !! i = Some ?w' /\ _ =>
    assert (Hw' : workers s' !! i = Some w')
      by (simpl_state; rewrite list_lookup_insert_eq by (rewrite !length_insert; done);
          reflexivity) end.
  split_and!; [exact Hw' | by rewrite (relay_of_lookup _ _ _ Hw') | by simpl_state | | done].
  simpl_state. rewrite elem_of_cons. by left.
Qed.

Lemma dial_failure_returns_witness :
  let s := demo_after [ALocalService false; ALoop; APeerConnects; ALoop; ALoop] in
  (reachable s /\ panicked s = None /\ workers s !! 0 = Some spawn_worker /\ localUp s = false) /\
  exists s', run [AWorker 0; AWorker 0; AWorker 0; AWorker 0] s = Some s' /\
    workers s' !! 0 = Some (mkWorker WExited [] None CopyNotStarted CopyNotStarted true NoLocal) /\
    relays (abs s') !! 0 = Some RelayFinished /\
    liveConnectionCount (abs s') = (liveConnectionCount (abs s) - 1)%Z /\
    LogDialFailed ErrConnRefused ∈ logs s' /\ panicked s' = None.
Proof.
  intros s.
  assert (Hr : reachable s) by (apply demo_after_reachable; vm_compute; eauto).
  assert (Hp : panicked s = None) by (vm_compute; reflexivity).
  assert (Hw : workers s !! 0 = Some spawn_worker) by (vm_compute; reflexivity).
  assert (Hu : localUp s = false) by (vm_compute; reflexivity).
  split; [split_and!; assumption | exact (dial_failure_returns s 0 Hr Hp Hw Hu)].
Defined.
