(* ===== verification/Main.v ===== *)
(** * Start and main

    [Start] (src/main.go lines 29-65) takes the answers of the
    environment as arguments: the result of [net.InterfaceAddrs] and the
    result of [net.Listen("tcp", ":0")], which is the listener's IP
    string and the port the OS chose.  It composes the banner loop of
    [HostIP], [TCPAddr_String], [SplitHostPort] and [Atoi], and on success
    returns the started tunnel of [TunnelState] with the three lines of
    its banner (lines 59-61), where the host IP is printed.
    [main] (lines 121-144) picks the local port from its argument and
    ends with [log.Fatalf] (exit status 1) when [Start] fails; after a
    successful start, waiting for the signal and calling [Stop] are
    modelled in [Process]. *)

From S2P Require Import Prelude GoRuntime Strconv NetAddr HostIP TunnelState.
From Stdlib Require Import String Ascii.

(** The three errors [Start] returns (lines 33, 49 and 54). *)
Inductive start_error :=
| StartInterfaces (e : goerror)   (** "failed to get network interfaces" *)
| StartListen (e : goerror)       (** "failed to create public listener" *)
| StartParse (e : addr_error).    (** "failed to parse listener address" *)

(** Wrapping an error as [fmt.Errorf] does. *)
Definition wrap_err {E F A} (f : E -> F) (r : E + A) : F + A :=
  match r with inl e => inl (f e) | inr a => inr a end.

(** The banner [Start] logs (lines 59-61); [%d] of an [int] prints it as
    [strconv.Itoa] does. *)
Definition banner (lport : Z) (hostIP : string) (pport : Z) : list string :=
  [" Tunnel created successfully!";
   " Local Server: localhost:" ++ Itoa lport;
   " Public Endpoint: " ++ hostIP ++ ":" ++ Itoa pport]%string.

(** [ts.Start()] for a tunnel on [lport], the local service being up or
    down as [up] says: the started tunnel and the banner it logged. *)
Definition Start (lport : Z) (up : bool) (ifaddrs : goerror + list Addr)
    (listen : goerror + (string * Z)) : start_error + (State * list string) :=
  let? addrs := wrap_err StartInterfaces ifaddrs in
  let hostIP := host_ip addrs in
  let? laddr := wrap_err StartListen listen in
  let? hp := wrap_err StartParse (SplitHostPort (TCPAddr_String (fst laddr) (snd laddr))) in
  (* [ts.publicPort, _ = strconv.Atoi(portStr)]: the error is dropped *)
  let publicPort := fst (Atoi (snd hp)) in
  inr (started lport publicPort up, banner lport hostIP publicPort).

Definition default_localPort : Z := 3000.

(** Lines 123-129: [os.Args[1]] when present and accepted by [Atoi],
    otherwise 3000. *)
Definition localPort_of_args (args : list string) : Z :=
  match args with
  | _ :: arg :: _ =>
      match Atoi arg with
      | (port, None) => port
      | (_, Some _) => default_localPort
      end
  | _ => default_localPort
  end.

(** What [main] has done once [Start] has returned. *)
Inductive main_outcome :=
| MainFatal (e : start_error)           (** [log.Fatalf]: exit status 1 *)
| MainServing (s : State) (logged : list string).

(** Lines 132-136. *)
Definition main_start (args : list string) (up : bool) (ifaddrs : goerror + list Addr)
    (listen : goerror + (string * Z)) : main_outcome :=
  match Start (localPort_of_args args) up ifaddrs listen with
  | inl e => MainFatal e
  | inr (s, lines) => MainServing s lines
  end.

(** ** Properties of Start and main *)

(** A listener address [Start] can read back: no bracket in the IP
    string and a port that is an [int]. *)
Definition listener_addr_ok (listen : goerror + (string * Z)) : Prop :=
  forall ip port, listen = inr (ip, port) ->
  has_byte "["%char ip = false /\ has_byte "]"%char ip = false /\ in_int64 port.

(** C25: [Start] on every outcome of its two environment calls.  The
    public port is the port the OS chose, read back through the address
    string; a failure of [net.InterfaceAddrs] aborts [Start] whatever
    [Listen] would have done; a well-formed listener address never fails
    to parse. *)
Theorem Start_spec (lport : Z) (up : bool) (ifaddrs : goerror + list Addr)
    (listen : goerror + (string * Z)) :
  listener_addr_ok listen ->
  match Start lport up ifaddrs listen with
  | inl (StartInterfaces e) => ifaddrs = inl e
  | inl (StartListen e) => exists addrs, ifaddrs = inr addrs /\ listen = inl e
  | inl (StartParse _) => False
  | inr (s, lines) =>
      exists addrs ip port, ifaddrs = inr addrs /\ listen = inr (ip, port) /\
        s = started lport port up /\ lines = banner lport (host_ip addrs) port
  end.
Proof.
  intros Hok. unfold Start.
  destruct ifaddrs as [e|addrs]; simpl; [done|].
  destruct listen as [e|[ip port]]; simpl; [by eexists|].
  destruct (Hok ip port eq_refl) as (Hl & Hr & Hp).
  rewrite SplitHostPort_TCPAddr_String by done. simpl.
  rewrite Atoi_Itoa_int by done. simpl. by exists addrs, ip, port.
Qed.

Lemma Start_spec_witness :
  let ifa : goerror + list Addr := inr [IPNet [10; 0; 0; 7]%Z [255; 0; 0; 0]%Z] in
  let listen : goerror + (string * Z) := inr ("::"%string, 40000%Z) in
  listener_addr_ok listen /\
  match Start 3000 true ifa listen with
  | inl (StartInterfaces e) => ifa = inl e
  | inl (StartListen e) => exists addrs, ifa = inr addrs /\ listen = inl e
  | inl (StartParse _) => False
  | inr (s, lines) =>
      exists addrs ip port, ifa = inr addrs /\ listen = inr (ip, port) /\
        s = started 3000 port true /\ lines = banner 3000 (host_ip addrs) port
  end.
Proof.
  intros ifa listen.
  assert (Hok : listener_addr_ok listen).
  { intros ip port H. invc H. split; [reflexivity | split; [reflexivity | unfold in_int64; lia]]. }
  split; [exact Hok | exact (Start_spec 3000 true ifa listen Hok)].
Defined.

(** C26: [main] accepts any [int] as the local port, negative ones and
    ones above 65535 included; only an argument [Atoi] rejects falls
    back to 3000. *)
Theorem localPort_of_args_Itoa (prog : string) (n : Z) (rest : list string) :
  in_int64 n -> localPort_of_args (prog :: Itoa n :: rest) = n.
Proof. intros Hn. unfold localPort_of_args. by rewrite Atoi_Itoa_int. Qed.

Lemma localPort_of_args_Itoa_witness :
  in_int64 (-1) /\ localPort_of_args ["tunnel"; Itoa (-1)]%string = (-1)%Z.
Proof.
  assert (H : in_int64 (-1)) by (unfold in_int64; lia).
  split; [exact H | exact (localPort_of_args_Itoa "tunnel" (-1) [] H)].
Defined.


(** What [main] serves from once [Start] has succeeded. *)
Lemma main_start_started args up ifaddrs listen s lines :
  main_start args up ifaddrs listen = MainServing s lines ->
  exists port, s = started (localPort_of_args args) port up.
Proof.
  unfold main_start, Start.
  destruct ifaddrs as [e|addrs]; simpl; [done|].
  destruct listen as [e|[ip port]]; simpl; [done|].
  destruct (SplitHostPort _) as [e|[h p]]; simpl; [done|].
  intros H. invc H. by eexists.
Qed.

(** C27: the endpoint [Start] prints is the one peers reach: the "Public
    Endpoint" line of the banner, read back with [net.SplitHostPort] and
    [strconv.Atoi], gives the host IP found by the interface loop and
    the port the OS bound, which is the tunnel's [publicPort]. *)
Theorem banner_endpoint_roundtrip (lport : Z) (up : bool) (addrs : list Addr)
    (ip : string) (port : Z) (s : State) (lines : list string) :
  ip_bytes_ok addrs -> listener_addr_ok (inr (ip, port)) ->
  Start lport up (inr addrs) (inr (ip, port)) = inr (s, lines) ->
  exists ep portStr, lines !! 2 = Some (" Public Endpoint: " ++ ep)%string /\
    SplitHostPort ep = inr (host_ip addrs, portStr) /\ Atoi portStr = (port, None) /\
    publicPort (ts s) = port.
Proof.
  intros Hb Hok HS. destruct (Hok ip port eq_refl) as (Hl & Hr & Hp).
  unfold Start in HS. simpl in HS.
  rewrite SplitHostPort_TCPAddr_String in HS by done. simpl in HS.
  rewrite Atoi_Itoa_int in HS by done. simpl in HS. invc HS.
  exists (host_ip addrs ++ ":" ++ Itoa port)%string, (Itoa port).
  split_and!; [reflexivity | | by apply Atoi_Itoa_int | reflexivity].
  assert (Hc : has_byte ":" (host_ip addrs) = false) by (apply host_ip_no_byte; done).
  replace (host_ip addrs ++ ":" ++ Itoa port)%string
    with (JoinHostPort (host_ip addrs) (Itoa port)) by (unfold JoinHostPort; by rewrite Hc).
  apply split_join_host_port;
    first [apply host_ip_no_byte; done | apply Itoa_no_byte; done].
Qed.

Lemma banner_endpoint_roundtrip_witness :
  let addrs := [IPNet [127; 0; 0; 1]%Z [255; 0; 0; 0]%Z; IPNet [10; 0; 0; 7]%Z [255; 0; 0; 0]%Z] in
  let listen : goerror + (string * Z) := inr ("::"%string, 40000%Z) in
  (ip_bytes_ok addrs /\ listener_addr_ok listen /\
   Start 3000 true (inr addrs) listen = inr (started 3000 40000 true, banner 3000 "10.0.0.7" 40000)) /\
  exists ep portStr,
    banner 3000 "10.0.0.7" 40000 !! 2 = Some (" Public Endpoint: " ++ ep)%string /\
    SplitHostPort ep = inr (host_ip addrs, portStr) /\ Atoi portStr = (40000%Z, None) /\
    publicPort (ts (started 3000 40000 true)) = 40000%Z.
Proof.
  intros addrs listen.
  assert (Hb : ip_bytes_ok addrs) by (repeat constructor; lia).
  assert (Hok : listener_addr_ok listen).
  { intros ip port H. invc H. split; [reflexivity | split; [reflexivity | unfold in_int64; lia]]. }
  assert (HS : Start 3000 true (inr addrs) listen
               = inr (started 3000 40000 true, banner 3000 "10.0.0.7" 40000)) by (vm_compute; reflexivity).
  split; [split_and!; assumption | exact (banner_endpoint_roundtrip 3000 true addrs "::" 40000 _ _ Hb Hok HS)].
Defined.
