(* ===== verification/Process.v ===== *)
(** * The process: main after Start, the signal, Stop and the exit

    After a successful [Start], [main] (src/main.go lines 138-144) makes
    [sigChan], a channel of capacity 1, has [signal.Notify] relay SIGINT
    and SIGTERM to it, blocks on [<-sigChan], calls [tunnel.Stop()] and
    returns; returning from [main] ends the process, whatever the other
    goroutines are doing.  [Process] is the program after [Start]: the
    program counter of [main], [sigChan] and the tunnel's [State].
    [proc_exec] interleaves the statements of [main] ([main_step]), the
    OS delivering a signal ([signal_notify]: the runtime's send on
    [sigChan] does not block, a signal that finds it full is dropped)
    and the statements of every other goroutine and the network's moves
    of [TunnelState].  The statements of [Stop] belong to [main], so the
    tunnel's [Stop] actions run only through [main_step].

    The theorems: [main] calls [Stop] once, so the "close of closed
    channel" panic cannot happen; after a signal, the workers alone let
    [main] return (the process exits); when it does, at most one relay
    is still running, and a schedule shows one, accepted after [Stop]
    returned, killed by the exit; another shows the process crashing in
    [Stop] when a connection arrives while [Wait] is being released. *)

From S2P Require Import Prelude GoRuntime TunnelState TunnelInv TunnelLive TunnelProps Main.
From Stdlib Require Import String.

(** ** Main's goroutine and the process *)

(** The signals [main] asks to be notified of (line 140). *)
Inductive os_signal := SIGINT | SIGTERM.

Inductive main_pc :=
| MainWaitSignal   (** line 141: [<-sigChan] *)
| MainCallStop     (** line 143: [tunnel.Stop()], not yet entered *)
| MainInStop       (** inside [Stop] *)
| MainReturned.    (** [main] has returned: the process has exited *)

Record Process := mkProcess {
  main_at : main_pc;
  sigChan : Chan.buffered os_signal;
  tunnel : State
}.

(** Lines 139-140: [sigChan := make(chan os.Signal, 1)] and
    [signal.Notify(sigChan, SIGINT, SIGTERM)], with the tunnel that
    [Start] left running. *)
Definition proc_start (s : State) : Process := mkProcess MainWaitSignal (Chan.make 1) s.

(** A notified signal arrives: the runtime sends it on [sigChan] without
    blocking, dropping it when the channel is full. *)
Definition signal_notify (sig : os_signal) (ch : Chan.buffered os_signal)
    : Chan.buffered os_signal :=
  match Chan.send sig ch with Some ch' => ch' | None => ch end.

(** One statement of [main] (lines 141-144): receive the signal, enter
    [Stop] ([close(ts.stopChan)]), run [Wait] until it returns, then
    return from [main]. *)
Definition main_step (p : Process) : option Process :=
  match main_at p with
  | MainWaitSignal =>
      '(_, ch) ← Chan.recv (sigChan p);
      Some (mkProcess MainCallStop ch (tunnel p))
  | MainCallStop =>
      s ← exec AStopClose (tunnel p);
      Some (mkProcess MainInStop (sigChan p) s)
  | MainInStop =>
      match stopper (tunnel p) with
      | StopReturned => Some (mkProcess MainReturned (sigChan p) (tunnel p))
      | StopSleeping =>
          s ← exec AStopWake (tunnel p); Some (mkProcess MainInStop (sigChan p) s)
      | _ =>
          s ← exec AStopWait (tunnel p); Some (mkProcess MainInStop (sigChan p) s)
      end
  | MainReturned => None
  end.

Inductive proc_action :=
| PGoroutine (a : action)   (** another goroutine, or the network *)
| PSignal (sig : os_signal) (** the OS delivers a signal *)
| PMain.                    (** the next statement of [main] *)

Definition is_stop_action (a : action) : bool :=
  match a with AStopClose | AStopWait | AStopWake => true | _ => false end.

(** One step of the process.  Once [main] has returned, or a goroutine
    has panicked, the process is gone and nothing steps. *)
Definition proc_exec (pa : proc_action) (p : Process) : option Process :=
  match main_at p with
  | MainReturned => None
  | _ =>
      match pa with
      | PGoroutine a =>
          if is_stop_action a then None
          else s ← exec a (tunnel p); Some (mkProcess (main_at p) (sigChan p) s)
      | PSignal sig =>
          if panicked (tunnel p) is Some _ then None
          else Some (mkProcess (main_at p) (signal_notify sig (sigChan p)) (tunnel p))
      | PMain => if panicked (tunnel p) is Some _ then None else main_step p
      end
  end.

Fixpoint proc_run (pas : list proc_action) (p : Process) : option Process :=
  match pas with
  | [] => Some p
  | pa :: rest => p' ← proc_exec pa p; proc_run rest p'
  end.

(** The processes a run of the program reaches once [Start] has
    succeeded. *)
Inductive proc_reachable : Process -> Prop :=
| preach_start args up ifaddrs listen s lines :
    main_start args up ifaddrs listen = MainServing s lines -> proc_reachable (proc_start s)
| preach_step pa p p' : proc_reachable p -> proc_exec pa p = Some p' -> proc_reachable p'.

(** Where [main] is, against where the caller of [Stop] is. *)
Definition main_stopper_ok (m : main_pc) (sp : stop_pc) : Prop :=
  match m with
  | MainWaitSignal | MainCallStop => sp = StopIdle
  | MainInStop => sp <> StopIdle
  | MainReturned => sp = StopReturned
  end.

(** Relays running, plus the one an accept in flight may still add. *)
Definition late_budget (t : Tunnel) : nat :=
  count_if is_running (relays t) + (if acceptPending t then 1 else 0).

Record proc_inv (p : Process) : Prop := {
  pi_reachable : reachable (tunnel p);
  pi_main : main_stopper_ok (main_at p) (stopper (tunnel p));
  pi_sig : Chan.cap (sigChan p) = 1 /\ List.length (Chan.buf (sigChan p)) <= 1;
  pi_close : panicked (tunnel p) <> Some PanicCloseClosed;
  pi_late : stopper (tunnel p) = StopReturned -> late_budget (abs (tunnel p)) <= 1
}.

(** A process where [main] is about to receive a signal that never
    comes is waiting; the schedules below deliver one. *)
Definition demo_proc : Process := proc_start (started 3000 40000 true).

Definition demo_proc_after (pas : list proc_action) : Process :=
  default demo_proc (proc_run pas demo_proc).

(** Shutdown while the accept loop is in [Accept]: [Stop] returns at
    once, and a connection that arrives before [main] returns is
    accepted and handed to a worker. *)
Definition sched_exit_race : list proc_action :=
  [PGoroutine ALoop; PSignal SIGINT; PMain; PMain; PMain;
   PGoroutine APeerConnects; PGoroutine ALoop; PGoroutine ALoop; PMain].

(** With the local service down: a connection's worker fails its dial
    while [Stop] waits; its [Done] releases [Wait], and a new connection
    is counted before [main] wakes. *)
Definition sched_crash : list proc_action :=
  [PGoroutine ALoop; PGoroutine APeerConnects; PGoroutine ALoop; PGoroutine ALoop;
   PGoroutine ALoop; PSignal SIGINT; PMain; PMain; PMain;
   PGoroutine (AWorker 0); PGoroutine (AWorker 0); PGoroutine (AWorker 0);
   PGoroutine APeerConnects; PGoroutine ALoop; PGoroutine ALoop; PMain].

(** ** Steps of the tunnel that are not main's *)

Lemma run_deferred_frame_panic i d rest w s :
  panicked s = None ->
  panicked (run_deferred i d rest w s) <> Some PanicCloseClosed.
Proof.
  intros Hnp. unfold run_deferred. destruct d; simpl; rewrite ?Hnp; try done.
  destruct (WaitGroup.done _) as [p|] eqn:Hd; simpl; rewrite ?Hnp; [|done].
  unfold WaitGroup.done in Hd. intros [= ->].
  by destruct (WaitGroup.add_panic _ _ _ Hd).
Qed.

(** Another goroutine's statement leaves [Stop]'s caller where it is and
    never closes a channel. *)
Lemma exec_nonstop s a s' :
  is_stop_action a = false -> panicked s = None -> exec a s = Some s' ->
  stopper s' = stopper s /\ panicked s' <> Some PanicCloseClosed.
Proof.
  intros Ha Hnp Hs. destruct (worker_step_action a) eqn:Hw.
  { destruct (worker_frame a s s' Hw Hs) as (_ & _ & Hst & _). split; [done|].
    unfold exec in Hs. rewrite Hnp in Hs.
    destruct a; try done; simpl in Hs.
    - unfold handleConnection_step in Hs. destruct (workers s !! i) as [w|]; [|done].
      simpl in Hs.
      destruct (w_pc w); [unfold Dial in Hs; destruct (localUp s)| | |];
        try (destruct (w_errChan w) as [ch|]; [|done]; simpl in Hs;
             destruct (Chan.recv ch) as [[]|]; [|done]; simpl in Hs);
        try (destruct (w_defers w) as [|d rest]);
        simplify_eq; simpl; rewrite ?Hnp; try done.
      by apply run_deferred_frame_panic.
    - unfold copy_return in Hs. destruct (workers s !! i); [|done]. simpl in Hs.
      destruct (copy_of d _); simplify_eq; simpl; by rewrite ?Hnp.
    - unfold copy_send in Hs. destruct (workers s !! i); [|done]. simpl in Hs.
      destruct (copy_of d _); try done. destruct (w_errChan _) as [ch|]; [|done]. simpl in Hs.
      destruct (Chan.send _ ch); [|done]. simpl in Hs. simplify_eq. simpl. by rewrite ?Hnp. }
  unfold exec in Hs. rewrite Hnp in Hs.
  destruct a; try done; simpl in Hs.
  - unfold acceptConnections_step, Accept in Hs.
    destruct (loop s); [destruct (stopChan _) | destruct (listenerOpen s); [destruct (backlog s)|]
      | destruct (WaitGroup.add 1 _) as [p|] eqn:Hadd | ];
      simpl in Hs; simplify_eq; simpl; rewrite ?Hnp; split; try done.
    intros [= ->]. by destruct (WaitGroup.add_panic _ _ _ Hadd).
  - unfold acceptConnections_error in Hs. repeat case_match; simplify_eq; simpl; by rewrite ?Hnp.
  - unfold peer_connects in Hs. repeat case_match; simplify_eq; simpl; by rewrite ?Hnp.
  - simplify_eq. simpl. by rewrite Hnp.
Qed.

Lemma exec_not_panicked a s s' : exec a s = Some s' -> panicked s = None.
Proof. unfold exec. by destruct (panicked s). Qed.

(** [main]'s statements inside [Wait] leave it inside [Stop] or past it,
    and raise at most the reuse panic. *)
Lemma exec_wait s a s' :
  a = AStopWait \/ a = AStopWake -> panicked s = None -> exec a s = Some s' ->
  stopper s' <> StopIdle /\ panicked s' <> Some PanicCloseClosed.
Proof.
  intros Ha Hnp Hs. unfold exec in Hs. rewrite Hnp in Hs.
  destruct Ha as [-> | ->]; simpl in Hs.
  - unfold Stop_wait in Hs. destruct (stopper s); try done.
    destruct (WaitGroup.wait_register _); invc Hs; simpl; rewrite ?Hnp; split; congruence.
  - unfold Stop_wake, WaitGroup.wait_wake in Hs. destruct (stopper s) eqn:Hsp; try done.
    destruct (WaitGroup.sema _); [done|]. simpl in Hs.
    destruct (WaitGroup.state_zero _); simpl in Hs; invc Hs; simpl;
      rewrite ?Hsp, ?Hnp; split; congruence.
Qed.

(** ** After shutdown: the relays that can still run *)

Lemma late_budget_step t t' :
  shutdownRequested t = true -> spec_step t t' -> late_budget t' <= late_budget t.
Proof.
  intros Hsd Hstep. unfold late_budget.
  destruct Hstep as [t Hf|t Hp|t Hp|t|t i Hi|t Hp|t Hp Hz]; simpl; try congruence.
  - rewrite Hp. lia.
  - rewrite count_if_app, Hp. change (count_if is_running [RelayRunning]) with 1. lia.
  - lia.
  - pose proof (count_if_insert is_running _ _ _ RelayFinished Hi). simpl in *. lia.
  - lia.
  - lia.
Qed.

(** The step at which [Stop] returns leaves no relay running, so at most
    the one accept in flight can still add one. *)
Lemma late_budget_stop_return a s s' :
  reachable s -> exec a s = Some s' -> stopper s <> StopReturned ->
  stopper s' = StopReturned -> late_budget (abs s') <= 1.
Proof.
  intros Hr Hs Hne Hret.
  assert (Hz : liveConnectionCount (abs s') = 0%Z).
  { destruct (abs_exec s (inv_reachable _ Hr) a s' Hs) as [H|H].
    - eapply spec_step_stopped; [exact H | | simpl; by rewrite Hret].
      simpl. destruct (stopper s) eqn:E; simpl; congruence.
    - exfalso. apply (f_equal phase) in H. simpl in H. rewrite Hret in H.
      destruct (stopper s) eqn:E; simpl in H; congruence. }
  destruct (spec_reachable_inv _ (abs_reachable _ (reach_step _ _ _ Hr Hs))) as [Hc _].
  unfold late_budget. rewrite Hz in Hc. destruct (acceptPending _); lia.
Qed.

(** ** The invariant of the process *)

Lemma signal_notify_ok sig ch :
  Chan.cap ch = 1 /\ List.length (Chan.buf ch) <= 1 ->
  Chan.cap (signal_notify sig ch) = 1 /\ List.length (Chan.buf (signal_notify sig ch)) <= 1.
Proof.
  intros [Hc Hl]. unfold signal_notify, Chan.send.
  destruct (decide _) as [H|H]; simpl; [rewrite length_app; simpl; lia | lia].
Qed.

Lemma proc_inv_start args up ifaddrs listen s lines :
  main_start args up ifaddrs listen = MainServing s lines -> proc_inv (proc_start s).
Proof.
  intros Hm. destruct (main_start_started _ _ _ _ _ _ Hm) as [port ->].
  constructor; simpl; try done; [apply reach_start | split; [done | simpl; lia]].
Qed.

Section ProcStep.
Context (p : Process) (Hinv : proc_inv p).

Lemma stopChan_not_idle : stopper (tunnel p) <> StopIdle -> stopChan (ts (tunnel p)) = true.
Proof.
  intros Hne. destruct (stopChan _) eqn:E; [done|].
  by apply (inv_stopper _ (inv_reachable _ (pi_reachable _ Hinv))) in E.
Qed.

Lemma proc_inv_goroutine a s' :
  is_stop_action a = false -> exec a (tunnel p) = Some s' ->
  proc_inv (mkProcess (main_at p) (sigChan p) s').
Proof.
  intros Ha Hs. destruct Hinv as [Hr Hm Hsig Hcl Hlate].
  destruct (exec_nonstop _ _ _ Ha (exec_not_panicked _ _ _ Hs) Hs) as [Hst Hcl'].
  constructor; simpl; try done.
  - by eapply reach_step.
  - by rewrite Hst.
  - intros Hret. rewrite Hst in Hret.
    assert (Hsd : shutdownRequested (abs (tunnel p)) = true)
      by (simpl; apply stopChan_not_idle; congruence).
    destruct (abs_exec _ (inv_reachable _ Hr) a s' Hs) as [H|Heq]; [|rewrite Heq; by apply Hlate].
    pose proof (late_budget_step _ _ Hsd H). specialize (Hlate Hret). lia.
Qed.

Lemma proc_inv_signal sig :
  proc_inv (mkProcess (main_at p) (signal_notify sig (sigChan p)) (tunnel p)).
Proof. destruct Hinv. constructor; simpl; try done. by apply signal_notify_ok. Qed.

Lemma proc_inv_main p' :
  panicked (tunnel p) = None -> main_step p = Some p' -> proc_inv p'.
Proof.
  intros Hnp Hs. destruct Hinv as [Hr Hm Hsig Hcl Hlate].
  unfold main_step in Hs. destruct (main_at p) eqn:Hmp; simpl in Hm.
  - destruct (Chan.recv (sigChan p)) as [[x ch]|] eqn:Hrecv; simpl in Hs; [|done]. invc Hs.
    unfold Chan.recv in Hrecv. destruct (Chan.buf (sigChan p)) eqn:Hb; [done|]. invc Hrecv.
    constructor; simpl; try done. destruct Hsig as [Hc Hl]. simpl in *. split; [done | lia].
  - destruct (exec AStopClose (tunnel p)) as [s'|] eqn:Hc; simpl in Hs; [|done]. invc Hs.
    assert (Hsc : stopChan (ts (tunnel p)) = false)
      by (apply (inv_stopper _ (inv_reachable _ Hr)); done).
    pose proof Hc as Hc'. unfold exec, Stop_close, Chan.close in Hc'.
    rewrite Hnp, Hm, Hsc in Hc'. invc Hc'.
    constructor; simpl; try done; by eapply reach_step.
  - destruct (stopper (tunnel p)) eqn:Hsp; try done.
    + destruct (exec AStopWait (tunnel p)) as [s'|] eqn:He; simpl in Hs; [|done]. invc Hs.
      destruct (exec_wait _ _ _ (or_introl eq_refl) Hnp He) as [Hi Hc'].
      constructor; simpl; try done; [by eapply reach_step|].
      intros Hret. eapply late_budget_stop_return; [exact Hr | exact He | congruence | exact Hret].
    + destruct (exec AStopWake (tunnel p)) as [s'|] eqn:He; simpl in Hs; [|done]. invc Hs.
      destruct (exec_wait _ _ _ (or_intror eq_refl) Hnp He) as [Hi Hc'].
      constructor; simpl; try done; [by eapply reach_step|].
      intros Hret. eapply late_budget_stop_return; [exact Hr | exact He | congruence | exact Hret].
    + invc Hs. constructor; simpl; rewrite ?Hsp; done.
  - done.
Qed.

End ProcStep.

Lemma proc_inv_step pa p p' : proc_inv p -> proc_exec pa p = Some p' -> proc_inv p'.
Proof.
  intros Hinv Hs.
  assert (Hgo : main_at p <> MainReturned) by (intros E; unfold proc_exec in Hs; by rewrite E in Hs).
  assert (Hs' : match pa with
                | PGoroutine a =>
                    if is_stop_action a then None
                    else s ← exec a (tunnel p); Some (mkProcess (main_at p) (sigChan p) s)
                | PSignal sig =>
                    if panicked (tunnel p) is Some _ then None
                    else Some (mkProcess (main_at p) (signal_notify sig (sigChan p)) (tunnel p))
                | PMain => if panicked (tunnel p) is Some _ then None else main_step p
                end = Some p') by (unfold proc_exec in Hs; by destruct (main_at p)).
  destruct pa as [a|sig|].
  - destruct (is_stop_action a) eqn:Ha; [done|].
    destruct (exec a (tunnel p)) as [s'|] eqn:He; simpl in Hs'; [|done]. invc Hs'.
    exact (proc_inv_goroutine p Hinv a s' Ha He).
  - destruct (panicked (tunnel p)); invc Hs'. by apply proc_inv_signal.
  - destruct (panicked (tunnel p)) eqn:Hnp; [done|]. by eapply proc_inv_main.
Qed.

Lemma proc_inv_reachable p : proc_reachable p -> proc_inv p.
Proof. induction 1; [by eapply proc_inv_start | by eapply proc_inv_step]. Qed.

(** ** Schedules of the process *)

Lemma proc_run_cons pa pas p p1 :
  proc_exec pa p = Some p1 -> proc_run (pa :: pas) p = proc_run pas p1.
Proof. intros H. cbn [proc_run]. by rewrite H. Qed.

Lemma proc_run_app pas1 pas2 p :
  proc_run (pas1 ++ pas2) p = p1 ← proc_run pas1 p; proc_run pas2 p1.
Proof.
  revert p. induction pas1 as [|pa pas1 IH]; intros p; [done|]. simpl.
  destruct (proc_exec pa p); simpl; [apply IH | done].
Qed.

Lemma proc_run_reachable pas p p' :
  proc_reachable p -> proc_run pas p = Some p' -> proc_reachable p'.
Proof.
  revert p. induction pas as [|pa pas IH]; simpl; intros p Hr Hrun; [by invc Hrun|].
  destruct (proc_exec pa p) as [p1|] eqn:E; [|done]. eapply IH; [by eapply preach_step | done].
Qed.

(** A crashed process takes no step. *)
Lemma proc_exec_panicked pa p : panicked (tunnel p) <> None -> proc_exec pa p = None.
Proof.
  intros Hp. unfold proc_exec.
  destruct (panicked (tunnel p)) eqn:E; [|done].
  destruct (main_at p), pa as [a|sig|]; try done; destruct (is_stop_action a); try done;
    unfold exec; by rewrite E.
Qed.

(** The relay workers' statements, run by the process while [main] is
    in [Stop]. *)
Lemma proc_run_workers acts p s' :
  main_at p <> MainReturned -> Forall (fun a => worker_step_action a = true) acts ->
  run acts (tunnel p) = Some s' ->
  proc_run (PGoroutine <$> acts) p = Some (mkProcess (main_at p) (sigChan p) s').
Proof.
  revert p. induction acts as [|a acts IH]; intros p Hm Hw Hrun.
  - invc Hrun. by destruct p.
  - invc Hw. simpl in Hrun. destruct (exec a (tunnel p)) as [s1|] eqn:E; [|done].
    simpl in Hrun. change (PGoroutine <$> a :: acts) with (PGoroutine a :: (PGoroutine <$> acts)).
    rewrite (proc_run_cons _ _ _ (mkProcess (main_at p) (sigChan p) s1)).
    + by apply (IH (mkProcess (main_at p) (sigChan p) s1)).
    + unfold proc_exec. assert (is_stop_action a = false) as -> by (by destruct a).
      rewrite E. by destruct (main_at p).
Qed.

(** A signal on a channel of capacity 1 leaves something to receive. *)
Lemma signal_recv sig ch :
  Chan.cap ch = 1 -> List.length (Chan.buf ch) <= 1 ->
  exists x ch', Chan.recv (signal_notify sig ch) = Some (x, ch').
Proof.
  destruct ch as [c [|y [|z b]]]; simpl; intros Hc Hl; subst; try lia;
    unfold signal_notify, Chan.send; simpl; by do 2 eexists.
Qed.

(** The process [main] serves from with the tunnel on port 3000, the OS
    having chosen port 40000, the local service up or down. *)
Lemma demo_main_start (up : bool) :
  main_start ["tunnel"]%string up (inr []) (inr ("::"%string, 40000%Z))
  = MainServing (started 3000 40000 up) (banner 3000 EmptyString 40000).
Proof. by destruct up; vm_compute. Qed.

Lemma demo_proc_reachable (up : bool) : proc_reachable (proc_start (started 3000 40000 up)).
Proof. eapply preach_start. apply demo_main_start. Qed.

Lemma demo_proc_after_reachable (pas : list proc_action) :
  is_Some (proc_run pas demo_proc) -> proc_reachable (demo_proc_after pas).
Proof.
  intros [p Hp]. unfold demo_proc_after. rewrite Hp.
  eapply proc_run_reachable; [apply (demo_proc_reachable true) | exact Hp].
Qed.

(** From [main] inside [Stop], at [Wait]'s check: the workers run to
    their exits, [Wait] returns and [main] returns. *)
Lemma finish_in_stop p :
  proc_inv p -> main_at p = MainInStop -> stopper (tunnel p) = StopWaitLoop ->
  panicked (tunnel p) = None ->
  exists pas p', Forall (fun pa => pa = PMain \/ exists a, pa = PGoroutine a /\
                                    worker_step_action a = true) pas /\
    proc_run pas p = Some p' /\ main_at p' = MainReturned /\ LogStopped ∈ logs (tunnel p').
Proof.
  intros Hinv Hm Hst Hnp. pose proof (pi_reachable _ Hinv) as Hr.
  destruct (drive_workers _ Hr Hnp)
    as (acts & s1 & _ & Hrun & Hr1 & Hnp1 & Hst1 & _ & Hall & Hws).
  pose proof (inv_reachable _ Hr1) as Hinv1.
  destruct (Stop_finishes s1 Hinv1 Hnp1 (exited_no_live s1 Hinv1 Hall) ltac:(left; congruence))
    as (s2 & Hs2 & Hret & Hlog & Hnp2).
  rewrite Hst1, Hst in Hs2. simpl in Hs2.
  exists ((PGoroutine <$> acts) ++ [PMain; PMain]),
         (mkProcess MainReturned (sigChan p) s2).
  split_and!; try done.
  - apply Forall_app. split; [|repeat constructor; by left].
    apply Forall_fmap. eapply Forall_impl; [exact Hws|]. intros a Ha. right. by exists a.
  - rewrite proc_run_app, (proc_run_workers acts p s1 ltac:(congruence) Hws Hrun). simpl.
    rewrite Hm. unfold proc_exec, main_step. simpl. rewrite Hnp1, Hst1, Hst, Hs2. simpl.
    by rewrite Hnp2, Hret.
Qed.

(** ** Properties *)

(** C16: [main] calls [Stop] once, on the first signal it receives: in
    every run of the program after [Start], however many SIGINT and
    SIGTERM arrive, the "close of closed channel" panic of a second
    [Stop] never happens. *)
Theorem main_never_closes_twice (p : Process) :
  proc_reachable p -> panicked (tunnel p) <> Some PanicCloseClosed.
Proof. intros Hr. exact (pi_close _ (proc_inv_reachable _ Hr)). Qed.

Lemma main_never_closes_twice_witness :
  let p := demo_proc_after [PSignal SIGINT; PMain; PSignal SIGTERM; PMain; PMain;
                            PSignal SIGINT] in
  proc_reachable p /\ panicked (tunnel p) <> Some PanicCloseClosed.
Proof.
  intros p.
  assert (Hr : proc_reachable p).
  { apply demo_proc_after_reachable. vm_compute. eauto. }
  split; [exact Hr | exact (main_never_closes_twice p Hr)].
Defined.

(** C17: the process ends after a signal: from a serving process (main
    waiting on [sigChan], nothing panicked), one SIGINT and then only
    [main]'s statements and the relay workers' (no new connection, no
    help from the local service) make [Stop] return, log "Tunnel
    stopped", and [main] return. *)
Theorem main_exits_after_signal (p : Process) :
  proc_reachable p -> panicked (tunnel p) = None -> main_at p = MainWaitSignal ->
  exists pas p', Forall (fun pa => pa = PMain \/ exists a, pa = PGoroutine a /\
                                    worker_step_action a = true) pas /\
    proc_run (PSignal SIGINT :: PMain :: PMain :: pas) p = Some p' /\
    main_at p' = MainReturned /\ LogStopped ∈ logs (tunnel p').
Proof.
  intros Hr Hnp Hm. pose proof (proc_inv_reachable _ Hr) as Hinv.
  destruct (pi_sig _ Hinv) as [Hc Hl].
  pose proof (pi_main _ Hinv) as Hidle. rewrite Hm in Hidle. simpl in Hidle.
  destruct (signal_recv SIGINT _ Hc Hl) as (x & ch & Hrecv).
  assert (Hsc : stopChan (ts (tunnel p)) = false)
    by (apply (inv_stopper _ (inv_reachable _ (pi_reachable _ Hinv))); done).
  set (s1 := with_stopper StopWaitLoop (with_ts (ts_with_stopChan true (ts (tunnel p))) (tunnel p))).
  set (p1 := mkProcess MainInStop ch s1).
  assert (Hrun : proc_run [PSignal SIGINT; PMain; PMain] p = Some p1).
  { rewrite (proc_run_cons _ _ _ (mkProcess MainWaitSignal (signal_notify SIGINT (sigChan p)) (tunnel p)))
      by (unfold proc_exec; rewrite Hm, Hnp; reflexivity).
    rewrite (proc_run_cons _ _ _ (mkProcess MainCallStop ch (tunnel p)))
      by (unfold proc_exec, main_step; simpl; rewrite Hnp, Hrecv; reflexivity).
    cbn [proc_run]. unfold proc_exec, main_step. simpl. rewrite Hnp.
    unfold exec, Stop_close, Chan.close. rewrite Hnp, Hidle, Hsc. reflexivity. }
  assert (Hr1 : proc_reachable p1) by (eapply proc_run_reachable; [exact Hr | exact Hrun]).
  destruct (finish_in_stop p1 (proc_inv_reachable _ Hr1) eq_refl eq_refl Hnp)
    as (pas & p' & Hpas & Hrun' & Hret & Hlog).
  exists pas, p'. split_and!; try done.
  change (PSignal SIGINT :: PMain :: PMain :: pas) with ([PSignal SIGINT; PMain; PMain] ++ pas).
  by rewrite proc_run_app, Hrun.
Qed.

Lemma main_exits_after_signal_witness :
  let p := demo_proc_after [PGoroutine ALoop; PGoroutine APeerConnects;
                            PGoroutine ALoop; PGoroutine ALoop] in
  (proc_reachable p /\ panicked (tunnel p) = None /\ main_at p = MainWaitSignal) /\
  exists pas p', Forall (fun pa => pa = PMain \/ exists a, pa = PGoroutine a /\
                                    worker_step_action a = true) pas /\
    proc_run (PSignal SIGINT :: PMain :: PMain :: pas) p = Some p' /\
    main_at p' = MainReturned /\ LogStopped ∈ logs (tunnel p').
Proof.
  intros p.
  assert (Hr : proc_reachable p).
  { apply demo_proc_after_reachable. vm_compute. eauto. }
  assert (Hnp : panicked (tunnel p) = None) by (vm_compute; reflexivity).
  assert (Hm : main_at p = MainWaitSignal) by (vm_compute; reflexivity).
  split; [split_and!; assumption | exact (main_exits_after_signal p Hr Hnp Hm)].
Defined.

(** C18: when the process exits ([main] returned), at most one relay is
    still running: every relay accepted before [Stop] returned has
    finished, and the accept loop can hand at most one more connection
    to a worker before [main] returns. *)
Theorem main_exit_at_most_one_relay (p : Process) :
  proc_reachable p -> main_at p = MainReturned ->
  count_if is_running (relays (abs (tunnel p))) <= 1.
Proof.
  intros Hr Hm. destruct (proc_inv_reachable _ Hr) as [_ Hmain _ _ Hlate].
  rewrite Hm in Hmain. simpl in Hmain. specialize (Hlate Hmain).
  unfold late_budget in Hlate. lia.
Qed.

Lemma main_exit_at_most_one_relay_witness :
  let p := demo_proc_after sched_exit_race in
  (proc_reachable p /\ main_at p = MainReturned) /\
  count_if is_running (relays (abs (tunnel p))) <= 1.
Proof.
  intros p.
  assert (Hr : proc_reachable p).
  { apply demo_proc_after_reachable. vm_compute. eauto. }
  assert (Hm : main_at p = MainReturned) by (vm_compute; reflexivity).
  split; [split; assumption | exact (main_exit_at_most_one_relay p Hr Hm)].
Defined.

(** C19: the process can exit without draining: a connection accepted
    after [Stop] returned (the accept loop was already in [Accept])
    gets a worker whose relay is still running when [main] returns, so
    the exit cuts it off; the spec says the process drains and then
    exits. *)
Theorem main_exit_kills_relay :
  exists s lines p,
    main_start ["tunnel"]%string true (inr []) (inr ("::"%string, 40000%Z)) = MainServing s lines /\
    proc_run sched_exit_race (proc_start s) = Some p /\ main_at p = MainReturned /\
    relays (abs (tunnel p)) = [RelayRunning] /\ panicked (tunnel p) = None.
Proof.
  exists (started 3000 40000 true), (banner 3000 EmptyString 40000).
  eexists. split; [apply demo_main_start|]. split; [vm_compute; reflexivity|].
  vm_compute. split_and!; reflexivity.
Qed.

(** C20: the reuse panic crashes the program: with the local service
    down, a SIGINT arrives while a connection's worker fails its dial;
    its [Done] releases [Stop]'s [Wait], a new connection is counted
    before [main] wakes, and [main]'s [Wait] panics.  The process dies
    inside [Stop]: nothing steps any more. *)
Theorem main_crashes_on_late_connection :
  exists s lines p,
    main_start ["tunnel"]%string false (inr []) (inr ("::"%string, 40000%Z)) = MainServing s lines /\
    proc_run sched_crash (proc_start s) = Some p /\ main_at p = MainInStop /\
    panicked (tunnel p) = Some PanicWaitGroupReused /\ forall pa, proc_exec pa p = None.
Proof.
  exists (started 3000 40000 false), (banner 3000 EmptyString 40000).
  eexists. split; [apply demo_main_start|]. split; [vm_compute; reflexivity|].
  split; [vm_compute; reflexivity|]. split; [vm_compute; reflexivity|].
  intros pa. apply proc_exec_panicked. vm_compute. discriminate.
Qed.
